(** * BleachBit secure wipe: the Windows cluster-level engine and the
      portable fall-back, embedded from [bleachbit/WindowsWipe.py] and
      [bleachbit/FileUtilities.py].

    Pure helpers (the extent algebra) are plain functions.  Code that talks
    to the operating system is written in a small state-and-exception monad
    over an explicit [World]; what the operating system answers is read
    from an [OS] record indexed by the number of system calls made so far,
    so every statement below quantifies over every possible behaviour of
    the volume, of other processes and of the random generator. *)

From Stdlib Require Import ZArith Lia.
From stdpp Require Import base gmap strings list sorting.
From Stdlib Require Import Ascii.

Local Open Scope Z_scope.
Set Warnings "-clear-no-such-hyp".

(** ** Python values shared by both modules *)

(** Exceptions the modelled code can raise or see. *)
Inductive exn : Type :=
| AssertionError
| IndexError
| TypeError
| RuntimeError
| UnsupportedFileSystemError
| PlainException
| WinError (winerror : Z)      (* pywintypes.error *)
| WindowsError (winerror : Z)  (* the builtin WindowsError *)
| OSError (errno : Z).         (* OSError / IOError *)

(** The result of running a piece of Python: a value, an exception, or the
    model's recursion budget ran out (never the case for the budgets the
    callers pass, see the [total_*] lemmas). *)
Inductive outcome (A : Type) : Type :=
| Ret (a : A)
| Raise (e : exn)
| OutOfFuel.
Arguments Ret {A} a.
Arguments Raise {A} e.
Arguments OutOfFuel {A}.

(** An extent is an inclusive pair [(lcn_start, lcn_end)]. *)
Definition extent : Type := Z * Z.

Definition extent_length (x : extent) : Z := snd x - fst x + 1.

(** The clusters of an extent, and of an extent list. *)
Definition in_extent (c : Z) (x : extent) : Prop := fst x <= c <= snd x.

Definition in_extents (c : Z) (l : list extent) : Prop :=
  Exists (in_extent c) l.

Definition sum_of_lengths (l : list extent) : Z :=
  foldr (fun x acc => extent_length x + acc) 0 l.

(** [range(start, stop, step)] for a positive step: CPython computes the
    length as [(stop - start + step - 1) // step] when [start < stop] and
    0 otherwise. *)
Definition py_range (start stop step : Z) : list Z :=
  (fun i : nat => start + Z.of_nat i * step)
    <$> seq 0 (Z.to_nat ((stop - start + step - 1) / step)).

(** Indexing a sequence with a Python integer: negative indices count from
    the end, anything out of range raises IndexError. *)
Definition py_getitem {A : Type} (l : list A) (i : Z) : option A :=
  let n := Z.of_nat (length l) in
  if 0 <=? i then l !! Z.to_nat i
  else if - n <=? i then l !! Z.to_nat (n + i)
  else None.

(** [sorted(l, key=itemgetter(0))]: a stable sort on the first component. *)
Fixpoint insert_by_start (x : extent) (l : list extent) : list extent :=
  match l with
  | [] => [x]
  | y :: l' =>
      if fst x <=? fst y then x :: y :: l' else y :: insert_by_start x l'
  end.

Definition sorted_by_start (l : list extent) : list extent :=
  foldr insert_by_start [] l.

(** ** WindowsWipe.py: the extent algebra *)

Definition WRITE_BUF_SIZE : Z := 512 * 1024.
Definition TMP_FILE_NAME : string := "bbtemp.dat".

(** *** logical_ranges_to_extents

    A generator: the model returns what it yields, in order, and whether it
    stopped by exhaustion ([None]) or by a failed [assert]. *)

(** [bridge_compressed = False]: one pass with the running [vcn_count]. *)
Fixpoint ranges_loop (vcn_count : Z) (ranges : list (Z * Z))
  : list extent * option exn :=
  match ranges with
  | [] => ([], None)
  | (vcn, lcn) :: rest =>
      if lcn <? 0 then ranges_loop vcn rest
      else
        let this_vcn_span := vcn - vcn_count in
        if 0 <=? this_vcn_span then
          let '(ys, st) := ranges_loop vcn rest in
          ((lcn, lcn + this_vcn_span - 1) :: ys, st)
        else ([], Some AssertionError)
  end.

(** [bridge_compressed = True]: the inner [while] that extends
    [merge_index] by two as long as the pattern real, hole, real continues
    with a gap of 1..16 clusters.  [pending] is [ranges[merge_index:]];
    [merge_index + 2 < last_record] says it has at least three entries. *)
Fixpoint merge_scan (lcn : Z) (pending : list (Z * Z)) (merge_index : nat)
  : nat :=
  match pending with
  | r0 :: (r1 :: ((r2 :: _) as next)) =>
      if (0 <=? lcn) && (snd r1 <? 0) && (0 <=? snd r2)
         && (snd r2 - snd r0 <=? 16) && (0 <? snd r2 - snd r0)
      then merge_scan lcn next (merge_index + 2)%nat
      else merge_index
  | _ => merge_index
  end.

(** The outer [while index < last_record].  Every round advances [index],
    so [length ranges] rounds are enough; the third component tells whether
    the budget ran out first. *)
Fixpoint bridged_loop (fuel : nat) (ranges : list (Z * Z))
    (vcn_count : Z) (index : nat) : list extent * option exn * bool :=
  match fuel with
  | O => ([], None, (index <? length ranges)%nat)
  | S fuel' =>
      match ranges !! index with
      | None => ([], None, false)
      | Some (vcn, lcn) =>
          if lcn <? 0 then bridged_loop fuel' ranges vcn (index + 1)%nat
          else
            let merge_index := merge_scan lcn (drop index ranges) index in
            if (merge_index =? index)%nat then
              let this_vcn_span := vcn - vcn_count in
              if 0 <=? this_vcn_span then
                let '(ys, st, out) :=
                  bridged_loop fuel' ranges vcn (index + 1)%nat in
                ((lcn, lcn + this_vcn_span - 1) :: ys, st, out)
              else ([], Some AssertionError, false)
            else
              let last := default (0, 0) (ranges !! merge_index) in
              let before := default (0, 0) (ranges !! (merge_index - 1)%nat) in
              let last_vcn_span := fst last - fst before in
              if 0 <=? last_vcn_span then
                let '(ys, st, out) :=
                  bridged_loop fuel' ranges (fst last) (merge_index + 1)%nat in
                ((lcn, snd last + last_vcn_span - 1) :: ys, st, out)
              else ([], Some AssertionError, false)
      end
  end.

Definition logical_ranges_to_extents (ranges : list (Z * Z))
    (bridge_compressed : bool) : list extent * option exn :=
  if negb bridge_compressed then ranges_loop 0 ranges
  else fst (bridged_loop (length ranges) ranges 0 0%nat).

(** [list(generator)]: the list, or the exception the generator raised. *)
Definition list_of_generator {A : Type} (g : list A * option exn)
  : outcome (list A) :=
  match snd g with
  | None => Ret (fst g)
  | Some e => Raise e
  end.

(** *** extents_a_minus_b *)

(** The inner [for b_begin, b_end in b_sorted] for one extent of [a], with
    the current [a_begin].  When the loop runs off the end of [b_sorted]
    nothing more is yielded. *)
Fixpoint trim_by_b (a_begin a_end : Z) (b_sorted : list extent)
  : list extent :=
  match b_sorted with
  | [] => []
  | (b_begin, b_end) :: rest =>
      if a_end <? b_begin then [(a_begin, a_end)]                (* yield, break *)
      else if b_end <? a_begin then trim_by_b a_begin a_end rest (* continue *)
      else if b_begin <=? a_begin then
        if a_end <=? b_end then []                               (* break *)
        else trim_by_b (b_end + 1) a_end rest
      else
        (a_begin, b_begin - 1)
          :: (if a_end <=? b_end then []                         (* break *)
              else trim_by_b (b_end + 1) a_end rest)
  end.

Definition extents_a_minus_b (a b : list extent) : list extent :=
  let a_sorted := sorted_by_start a in
  let b_sorted := sorted_by_start b in
  let b_is_empty := bool_decide (b = []) in
  flat_map
    (fun '(a_begin, a_end) =>
       (if b_is_empty then [(a_begin, a_end)] else [])
         ++ trim_by_b a_begin a_end b_sorted)
    a_sorted.

(** *** split_extent *)

Definition split_factor : Z := 10.

(** The loop test [count > split_factor**(exponent + 1.3)].  Both sides
    are positive when the test can hold, so over the reals it is
    [count^10 > 10^(10*exponent + 13)]; the model decides it in that form. *)
Definition above_threshold (count exponent : Z) : bool :=
  (0 <? count) && (split_factor ^ (10 * exponent + 13) <? count ^ 10).

Fixpoint exponent_loop (fuel : nat) (count exponent : Z) : option Z :=
  match fuel with
  | O => None
  | S fuel' =>
      if above_threshold count exponent
      then exponent_loop fuel' count (exponent + 1)
      else Some exponent
  end.

(** The final [for x in range(lcn_start, lcn_end + 1, extent_size)]. *)
Definition split_chunks (lcn_start lcn_end extent_size : Z) : list extent :=
  (fun x => (x, Z.min (x + extent_size - 1) lcn_end))
    <$> py_range lcn_start (lcn_end + 1) extent_size.

Definition split_extent (lcn_start lcn_end : Z) : option (list extent) :=
  let count := lcn_end - lcn_start + 1 in
  exponent ← exponent_loop (S (Z.to_nat (Z.log2 count))) count 0;
  let extent_size := split_factor ^ exponent in
  Some (split_chunks lcn_start lcn_end extent_size).

(** *** check_mapped_bit, check_extents *)

(** The volume bitmap is a [bytes] object: a list of integers 0..255. *)
Definition check_mapped_bit (volume_bitmap : list Z) (lcn : Z)
  : outcome bool :=
  match py_getitem volume_bitmap (lcn / 8) with
  | None => Raise IndexError
  | Some mapped_bit =>
      let bit_location := lcn mod 8 in
      let mapped_bit :=
        if 0 <? bit_location then Z.shiftr mapped_bit bit_location
        else mapped_bit in
      let mapped_bit := Z.land mapped_bit 1 in
      Ret (0 <? mapped_bit)
  end.

(** The tallies and the caller's [allocated_extents] list, which the
    function appends to in place ([None] when the argument is omitted). *)
Definition tally : Type := Z * Z * option (list extent).

Fixpoint check_clusters (volume_bitmap : list Z) (clusters : list Z)
    (acc : tally) : outcome tally :=
  match clusters with
  | [] => Ret acc
  | cluster :: rest =>
      let '(count_free, count_allocated, allocated_extents) := acc in
      match check_mapped_bit volume_bitmap cluster with
      | Ret true =>
          check_clusters volume_bitmap rest
            (count_free, count_allocated + 1,
             (fun l => l ++ [(cluster, cluster)]) <$> allocated_extents)
      | Ret false =>
          check_clusters volume_bitmap rest
            (count_free + 1, count_allocated, allocated_extents)
      | Raise e => Raise e
      | OutOfFuel => OutOfFuel
      end
  end.

Fixpoint check_extents_loop (extents : list extent) (volume_bitmap : list Z)
    (acc : tally) : outcome tally :=
  match extents with
  | [] => Ret acc
  | (lcn_start, lcn_end) :: rest =>
      match check_clusters volume_bitmap
              (py_range lcn_start (lcn_end + 1) 1) acc with
      | Ret acc' => check_extents_loop rest volume_bitmap acc'
      | other => other
      end
  end.

Definition check_extents (extents : list extent) (volume_bitmap : list Z)
    (allocated_extents : option (list extent)) : outcome tally :=
  check_extents_loop extents volume_bitmap (0, 0, allocated_extents).


(** ** The world the code runs in *)

Definition handle : Type := positive.

(** What the code does to the outside, in order.  The [EvDebugExamining]
    entry is the [logger.debug("Examining extent from %d to %d for
    wipe...")] line at the top of [wipe_extent_by_defrag]. *)
Inductive event : Type :=
| EvWriteFile (h : handle) (nbytes : Z)
| EvFlushFileBuffers (h : handle)
| EvLockFile (h : handle) (offset_low offset_high len_low len_high : Z)
| EvSetFilePointer (h : handle) (offset : Z)
| EvSetEndOfFile (h : handle)
| EvSetFileAttributes (path : string) (attrs : Z)
| EvGetVolumeBitmap (h : handle)
| EvMoveFile (volume file : handle)
    (starting_vcn starting_lcn cluster_count : Z)
| EvSleep (ms : Z)
| EvDebugExamining (lcn_start lcn_end : Z)
| EvWarn
| EvWrite (f : handle) (nbytes : Z)
| EvFlush (f : handle)
| EvFsync (f : handle)
| EvTruncate (f : handle) (size : Z)
| EvChmod (path : string) (mode : Z)
| EvRename (src dst : string).

(** [handles]: the open handles and file objects with the path each was
    opened on.  [files]: the paths that exist, as far as the code creates,
    renames or deletes them.  [generators]: the live generator objects with
    the items each has still to yield.  [clock]: the number of calls made
    to the operating system so far. *)
Record World : Type := mkWorld {
  clock : nat;
  handles : gmap positive string;
  files : gset string;
  generators : gmap positive (list extent);
  trace : list event
}.

Definition set_clock (n : nat) (w : World) : World :=
  mkWorld n (handles w) (files w) (generators w) (trace w).
Definition set_handles (h : gmap positive string) (w : World) : World :=
  mkWorld (clock w) h (files w) (generators w) (trace w).
Definition set_files (f : gset string) (w : World) : World :=
  mkWorld (clock w) (handles w) f (generators w) (trace w).
Definition set_generators (g : gmap positive (list extent)) (w : World)
  : World :=
  mkWorld (clock w) (handles w) (files w) g (trace w).
Definition set_trace (t : list event) (w : World) : World :=
  mkWorld (clock w) (handles w) (files w) (generators w) t.

(** What the operating system, the platform's [os.path] and the random
    generator answer.  Fields that take a [nat] are indexed by the clock:
    the call made at tick [t] fails with [os_error t] when that is [Some],
    and otherwise gets the answer stored at [t]. *)
Record OS : Type := mkOS {
  os_name : string;
  os_sep : ascii;
  os_path_dirname : string -> string;
  os_path_split : string -> string * string;
  os_path_join : string -> string -> string;
  os_path_splitdrive : string -> string * string;
  IsUserAnAdmin : bool;
  os_error : nat -> option Z;
  os_int : nat -> Z;
  os_written : nat -> Z -> Z;
  os_bitmap : nat -> Z * Z * list Z;
  os_pointers : nat -> Z * list (Z * Z);
  os_volume_information : nat -> string * Z * string;
  os_disk_free_space : nat -> Z * Z * Z * Z;
  os_finddata : nat -> option (Z * Z);
  os_random : nat -> Z -> string
}.

(** ** The monad *)

Definition M (A : Type) : Type := World -> outcome A * World.

Definition ret {A : Type} (a : A) : M A := fun w => (Ret a, w).

Definition raise {A : Type} (e : exn) : M A := fun w => (Raise e, w).

Definition out_of_fuel {A : Type} : M A := fun w => (OutOfFuel, w).

Definition bind {A B : Type} (m : M A) (k : A -> M B) : M B :=
  fun w =>
    match m w with
    | (Ret a, w') => k a w'
    | (Raise e, w') => (Raise e, w')
    | (OutOfFuel, w') => (OutOfFuel, w')
    end.

#[global] Instance M_ret : MRet M := @ret.
#[global] Instance M_bind : MBind M := fun A B k m => bind m k.

(** [try: body  except: handler]; the model's budget is not an exception. *)
Definition try_except {A : Type} (body : M A) (handler : exn -> M A) : M A :=
  fun w =>
    match body w with
    | (Raise e, w') => handler e w'
    | other => other
    end.

(** [try: body  finally: final]. *)
Definition try_finally {A : Type} (body : M A) (final : M unit) : M A :=
  fun w =>
    match body w with
    | (Ret a, w') =>
        match final w' with
        | (Ret _, w'') => (Ret a, w'')
        | (Raise e, w'') => (Raise e, w'')
        | (OutOfFuel, w'') => (OutOfFuel, w'')
        end
    | (Raise e, w') =>
        match final w' with
        | (Ret _, w'') => (Raise e, w'')
        | (Raise e', w'') => (Raise e', w'')
        | (OutOfFuel, w'') => (OutOfFuel, w'')
        end
    | (OutOfFuel, w') => (OutOfFuel, w')
    end.

Definition lift {A : Type} (o : outcome A) : M A := fun w => (o, w).

Definition lift_fuel {A : Type} (o : option A) : M A :=
  fun w => (match o with Some a => Ret a | None => OutOfFuel end, w).

Definition assert_ (b : bool) : M unit :=
  if b then ret tt else raise AssertionError.

Definition emit (e : event) : M unit :=
  fun w => (Ret tt, set_trace (trace w ++ [e]) w).

Definition tick : M nat :=
  fun w => (Ret (clock w), set_clock (S (clock w)) w).

(** [for x in l: body x]. *)
Fixpoint for_each {A : Type} (l : list A) (body : A -> M unit) : M unit :=
  match l with
  | [] => ret tt
  | x :: rest => body x;; for_each rest body
  end.

(** *** Generator objects

    [orig_extents] in [file_wipe] is first a list and later the generator
    object returned by [extents_a_minus_b]; both are passed around by
    reference.  The generator has no side effect of its own, so the object
    is the cell of items it has not yielded yet. *)
Inductive extents_obj : Type :=
| ExtentList (l : list extent)
| ExtentGen (g : positive).

Definition new_generator (items : list extent) : M extents_obj :=
  fun w =>
    let g := fresh (dom (generators w)) in
    (Ret (ExtentGen g), set_generators (<[g := items]> (generators w)) w).

(** Truth value: a list is true when non-empty, a generator object always. *)
Definition truthy (o : extents_obj) : bool :=
  match o with
  | ExtentList l => negb (bool_decide (l = []))
  | ExtentGen _ => true
  end.

(** Iterating to the end: a list gives its items every time, a generator
    gives what is left and is exhausted afterwards. *)
Definition iterate (o : extents_obj) : M (list extent) :=
  match o with
  | ExtentList l => ret l
  | ExtentGen g =>
      fun w =>
        (Ret (default [] (generators w !! g)),
         set_generators (<[g := []]> (generators w)) w)
  end.

(** [len(o)]: a generator has no length. *)
Definition py_len (o : extents_obj) : M Z :=
  match o with
  | ExtentList l => ret (Z.of_nat (length l))
  | ExtentGen _ => raise TypeError
  end.

(** ** Python string methods used on paths *)

Definition startswith (s p : string) : bool := String.prefix p s.

(** [s[n:]]. *)
Fixpoint str_drop (n : nat) (s : string) : string :=
  match n, s with
  | O, _ => s
  | S _, EmptyString => EmptyString
  | S n', String _ s' => str_drop n' s'
  end.

(** [s[-1]] when [s] is not empty. *)
Fixpoint str_last (s : string) : option ascii :=
  match s with
  | EmptyString => None
  | String c EmptyString => Some c
  | String _ s' => str_last s'
  end.

(** [s.split(sep)] for a one-character separator. *)
Fixpoint str_split (sep : ascii) (s : string) : list string :=
  match s with
  | EmptyString => [EmptyString]
  | String c s' =>
      match str_split sep s' with
      | [] => []
      | word :: words =>
          if bool_decide (c = sep) then EmptyString :: word :: words
          else String c word :: words
      end
  end.

(** [s.rstrip(sep)] for a one-character separator. *)
Fixpoint str_rstrip (sep : ascii) (s : string) : string :=
  match s with
  | EmptyString => EmptyString
  | String c s' =>
      match str_rstrip sep s' with
      | EmptyString =>
          if bool_decide (c = sep) then EmptyString else String c EmptyString
      | kept => String c kept
      end
  end.

Definition ascii_upper (c : ascii) : ascii :=
  let n := nat_of_ascii c in
  if ((97 <=? n) && (n <=? 122))%nat then ascii_of_nat (n - 32) else c.

Definition ascii_lower (c : ascii) : ascii :=
  let n := nat_of_ascii c in
  if ((65 <=? n) && (n <=? 90))%nat then ascii_of_nat (n + 32) else c.

Fixpoint str_map (f : ascii -> ascii) (s : string) : string :=
  match s with
  | EmptyString => EmptyString
  | String c s' => String (f c) (str_map f s')
  end.

(** [upper()] and [lower()] on the letters of ASCII; every other character
    is left as it is.  The model applies them to [os.name] and to the name
    of a file system only, which it takes to be ASCII strings, to compare
    the result with a constant ([os.name.lower() != "nt"],
    [fs.upper() == "UDF"]).  Where the code lowers paths, which may hold
    any character, the lowering function is a parameter. *)
Definition str_upper : string -> string := str_map ascii_upper.
Definition str_lower : string -> string := str_map ascii_lower.

(** Constants of win32con / win32file and of errno. *)
Definition FILE_ATTRIBUTE_READONLY : Z := 1.
Definition FILE_ATTRIBUTE_HIDDEN : Z := 2.
Definition FILE_ATTRIBUTE_SPARSE_FILE : Z := 512.
Definition FILE_ATTRIBUTE_COMPRESSED : Z := 2048.
Definition FILE_ATTRIBUTE_ENCRYPTED : Z := 16384.
Definition DRIVE_UNKNOWN : Z := 0.
Definition DRIVE_REMOTE : Z := 4.
Definition DRIVE_CDROM : Z := 5.
Definition FILE_BEGIN : Z := 0.
Definition ERROR_FILE_NOT_FOUND : Z := 2.
Definition ERROR_INVALID_HANDLE : Z := 6.
Definition ENOENT : Z := 2.
Definition EACCES : Z := 13.
Definition ENOSPC : Z := 28.

Inductive disposition : Type := OPEN_EXISTING | CREATE_ALWAYS.

Record VolumeInfo : Type := mkVolumeInfo {
  drive_name : string;
  max_path : Z;
  file_system : string;
  sectors_per_cluster : Z;
  bytes_per_sector : Z;
  total_clusters : Z
}.

(** The three ways the buffer-escalation loop of [get_extents] ends. *)
Inductive rp_result : Type :=
| RpReturnEmpty
| RpNone
| RpStruct (starting_vcn : Z) (ranges : list (Z * Z)).

Section Program.

Context (os : OS).

(** ** System calls *)

(** A pywin32 call: it fails with [pywintypes.error] when the operating
    system says so at this tick. *)
Definition syscall : M nat :=
  t ← tick;
  match os_error os t with
  | Some code => raise (WinError code)
  | None => ret t
  end.

(** A call of the Python library: it fails with [OSError]. *)
Definition pycall : M nat :=
  t ← tick;
  match os_error os t with
  | Some code => raise (OSError code)
  | None => ret t
  end.

Definition open_handle (path : string) (creates : bool) : M handle :=
  fun w =>
    let h := fresh (dom (handles w)) in
    (Ret h,
     set_files (if creates then {[path]} ∪ files w else files w)
       (set_handles (<[h := path]> (handles w)) w)).

Definition CreateFile (path : string) (d : disposition) : M handle :=
  _ ← syscall;
  open_handle path (match d with CREATE_ALWAYS => true | _ => false end).

Definition CreateFileW : string -> disposition -> M handle := CreateFile.

(** Closing an open handle succeeds; closing anything else is an error. *)
Definition CloseHandle (h : handle) : M unit :=
  fun w =>
    match handles w !! h with
    | Some _ => (Ret tt, set_handles (delete h (handles w)) w)
    | None => (Raise (WinError ERROR_INVALID_HANDLE), w)
    end.

(** [DeleteFile] can be refused like every other call (the file is open
    elsewhere, access is denied).  When it is not, an existing file is
    gone afterwards and a missing one is an error. *)
Definition unlink (path : string) : M unit :=
  fun w =>
    if bool_decide (path ∈ files w)
    then (Ret tt, set_files (files w ∖ {[path]}) w)
    else (Raise (WinError ERROR_FILE_NOT_FOUND), w).

Definition DeleteFile (path : string) : M unit :=
  _ ← syscall; unlink path.

Definition GetFileAttributesW (path : string) : M Z :=
  t ← syscall; ret (os_int os t).

Definition SetFileAttributesW (path : string) (attrs : Z) : M unit :=
  _ ← syscall; emit (EvSetFileAttributes path attrs).

Definition GetFileSize (h : handle) : M Z :=
  t ← syscall; ret (os_int os t).

Definition GetVolumeInformation (volume : string) : M (string * Z * string) :=
  t ← syscall; ret (os_volume_information os t).

Definition GetDiskFreeSpace (volume : string) : M (Z * Z * Z * Z) :=
  t ← syscall; ret (os_disk_free_space os t).

Definition GetDriveType (volume : string) : M Z :=
  t ← syscall; ret (os_int os t).

(** [WriteFile] returns the error code and the number of bytes written. *)
Definition WriteFile (h : handle) (nbytes : Z) : M (Z * Z) :=
  t ← syscall;
  let bytes_written := os_written os t nbytes in
  emit (EvWriteFile h bytes_written);;
  ret (0, bytes_written).

Definition FlushFileBuffers (h : handle) : M unit :=
  _ ← syscall; emit (EvFlushFileBuffers h).

Definition LockFile (h : handle) (offset_low offset_high len_low len_high : Z)
  : M unit :=
  _ ← syscall; emit (EvLockFile h offset_low offset_high len_low len_high).

Definition SetFilePointer (h : handle) (offset whence : Z) : M unit :=
  _ ← syscall; emit (EvSetFilePointer h offset).

Definition SetEndOfFile (h : handle) : M unit :=
  _ ← syscall; emit (EvSetEndOfFile h).

Definition Sleep (ms : Z) : M unit := emit (EvSleep ms).

(** [DeviceIoControl] with FSCTL_GET_RETRIEVAL_POINTERS: the answer is the
    decoded structure, its starting VCN and its [record_count] pairs. *)
Definition DeviceIoControl_GET_RETRIEVAL_POINTERS (h : handle) (buf_size : Z)
  : M (Z * list (Z * Z)) :=
  t ← syscall; ret (os_pointers os t).

(** [DeviceIoControl] with FSCTL_GET_VOLUME_BITMAP: starting LCN, bitmap
    size and the bitmap bytes. *)
Definition DeviceIoControl_GET_VOLUME_BITMAP (h : handle) (buf_size : Z)
  : M (Z * Z * list Z) :=
  t ← syscall; emit (EvGetVolumeBitmap h);; ret (os_bitmap os t).

Definition DeviceIoControl_MOVE_FILE (volume_handle file_handle : handle)
    (starting_vcn starting_lcn cluster_count : Z) : M unit :=
  _ ← syscall;
  emit (EvMoveFile volume_handle file_handle
          starting_vcn starting_lcn cluster_count).

(** ** FileUtilities.py: extended paths *)

Definition extended_path (path : string) : string :=
  if bool_decide (os_name os = "nt")
     && negb (bool_decide ("Sysnative" ∈ str_split (os_sep os) path))
  then
    if startswith path "\\?" then path
    else if startswith path "\\" then "\\?\unc\" +:+ str_drop 2 path
    else "\\?\" +:+ path
  else path.

Definition extended_path_undo (path : string) : string :=
  if bool_decide (os_name os = "nt") then
    if startswith path "\\?\unc" then "\" +:+ str_drop 7 path
    else if startswith path "\\?" then str_drop 4 path
    else path
  else path.

(** ** WindowsWipe.py: the volume I/O adapter *)

Definition check_os : M unit :=
  if bool_decide (str_lower (os_name os) = "nt") then ret tt
  else raise RuntimeError.

Definition open_file (file_name : string) : M handle :=
  CreateFileW file_name OPEN_EXISTING.

Definition close_file (file_handle : handle) : M unit :=
  CloseHandle file_handle.

Definition get_file_basic_info (file_name : string) (file_handle : handle)
  : M (Z * bool) :=
  file_attributes ← GetFileAttributesW file_name;
  file_size ← GetFileSize file_handle;
  let is_compressed :=
    negb (Z.land file_attributes FILE_ATTRIBUTE_COMPRESSED =? 0) in
  let is_encrypted :=
    negb (Z.land file_attributes FILE_ATTRIBUTE_ENCRYPTED =? 0) in
  let is_sparse :=
    negb (Z.land file_attributes FILE_ATTRIBUTE_SPARSE_FILE =? 0) in
  let is_special := is_compressed || is_encrypted || is_sparse in
  ret (file_size, is_special).

Definition truncate_file (file_handle : handle) : M unit :=
  SetFilePointer file_handle 0 FILE_BEGIN;;
  SetEndOfFile file_handle;;
  FlushFileBuffers file_handle.

Definition volume_from_file (file_name : string) : string :=
  let split_path := os_path_splitdrive os (extended_path_undo file_name) in
  let volume := split_path.1 in
  if negb (bool_decide (volume = ""))
     && negb (bool_decide (str_last volume = Some (os_sep os)))
  then volume +:+ String (os_sep os) ""
  else volume.

Definition get_volume_information (volume : string) : M VolumeInfo :=
  if bool_decide (volume = "") then raise UnsupportedFileSystemError
  else
    result1 ← GetVolumeInformation volume;
    result2 ← GetDiskFreeSpace volume;
    result3 ← GetDriveType volume;
    if bool_decide (result3 ∈ [DRIVE_REMOTE; DRIVE_CDROM; DRIVE_UNKNOWN])
    then raise UnsupportedFileSystemError
    else
      let '(name, max_len, fs) := result1 in
      let '(sectors, bytes, _, total) := result2 in
      if bool_decide (str_upper fs = "UDF")
      then raise UnsupportedFileSystemError
      else ret (mkVolumeInfo name max_len fs sectors bytes total).

Definition obtain_readwrite (volume : string) : M handle :=
  assert_ (negb (bool_decide (volume = "")));;
  let volume := "\\.\" +:+ volume in
  let volume :=
    if bool_decide (str_last volume = Some (os_sep os))
    then str_rstrip (os_sep os) volume else volume in
  CreateFile volume OPEN_EXISTING.

(** The [for retrieval_pointers_buf_size in buf_retry_sizes] loop. *)
Fixpoint get_extents_query (file_handle : handle) (buf_retry_sizes : list Z)
  : M rp_result :=
  match buf_retry_sizes with
  | [] => ret RpNone
  | retrieval_pointers_buf_size :: rest =>
      try_except
        ('(starting_vcn, ranges) ←
           DeviceIoControl_GET_RETRIEVAL_POINTERS
             file_handle retrieval_pointers_buf_size;
         ret (RpStruct starting_vcn ranges))
        (fun e =>
           match e with
           | WinError err_code =>
               if err_code =? 38 then ret RpReturnEmpty
               else if (err_code =? 122) || (err_code =? 234)
               then get_extents_query file_handle rest
               else raise e
           | _ => raise e
           end)
  end.

(** [get_extents(file_handle, translate_to_extents)]: extents and VCN/LCN
    ranges are both lists of integer pairs. *)
Definition get_extents (file_handle : handle) (translate_to_extents : bool)
  : M (list (Z * Z)) :=
  r ← get_extents_query file_handle
        [4 * 1024; 32 * 1024; 256 * 1024; 2 * 1024 ^ 2];
  match r with
  | RpReturnEmpty => ret []
  | RpNone => raise PlainException
  | RpStruct starting_vcn ranges =>
      assert_ (starting_vcn =? 0);;
      if translate_to_extents
      then lift (list_of_generator (logical_ranges_to_extents ranges false))
      else ret ranges
  end.

Definition get_volume_bitmap (volume_handle : handle) (total_clusters : Z)
  : M (list Z * Z) :=
  let buf_size := total_clusters `quot` 8 + 16 + 64 in
  '(starting_lcn, bitmap_size, volume_bitmap) ←
    DeviceIoControl_GET_VOLUME_BITMAP volume_handle buf_size;
  assert_ (starting_lcn =? 0);;
  ret (volume_bitmap, bitmap_size).

Definition move_file (volume_handle file_handle : handle)
    (starting_vcn starting_lcn cluster_count : Z) : M unit :=
  DeviceIoControl_MOVE_FILE volume_handle file_handle
    starting_vcn starting_lcn cluster_count.

(** ** WindowsWipe.py: the two wipe strategies and the driver *)

(** The [while write_length_bytes > 0] loop of [write_zero_fill]. *)
Fixpoint write_zero_fill_loop (fuel : nat) (file_handle : handle)
    (write_length_bytes : Z) : M unit :=
  if 0 <? write_length_bytes then
    match fuel with
    | O => out_of_fuel
    | S fuel' =>
        let '(write_string_len, write_length_bytes) :=
          if WRITE_BUF_SIZE <=? write_length_bytes
          then (WRITE_BUF_SIZE, write_length_bytes - WRITE_BUF_SIZE)
          else (write_length_bytes, 0) in
        '(_, bytes_written) ← WriteFile file_handle write_string_len;
        assert_ (bytes_written =? write_string_len);;
        write_zero_fill_loop fuel' file_handle write_length_bytes
    end
  else ret tt.

Definition write_zero_fill (file_handle : handle) (write_length_bytes : Z)
  : M unit :=
  assert_ (0 <? WRITE_BUF_SIZE);;
  write_zero_fill_loop
    (S (Z.to_nat (write_length_bytes / WRITE_BUF_SIZE)))
    file_handle write_length_bytes;;
  FlushFileBuffers file_handle.

(** The [for] over [extents] assigns [write_length] afresh in every round;
    the start value of the fold is never read, [extents] being non-empty
    on that branch. *)
Definition wipe_file_direct (file_handle : handle) (extents : list extent)
    (cluster_size file_size : Z) : M unit :=
  assert_ (0 <? cluster_size);;
  LockFile file_handle 0 0 (Z.land file_size 65535) (Z.shiftr file_size 16);;
  let write_length :=
    if negb (bool_decide (extents = [])) then
      foldl (fun _ '(lcn_start, lcn_end) =>
               (lcn_end - lcn_start + 1) * cluster_size) 0 extents
    else file_size in
  write_zero_fill file_handle write_length.

(** [for _ in range(polling_duration_seconds * attempts_per_second)]. *)
Fixpoint poll_loop (attempts : nat) (volume_handle : handle)
    (total_clusters : Z) (orig_extents : extents_obj) : M bool :=
  match attempts with
  | O => ret false
  | S attempts' =>
      '(volume_bitmap, _) ← get_volume_bitmap volume_handle total_clusters;
      items ← iterate orig_extents;
      '(count_free, count_allocated, _) ←
        lift (check_extents items volume_bitmap None);
      if count_allocated <? count_free then ret true
      else
        Sleep (1000 / 10);;
        poll_loop attempts' volume_handle total_clusters orig_extents
  end.

Definition poll_clusters_freed (volume_handle : handle) (total_clusters : Z)
    (orig_extents : extents_obj) : M bool :=
  let polling_duration_seconds := 7%nat in
  let attempts_per_second := 10%nat in
  if negb (truthy orig_extents) then ret true
  else
    poll_loop (polling_duration_seconds * attempts_per_second)
      volume_handle total_clusters orig_extents.

(** The [for new_lcn_start, new_lcn_end in new_extents] loop of
    [wipe_extent_by_defrag], with what follows it.  [on_move_error] is the
    body of the [except] clause after it has closed the handle. *)
Fixpoint move_loop (volume_handle file_handle : handle) (lcn_start : Z)
    (tmp_file_path : string) (on_move_error : M bool)
    (new_extents : list extent) (new_vcn : Z) : M bool :=
  match new_extents with
  | [] =>
      CloseHandle file_handle;;
      DeleteFile tmp_file_path;;
      ret true
  | (new_lcn_start, new_lcn_end) :: rest =>
      let cluster_count := new_lcn_end - new_lcn_start + 1 in
      let cluster_dest := lcn_start + new_vcn in
      returned ←
        (if negb (new_lcn_start =? cluster_dest) then
           try_except
             (move_file volume_handle file_handle
                new_vcn cluster_dest cluster_count;;
              ret None)
             (fun _ =>
                CloseHandle file_handle;;
                b ← on_move_error;
                ret (Some b))
         else ret None);
      match returned with
      | Some b => ret b
      | None =>
          move_loop volume_handle file_handle lcn_start tmp_file_path
            on_move_error rest (new_vcn + cluster_count)
      end
  end.

(** The block that [wipe_extent_by_defrag] runs in two places, when the
    extent has to be cut up and after a failed move:
    [if lcn_start >= lcn_end: return False], then the recursive call on
    every sub-extent of [split_extent], then [return True].  [recurse] is
    the function itself. *)
Definition split_and_recurse (recurse : Z -> Z -> M bool)
    (lcn_start lcn_end : Z) : M bool :=
  if lcn_end <=? lcn_start then ret false
  else
    parts ← lift_fuel (split_extent lcn_start lcn_end);
    for_each parts
      (fun '(split_s, split_e) => _ ← recurse split_s split_e; ret tt);;
    ret true.

(** The body of [wipe_extent_by_defrag], with [recurse] for its calls to
    itself.  SIMULATE_CONCURRENCY is False: the tally is [check_extents]. *)
Definition wipe_extent_by_defrag_body (recurse : Z -> Z -> M bool)
    (volume_handle : handle)
    (lcn_start lcn_end cluster_size total_clusters : Z)
    (tmp_file_path : string) : M bool :=
  assert_ (0 <? cluster_size);;
  emit (EvDebugExamining lcn_start lcn_end);;
  let write_length := (lcn_end - lcn_start + 1) * cluster_size in
  '(volume_bitmap, _) ← get_volume_bitmap volume_handle total_clusters;
  '(count_free, count_allocated, _) ←
    lift (check_extents [(lcn_start, lcn_end)] volume_bitmap None);
  if (0 <? count_allocated) && (count_free =? 0) then ret false
  else if (0 <? count_allocated) || (WRITE_BUF_SIZE * 4 <? write_length)
  then split_and_recurse recurse lcn_start lcn_end
  else
    file_handle ← CreateFile tmp_file_path CREATE_ALWAYS;
    write_zero_fill file_handle write_length;;
    new_extents ← get_extents file_handle true;
    move_loop volume_handle file_handle lcn_start tmp_file_path
      (split_and_recurse recurse lcn_start lcn_end) new_extents 0.

(** The recursion, cut off after [fuel] nested calls. *)
Fixpoint wipe_extent_by_defrag (fuel : nat) (volume_handle : handle)
    (lcn_start lcn_end cluster_size total_clusters : Z)
    (tmp_file_path : string) : M bool :=
  match fuel with
  | O => out_of_fuel
  | S fuel' =>
      wipe_extent_by_defrag_body
        (fun split_s split_e =>
           wipe_extent_by_defrag fuel' volume_handle split_s split_e
             cluster_size total_clusters tmp_file_path)
        volume_handle lcn_start lcn_end cluster_size total_clusters
        tmp_file_path
  end.

(** Recursion budget that is always enough: the length of the extent. *)
Definition defrag_fuel (lcn_start lcn_end : Z) : nat :=
  Z.to_nat (Z.max 1 (lcn_end - lcn_start + 1)).

(** [None] is Python's None; an open handle is true, a path when non-empty. *)
Definition clean_up (file_handle volume_handle : option handle)
    (tmp_file_path : option string) : M unit :=
  try_except
    ((match file_handle with
      | Some h => CloseHandle h
      | None => ret tt
      end);;
     (match volume_handle with
      | Some h => CloseHandle h
      | None => ret tt
      end);;
     (match tmp_file_path with
      | Some p => if bool_decide (p = "") then ret tt else DeleteFile p
      | None => ret tt
      end))
    (fun _ => ret tt).

Definition choose_if_bridged (volume_handle : handle) (total_clusters : Z)
    (orig_extents : extents_obj) (bridged_extents : list extent)
  : M extents_obj :=
  '(volume_bitmap, _) ← get_volume_bitmap volume_handle total_clusters;
  orig_items ← iterate orig_extents;
  '(_, count_oallocated, _) ←
    lift (check_extents orig_items volume_bitmap None);
  '(_, count_ballocated, allocated_extents) ←
    lift (check_extents bridged_extents volume_bitmap (Some []));
  let bridged_extents :=
    extents_a_minus_b bridged_extents (default [] allocated_extents) in
  let extra_allocated_clusters := count_ballocated - count_oallocated in
  len_orig ← py_len orig_extents;
  let saving_in_extents := len_orig - Z.of_nat (length bridged_extents) in
  let tradeoff := saving_in_extents - extra_allocated_clusters * 10 in
  if 0 <? tradeoff then ret (ExtentList bridged_extents)
  else ret orig_extents.

Definition file_wipe (file_name : string) : M unit :=
  let file_name := extended_path file_name in
  check_os;;
  let volume := volume_from_file file_name in
  volume_info ← get_volume_information volume;
  let cluster_size :=
    sectors_per_cluster volume_info * bytes_per_sector volume_info in
  file_handle ← open_file file_name;
  info ← get_file_basic_info file_name file_handle;
  let '(file_size, is_special) := (info : Z * bool) in
  orig_extents ← get_extents file_handle true;
  bridged_extents ←
    (if is_special then
       ranges ← get_extents file_handle false;
       lift (list_of_generator (logical_ranges_to_extents ranges true))
     else ret []);
  CloseHandle file_handle;;
  volume_handle ← obtain_readwrite volume;
  attrs ← GetFileAttributesW file_name;
  (if negb (Z.land attrs FILE_ATTRIBUTE_READONLY =? 0)
   then SetFileAttributesW file_name
          (Z.land attrs (Z.lnot FILE_ATTRIBUTE_READONLY))
   else ret tt);;
  file_handle ← open_file file_name;
  remaining ←
    (if negb is_special then
       wipe_file_direct file_handle orig_extents cluster_size file_size;;
       new_extents ← get_extents file_handle true;
       CloseHandle file_handle;;
       if bool_decide (orig_extents = new_extents) then
         clean_up None (Some volume_handle) None;;
         ret None
       else
         g ← new_generator (extents_a_minus_b orig_extents new_extents);
         ret (Some g)
     else
       truncate_file file_handle;;
       CloseHandle file_handle;;
       ret (Some (ExtentList orig_extents)));
  match remaining with
  | None => ret tt
  | Some orig_extents =>
      _ ← poll_clusters_freed volume_handle (total_clusters volume_info)
            orig_extents;
      let tmp_file_path :=
        os_path_dirname os file_name +:+ String (os_sep os) ""
          +:+ TMP_FILE_NAME in
      orig_extents ←
        (if is_special then
           choose_if_bridged volume_handle (total_clusters volume_info)
             orig_extents bridged_extents
         else ret orig_extents);
      items ← iterate orig_extents;
      for_each items
        (fun '(lcn_start, lcn_end) =>
           _ ← wipe_extent_by_defrag (defrag_fuel lcn_start lcn_end)
                 volume_handle lcn_start lcn_end cluster_size
                 (total_clusters volume_info) tmp_file_path;
           ret tt);;
      clean_up None (Some volume_handle) (Some tmp_file_path)
  end.

(** ** FileUtilities.py: the Python file API *)

(** [open(path, mode)] for the writing modes ['w'] and ['wb']: the file
    exists afterwards. *)
Definition py_open (path : string) : M handle :=
  _ ← pycall; open_handle path true.

Definition py_write (f : handle) (nbytes : Z) : M unit :=
  _ ← pycall; emit (EvWrite f nbytes).

Definition py_flush (f : handle) : M unit :=
  _ ← pycall; emit (EvFlush f).

Definition os_fsync (f : handle) : M unit :=
  _ ← pycall; emit (EvFsync f).

Definition py_truncate (f : handle) (size : Z) : M unit :=
  _ ← pycall; emit (EvTruncate f size).

Definition py_close (f : handle) : M unit :=
  fun w => (Ret tt, set_handles (delete f (handles w)) w).

Definition os_chmod (path : string) (mode : Z) : M unit :=
  _ ← pycall; emit (EvChmod path mode).

(** [os.lstat(path).st_blocks]. *)
Definition os_lstat_st_blocks (path : string) : M Z :=
  t ← pycall; ret (os_int os t).

Definition os_path_getsize (path : string) : M Z :=
  t ← pycall; ret (os_int os t).

(** [win32file.FindFilesW]: [None] is the empty list, otherwise the two
    size fields of the first entry. *)
Definition FindFilesW (path : string) : M (option (Z * Z)) :=
  t ← syscall; ret (os_finddata os t).

(** [os.rename]: the source must exist; afterwards it is gone and the
    destination exists (the same file when both names are equal). *)
Definition move_entry (src dst : string) : M unit :=
  fun w =>
    if bool_decide (src ∈ files w)
    then (Ret tt,
          set_trace (trace w ++ [EvRename src dst])
            (set_files ({[dst]} ∪ files w ∖ {[src]}) w))
    else (Raise (OSError ENOENT), w).

Definition os_rename (src dst : string) : M unit :=
  _ ← pycall; move_entry src dst.

(** [''.join(random.choice(...) for i in range(length))]. *)
Definition __random_string (length : Z) : M string :=
  t ← tick; ret (os_random os t length).

Definition getsize (path : string) : M Z :=
  if bool_decide (os_name os = "posix") then
    r ← try_except
          (st_blocks ← os_lstat_st_blocks path; ret (Some st_blocks))
          (fun e =>
             match e with
             | OSError errno =>
                 if EACCES =? errno then ret None else raise e
             | _ => raise e
             end);
    match r with
    | None => ret 0
    | Some st_blocks => ret (st_blocks * 512)
    end
  else if bool_decide (os_name os = "nt") then
    finddata ←
      try_except (FindFilesW (extended_path path))
        (fun e =>
           match e with
           | WinError winerror =>
               if winerror =? 3 then raise (OSError ENOENT) else raise e
           | _ => raise e
           end);
    match finddata with
    | None => os_path_getsize path
    | Some (high, low) => ret (high * (4294967295 + 1) + low)
    end
  else os_path_getsize path.

Definition truncate_f (f : handle) : M unit :=
  try_except
    (py_truncate f 0;; py_flush f;; os_fsync f)
    (fun e =>
       match e with
       | OSError errno => if errno =? ENOSPC then ret tt else raise e
       | _ => raise e
       end).

(** ** FileUtilities.py: wipe_contents and wipe_name *)

(** The [while size > 0] loop of [wipe_write]. *)
Fixpoint wipe_write_loop (fuel : nat) (f : handle) (size : Z) : M unit :=
  if 0 <? size then
    match fuel with
    | O => out_of_fuel
    | S fuel' =>
        py_write f 4096;;
        wipe_write_loop fuel' f (size - 4096)
    end
  else ret tt.

Definition wipe_write (path : string) : M handle :=
  size ← getsize path;
  f ← try_except (py_open path)
        (fun e =>
           match e with
           | OSError errno =>
               if errno =? EACCES
               then os_chmod path 128;; py_open path
               else raise e
           | _ => raise e
           end);
  wipe_write_loop (S (Z.to_nat (size / 4096))) f size;;
  py_flush f;;
  os_fsync f;;
  ret f.

Definition wipe_contents (path : string) (truncate : bool) : M unit :=
  f ←
    (if bool_decide (os_name os = "nt") && IsUserAnAdmin os then
       r ← try_except (file_wipe path;; ret None)
             (fun e =>
                match e with
                | WinError winerror =>
                    if negb (bool_decide (winerror ∈ [32; 33])) then raise e
                    else
                      try_except
                        (f ← py_open path;
                         try_finally (truncate_f f) (py_close f))
                        (fun e2 =>
                           match e2 with
                           | OSError _ => ret tt
                           | _ => raise e2
                           end);;
                      raise (WindowsError winerror)
                | UnsupportedFileSystemError =>
                    emit EvWarn;;
                    f ← wipe_write path;
                    ret (Some f)
                | _ => raise e
                end);
       match r with
       | Some f => ret f
       | None => py_open path
       end
     else wipe_write path);
  (if truncate then truncate_f f else ret tt);;
  py_close f.

(** First pass of [wipe_name]: a long random name, ten characters shorter
    after every failure, giving up after the 101st. *)
Fixpoint long_rename (rounds : nat) (pathname1 head : string)
    (maxlen i : Z) : M string :=
  match rounds with
  | O => out_of_fuel
  | S rounds' =>
      renamed ←
        try_except
          (name ← __random_string maxlen;
           let pathname2 := os_path_join os head name in
           os_rename pathname1 pathname2;;
           ret (Some pathname2))
          (fun e =>
             match e with
             | OSError _ => ret None
             | _ => raise e
             end);
      match renamed with
      | Some pathname2 => ret pathname2
      | None =>
          let maxlen := if 10 <? maxlen then maxlen - 10 else maxlen in
          let i := i + 1 in
          if 100 <? i then ret pathname1
          else long_rename rounds' pathname1 head maxlen i
      end
  end.

(** Second pass: a short random name, one character longer after every
    failure; the bare [except] catches everything. *)
Fixpoint short_rename (rounds : nat) (pathname2 head : string) (i : Z)
  : M string :=
  match rounds with
  | O => out_of_fuel
  | S rounds' =>
      renamed ←
        try_except
          (name ← __random_string (i + 1);
           let pathname3 := os_path_join os head name in
           os_rename pathname2 pathname3;;
           ret (Some pathname3))
          (fun _ => ret None);
      match renamed with
      | Some pathname3 => ret pathname3
      | None =>
          let i := i + 1 in
          if 100 <? i then ret pathname2
          else short_rename rounds' pathname2 head i
      end
  end.

Definition wipe_name (pathname1 : string) : M string :=
  let '(head, _) := os_path_split os pathname1 in
  let maxlen := 226 in
  pathname2 ← long_rename 101 pathname1 head maxlen 0;
  short_rename 101 pathname2 head 0.

End Program.

(** ** FileUtilities.py: delete *)

(** [os.path.lexists]: whether the path exists, without following links. *)
Definition os_path_lexists (path : string) : M bool :=
  fun w => (Ret (bool_decide (path ∈ files w)), w).

(** [os.lstat(path)[stat.ST_MODE]]. *)
Definition os_lstat_st_mode (os : OS) (path : string) : M Z :=
  t ← pycall os; ret (os_int os t).

Definition S_ISFIFO (mode : Z) : bool := Z.land mode 61440 =? 4096.
Definition S_ISLNK (mode : Z) : bool := Z.land mode 61440 =? 40960.

(** The tests of [os.path] answer for the file system and never raise:
    the answer is true when the integer stored at the tick is not zero. *)
Definition os_path_test (os : OS) (path : string) : M bool :=
  t ← tick; ret (negb (os_int os t =? 0)).

Definition os_path_isdir : OS -> string -> M bool := os_path_test.
Definition os_path_isfile : OS -> string -> M bool := os_path_test.
Definition os_path_islink : OS -> string -> M bool := os_path_test.
Definition os_path_ismount : OS -> string -> M bool := os_path_test.

(** [os.scandir(dirname)] with the loop that returns at the first entry;
    the integer stored at the tick is the number of entries. *)
Definition is_dir_empty (os : OS) (dirname : string) : M bool :=
  t ← pycall os; ret (os_int os t <=? 0).

(** [os.remove] and [os.rmdir]: the call may fail; when it does not, the
    path must exist and is gone afterwards. *)
Definition remove_entry (path : string) : M unit :=
  fun w =>
    if bool_decide (path ∈ files w)
    then (Ret tt, set_files (files w ∖ {[path]}) w)
    else (Raise (OSError ENOENT), w).

Definition os_remove (os : OS) (path : string) : M unit :=
  _ ← pycall os; remove_entry path.

Definition os_rmdir (os : OS) (path : string) : M unit :=
  _ ← pycall os; remove_entry path.

(** The branch [elif os.path.isdir(path)] of [delete].  [os.rmdir] raises
    OSError only, so the clause [except WindowsError] that follows
    [except OSError] is never entered.  The log lines leave no trace. *)
Definition delete_directory (os : OS) (ENOTEMPTY EBUSY : Z) (path : string)
    (do_shred : bool) : M unit :=
  delpath ←
    (if do_shred then
       empty ← is_dir_empty os path;
       if negb (empty : bool) then ret None
       else
         renamed ← wipe_name os path;
         ret (Some renamed)
     else ret (Some path));
  match delpath with
  | None => ret tt
  | Some delpath =>
      try_except (os_rmdir os delpath)
        (fun e =>
           match e with
           | OSError errno =>
               if ENOTEMPTY =? errno then ret tt
               else if EBUSY =? errno then
                 if bool_decide (os_name os = "posix")
                 then _ ← os_path_ismount os path; ret tt
                 else ret tt
               else raise e
           | _ => raise e
           end)
  end.

(** The branch [elif os.path.isfile(path)].  [pywinerror] is
    [pywintypes.error]; [IOError] is [OSError], which on Windows includes
    the builtin [WindowsError]. *)
Definition delete_file (os : OS) (path : string) (do_shred : bool) : M unit :=
  if do_shred then
    try_except (wipe_contents os path true)
      (fun e =>
         match e with
         | WinError winerror =>
             if negb (2 =? winerror) then raise e else ret tt
         | OSError _ => ret tt
         | WindowsError _ => ret tt
         | _ => raise e
         end);;
    renamed ← wipe_name os path;
    os_remove os renamed
  else os_remove os path.

Module FileUtilities.

(** [options.get('shred')] and the two [errno] constants, whose values
    depend on the platform, are parameters.  The name [delete] is also
    that of the removal of a key from a finite map, so the function lives
    in a module of its own. *)
Definition delete (os : OS) (shred_option : bool) (ENOTEMPTY EBUSY : Z)
    (path : string) (shred ignore_missing allow_shred : bool) : M unit :=
  let path := extended_path os path in
  let do_shred := allow_shred && (shred || shred_option) in
  found ← os_path_lexists path;
  if negb (found : bool) then
    if ignore_missing then ret tt else raise (OSError 2)
  else
    is_special ←
      (if bool_decide ("posix" = os_name os) then
         mode ← os_lstat_st_mode os path;
         ret (S_ISFIFO mode || S_ISLNK mode)
       else ret false);
    if (is_special : bool) then os_remove os path
    else
      isdir ← os_path_isdir os path;
      if (isdir : bool) then delete_directory os ENOTEMPTY EBUSY path do_shred
      else
        isfile ← os_path_isfile os path;
        if (isfile : bool) then delete_file os path do_shred
        else
          islink ← os_path_islink os path;
          if (islink : bool) then os_remove os path
          else ret tt.

End FileUtilities.

(** ** FileUtilities.py: the whitelist *)

(** [options.get_whitelist_paths()] is a list of pairs of a kind, ['file']
    or ['folder'], and a path. *)
Fixpoint whitelisted_posix_loop (os : OS) (whitelist : list (string * string))
    (path : string) : bool :=
  match whitelist with
  | [] => false
  | pathname :: rest =>
      if bool_decide (pathname.1 = "file") && bool_decide (path = pathname.2)
      then true
      else if bool_decide (pathname.1 = "folder") then
        if bool_decide (path = pathname.2) then true
        else if startswith path (pathname.2 +:+ String (os_sep os) "")
        then true
        else whitelisted_posix_loop os rest path
      else whitelisted_posix_loop os rest path
  end.

(** [islink] and [realpath] are [os.path.islink] and [os.path.realpath].
    The call [whitelisted_posix(path, False)] runs the loop only. *)
Definition whitelisted_posix (os : OS) (islink : string -> bool)
    (realpath : string -> string) (whitelist : list (string * string))
    (path : string) (check_realpath : bool) : bool :=
  if check_realpath && islink path then
    if whitelisted_posix_loop os whitelist path then true
    else whitelisted_posix_loop os whitelist (realpath path)
  else whitelisted_posix_loop os whitelist path.

(** [lower] is [str.lower]. *)
Fixpoint whitelisted_windows (os : OS) (lower : string -> string)
    (whitelist : list (string * string)) (path : string) : bool :=
  match whitelist with
  | [] => false
  | pathname :: rest =>
      if bool_decide (pathname.1 = "file")
         && bool_decide (lower path = lower pathname.2)
      then true
      else if bool_decide (pathname.1 = "folder") then
        if bool_decide (lower path = lower pathname.2) then true
        else if startswith (lower path)
                  (lower pathname.2 +:+ String (os_sep os) "")
        then true
        else if (Z.of_nat (String.length pathname.2) =? 3)
                && startswith (lower path) (lower pathname.2)
        then true
        else whitelisted_windows os lower rest path
      else whitelisted_windows os lower rest path
  end.

(** ** Measures on traces and mappings used in the statements *)

(** Bytes written with [WriteFile] through a handle. *)
Definition written_through (h : handle) (t : list event) : Z :=
  foldr (fun ev acc =>
           match ev with
           | EvWriteFile h' n => if bool_decide (h' = h) then n + acc else acc
           | _ => acc
           end) 0 t.

(** Bytes written with [f.write] to a Python file object. *)
Definition written_to (f : handle) (t : list event) : Z :=
  foldr (fun ev acc =>
           match ev with
           | EvWrite f' n => if bool_decide (f' = f) then n + acc else acc
           | _ => acc
           end) 0 t.

(** The extents [wipe_extent_by_defrag] was entered with. *)
Definition examined (t : list event) : list extent :=
  omap (fun ev =>
          match ev with
          | EvDebugExamining s e => Some (s, e)
          | _ => None
          end) t.

(** The world right after [wipe_extent_by_defrag] has logged the extent
    and asked for the volume bitmap. *)
Definition after_bitmap_query (volume_handle : handle)
    (lcn_start lcn_end : Z) (w : World) : World :=
  mkWorld (S (clock w)) (handles w) (files w) (generators w)
    ((trace w ++ [EvDebugExamining lcn_start lcn_end])
       ++ [EvGetVolumeBitmap volume_handle]).

(** The sum of [next_vcn_i - previous VCN count] over the entries whose
    LCN is not negative; the VCN count moves on at every entry. *)
Fixpoint real_vcn_spans (vcn_count : Z) (ranges : list (Z * Z)) : Z :=
  match ranges with
  | [] => 0
  | (vcn, lcn) :: rest =>
      (if lcn <? 0 then 0 else vcn - vcn_count) + real_vcn_spans vcn rest
  end.

(** A retrieval-pointers mapping never goes back in VCN. *)
Fixpoint vcn_nondecreasing (vcn_count : Z) (ranges : list (Z * Z)) : bool :=
  match ranges with
  | [] => true
  | (vcn, _) :: rest => (vcn_count <=? vcn) && vcn_nondecreasing vcn rest
  end.

(** ** Concrete machines for the examples *)

(** The part of [s] before its last [sep] and the part after it. *)
Fixpoint str_rsplit (sep : ascii) (s : string) : option (string * string) :=
  match s with
  | EmptyString => None
  | String c s' =>
      match str_rsplit sep s' with
      | Some (head, tail) => Some (String c head, tail)
      | None =>
          if bool_decide (c = sep) then Some (EmptyString, s') else None
      end
  end.

Definition simple_split (sep : ascii) (p : string) : string * string :=
  default (EmptyString, p) (str_rsplit sep p).

Definition simple_join (sep : ascii) (a b : string) : string :=
  a +:+ String sep b.

(** [("C:", rest)] for a path that starts with a drive letter. *)
Definition simple_splitdrive (p : string) : string * string :=
  match p with
  | String c (String ":" rest) => (String c (String ":" EmptyString), rest)
  | _ => (EmptyString, p)
  end.

Definition no_error : nat -> option Z := fun _ => None.

(** A Windows machine with an NTFS volume of 4096-byte clusters, on which
    writes are never short. *)
Definition windows (errors : nat -> option Z) (ints : nat -> Z)
    (pointers : nat -> list (Z * Z)) (bitmap : nat -> list Z) : OS :=
  mkOS "nt" "\" (fun p => (simple_split "\" p).1) (simple_split "\")
    (simple_join "\") simple_splitdrive true
    errors ints (fun _ n => n)
    (fun t => (0, 8 * Z.of_nat (length (bitmap t)), bitmap t))
    (fun t => (0, pointers t))
    (fun _ => ("DATA", 255, "NTFS"))
    (fun _ => (8, 512, 0, 256))
    (fun _ => None)
    (fun _ _ => "x").

(** A POSIX machine; [names t] is the random name drawn at tick [t]. *)
Definition posix (errors : nat -> option Z) (ints : nat -> Z)
    (names : nat -> string) : OS :=
  mkOS "posix" "/" (fun p => (simple_split "/" p).1) (simple_split "/")
    (simple_join "/") (fun p => (EmptyString, p)) false
    errors ints (fun _ n => n)
    (fun _ => (0, 0, []))
    (fun _ => (0, []))
    (fun _ => (EmptyString, 0, EmptyString))
    (fun _ => (0, 0, 0, 0))
    (fun _ => None)
    (fun t _ => names t).

Definition empty_world : World := mkWorld 0 ∅ ∅ ∅ [].

(** A world in which the given file exists and nothing is open. *)
Definition world_with (path : string) : World := mkWorld 0 ∅ {[path]} ∅ [].

(** A world with one open handle on the given file. *)
Definition world_open (path : string) : World :=
  mkWorld 0 {[1%positive := path]} {[path]} ∅ [].

(** The machines of the examples below. *)

(** Nothing fails; used to run [wipe_file_direct] on an open handle. *)
Definition direct_os : OS :=
  windows no_error (fun _ => 0) (fun _ => []) (fun _ => []).

(** A regular 8192-byte file on a fixed drive that occupies clusters
    10..11 before the direct wipe and 30..31 after it; the whole volume is
    free in the bitmap. *)
Definition relocating_ints (t : nat) : Z :=
  match t with
  | 2%nat => 3
  | 5%nat => 8192
  | _ => 32
  end.

Definition relocating_pointers (t : nat) : list (Z * Z) :=
  if (t <=? 6)%nat then [(2, 10)] else [(2, 30)].

Definition relocating_os : OS :=
  windows no_error relocating_ints relocating_pointers
    (fun _ => replicate 32 0).

(** The same file, but opening it for writing (the tenth system call) is
    refused with ERROR_ACCESS_DENIED. *)
Definition denied_os : OS :=
  windows (fun t => match t with 9%nat => Some 5 | _ => None end)
    relocating_ints relocating_pointers (fun _ => replicate 32 0).

(** A POSIX machine on which [lstat] reports one 512-byte block. *)
Definition one_block_os : OS :=
  posix no_error (fun _ => 1) (fun _ => "x").

(** A POSIX machine on which every library call fails with EACCES. *)
Definition refusing_os : OS :=
  posix (fun _ => Some 13) (fun _ => 1) (fun _ => "x").

(** A volume on which every cluster is allocated. *)
Definition full_volume_os : OS :=
  windows no_error (fun _ => 0) (fun _ => []) (fun _ => replicate 32 255).

(** The handles and the files of a world, the resources [file_wipe] has to
    give back. *)
Definition resources (w : World) : gmap positive string * gset string :=
  (handles w, files w).

(** [w'] has the handles of [w] open and no file that [w] did not have,
    except possibly the temporary file. *)
Definition gives_back (tmp : string) (w w' : World) : Prop :=
  handles w' = handles w /\ files w' ⊆ files w ∪ {[tmp]}.

(** Whenever [m] returns, it has given back what it took. *)
Definition returns_giving_back {A : Type} (tmp : string) (m : M A) : Prop :=
  forall (w w' : World) (a : A), m w = (Ret a, w') -> gives_back tmp w w'.

(** [m] leaves the [proj] part of the world as it was, however it ends. *)
Definition keeps {S : Type} (proj : World -> S) {A : Type} (m : M A) : Prop :=
  forall w : World, proj (m w).2 = proj w.

(** [m] never ends by lack of recursion budget. *)
Definition total {A : Type} (m : M A) : Prop :=
  forall w : World, (m w).1 <> OutOfFuel.

(** ** Further measures used in the statements *)

Definition is_allocated (volume_bitmap : list Z) (lcn : Z) : bool :=
  match check_mapped_bit volume_bitmap lcn with
  | Ret true => true
  | _ => false
  end.

Fixpoint clusters_of (extents : list extent) : list Z :=
  match extents with
  | [] => []
  | (lcn_start, lcn_end) :: rest =>
      py_range lcn_start (lcn_end + 1) 1 ++ clusters_of rest
  end.

(** The [WriteFile] calls that zero-fill [len] bytes: whole buffers, then
    the rest. *)
Definition zero_fill_writes (h : handle) (len : Z) : list event :=
  if 0 <? len then
    replicate (Z.to_nat (len / WRITE_BUF_SIZE)) (EvWriteFile h WRITE_BUF_SIZE)
      ++ (if 0 <? len mod WRITE_BUF_SIZE
          then [EvWriteFile h (len mod WRITE_BUF_SIZE)] else [])
  else [].

(** One unsuccessful round of [poll_clusters_freed]. *)
Definition poll_round (volume_handle : handle) : list event :=
  [EvGetVolumeBitmap volume_handle; EvSleep 100].

(** The first [retries] queries from tick [t] on fail with
    ERROR_INSUFFICIENT_BUFFER (122) or ERROR_MORE_DATA (234). *)
Definition buffer_too_small (os : OS) (t retries : nat) : Prop :=
  forall i : nat,
    (i < retries)%nat ->
    os_error os (t + i) = Some 122 \/ os_error os (t + i) = Some 234.

(** The world after a successful [os.rename] that followed the draw of a
    random name. *)
Definition renamed_world (src dst : string) (w : World) : World :=
  mkWorld (S (S (clock w))) (handles w) ({[dst]} ∪ files w ∖ {[src]})
    (generators w) (trace w ++ [EvRename src dst]).

(** The first of the attempts [0 .. n-1] of a pass of [wipe_name] that is
    not refused.  Attempt [j] of a pass that starts at tick [t] draws its
    name at tick [t + 2j] and calls [os.rename] at tick [t + 2j + 1]. *)
Fixpoint first_accepted (os : OS) (t n : nat) : option nat :=
  match n with
  | O => None
  | S n' =>
      match os_error os (S t) with
      | None => Some 0%nat
      | Some _ => S <$> first_accepted os (S (S t)) n'
      end
  end.

(** The length of the name the first pass draws after [k] refusals, and
    the length the second pass draws. *)
Definition shorter (maxlen : Z) : Z :=
  if 10 <? maxlen then maxlen - 10 else maxlen.

Definition long_name_length (k : nat) : Z := Nat.iter k shorter 226.

Definition short_name_length (k : nat) : Z := Z.of_nat k + 1.

(** What a pass of [wipe_name] does to an existing path: it renames it at
    the first attempt that is not refused, and after 101 refusals it
    keeps the path and has renamed nothing. *)
Definition rename_pass (os : OS) (name_length : nat -> Z)
    (src head : string) (w : World) : string * World :=
  match first_accepted os (clock w) 101 with
  | Some k =>
      let before := set_clock (clock w + 2 * k) w in
      let dst :=
        os_path_join os head (os_random os (clock before) (name_length k)) in
      (dst, renamed_world src dst before)
  | None => (src, set_clock (clock w + 202) w)
  end.

(** An entry of the whitelist covers a path. *)
Definition covers_posix (os : OS) (pathname : string * string)
    (path : string) : Prop :=
  (pathname.1 = "file" /\ path = pathname.2)
  \/ (pathname.1 = "folder"
      /\ (path = pathname.2
          \/ exists rest : string,
               path = pathname.2 +:+ String (os_sep os) rest)).

Definition covers_windows (os : OS) (lower : string -> string)
    (pathname : string * string) (path : string) : Prop :=
  (pathname.1 = "file" /\ lower path = lower pathname.2)
  \/ (pathname.1 = "folder"
      /\ (lower path = lower pathname.2
          \/ (exists rest : string,
                lower path = lower pathname.2 +:+ String (os_sep os) rest)
          \/ (String.length pathname.2 = 3%nat
              /\ exists rest : string,
                   lower path = lower pathname.2 +:+ rest))).

(** [w'] has the trace and the handles of [w] and no file that [w] did
    not have. *)
Definition only_removes (w w' : World) : Prop :=
  trace w' = trace w /\ handles w' = handles w /\ files w' ⊆ files w.

(** However [m] ends, the world it leaves is related to the one it
    started in. *)
Definition respects (R : World -> World -> Prop) {A : Type} (m : M A)
  : Prop :=
  forall w : World, R w (m w).2.

(** ** Further machines for the examples *)

(** A Windows machine whose volume is a CD-ROM drive. *)
Definition cdrom_os : OS :=
  windows no_error (fun _ => DRIVE_CDROM) (fun _ => []) (fun _ => []).

(** A POSIX machine on which [lstat] reports one block and the random
    names are [long] at the ticks 0 and 6 and [s] at the others. *)
Definition naming_os : OS :=
  posix no_error (fun _ => 1)
    (fun t => match t with 0%nat | 6%nat => "long" | _ => "s" end).

(** A volume of eight free clusters, on which a file of two clusters
    lies on the clusters 5 and 6. *)
Definition free_volume_os : OS :=
  windows no_error (fun _ => 0) (fun _ => [(2, 5)]) (fun _ => [0]).

(** A regular 4096-byte file on the cluster 10 of a fixed drive whose
    bitmap shows every cluster free; the zero-fill file lands on the
    cluster 20.  The system calls at the ticks of [refused] are refused
    with ERROR_ACCESS_DENIED. *)
Definition stubborn_os (refused : list nat) : OS :=
  windows (fun t => if bool_decide (t ∈ refused) then Some 5 else None)
    (fun t => match t with 2%nat => 3 | 5%nat => 4096 | _ => 2048 end)
    (fun t => if (t <=? 7)%nat then [(1, 10)] else [(1, 20)])
    (fun _ => replicate 32 0).

(** A Windows machine on which every system call fails with the given
    code from the tick [from] on, and with ERROR_MORE_DATA before. *)
Definition failing_os (from : nat) (code : Z) : OS :=
  windows (fun t => if (t <? from)%nat then Some 234 else Some code)
    (fun _ => 0) (fun _ => []) (fun _ => []).

(** A Windows machine on which the first system call meets a sharing
    violation. *)
Definition locked_os : OS :=
  windows (fun t => match t with 0%nat => Some 32 | _ => None end)
    (fun _ => 0) (fun _ => []) (fun _ => []).

(** A Windows machine on which every path is a directory with an entry. *)
Definition directory_os : OS :=
  windows no_error (fun _ => 1) (fun _ => []) (fun _ => []).

(** A world with one live generator that has the given items to yield. *)
Definition world_generating (items : list extent) : World :=
  mkWorld 0 ∅ ∅ {[1%positive := items]} [].

(** * Properties *)

(** ** The monad: how a sequence of steps runs *)

Lemma bind_ret {A B : Type} (m : M A) (k : A -> M B) (w w' : World) (a : A) :
  m w = (Ret a, w') -> (m ≫= k) w = k a w'.
Proof. intros H. unfold mbind, M_bind, bind. now rewrite H. Qed.

Lemma bind_raise {A B : Type} (m : M A) (k : A -> M B) (w w' : World)
    (e : exn) :
  m w = (Raise e, w') -> (m ≫= k) w = (Raise e, w').
Proof. intros H. unfold mbind, M_bind, bind. now rewrite H. Qed.

Lemma bind_out_of_fuel {A B : Type} (m : M A) (k : A -> M B) (w w' : World) :
  m w = (OutOfFuel, w') -> (m ≫= k) w = (OutOfFuel, w').
Proof. intros H. unfold mbind, M_bind, bind. now rewrite H. Qed.

(** A sequence that returns: its first step returned, and the rest ran
    from there. *)
Lemma bind_inv_ret {A B : Type} (m : M A) (k : A -> M B) (w w' : World)
    (b : B) :
  (m ≫= k) w = (Ret b, w') ->
  exists a w1, m w = (Ret a, w1) /\ k a w1 = (Ret b, w').
Proof.
  unfold mbind, M_bind, bind. destruct (m w) as [[a|e|] w1]; intros H.
  - eauto.
  - discriminate.
  - discriminate.
Qed.

(** ** logical_ranges_to_extents *)

Lemma ranges_loop_sum (ranges : list (Z * Z)) :
  forall (vcn_count : Z) (exts : list extent),
    ranges_loop vcn_count ranges = (exts, None) ->
    sum_of_lengths exts = real_vcn_spans vcn_count ranges.
Proof.
  induction ranges as [|[vcn lcn] rest IH]; intros vcn_count exts H;
    simpl in H |- *.
  - now inversion H.
  - destruct (lcn <? 0).
    + rewrite (IH _ _ H). lia.
    + destruct (0 <=? vcn - vcn_count); [|discriminate].
      destruct (ranges_loop vcn rest) as [ys st] eqn:E.
      inversion H; subst. simpl. rewrite (IH _ _ E).
      unfold extent_length. simpl. lia.
Qed.

Lemma ranges_loop_completes (ranges : list (Z * Z)) :
  forall vcn_count : Z,
    vcn_nondecreasing vcn_count ranges = true ->
    (ranges_loop vcn_count ranges).2 = None.
Proof.
  induction ranges as [|[vcn lcn] rest IH]; intros vcn_count H;
    simpl in H |- *; [reflexivity|].
  apply andb_prop in H as [Hle Hrest]. apply Z.leb_le in Hle.
  destruct (lcn <? 0); [now apply IH|].
  destruct (0 <=? vcn - vcn_count) eqn:E; [|apply Z.leb_gt in E; lia].
  specialize (IH _ Hrest). now destruct (ranges_loop vcn rest).
Qed.

(** C5. Without bridging, on a mapping whose VCNs never go back, the
    generator runs to its end and the lengths of the extents it yields
    add up to the VCN spans of the entries with a non-negative LCN. *)
Theorem logical_ranges_to_extents_sum (ranges : list (Z * Z)) :
  vcn_nondecreasing 0 ranges = true ->
  exists exts : list extent,
    logical_ranges_to_extents ranges false = (exts, None)
    /\ sum_of_lengths exts = real_vcn_spans 0 ranges.
Proof.
  intros H. unfold logical_ranges_to_extents. simpl.
  pose proof (ranges_loop_completes ranges 0 H) as Hc.
  destruct (ranges_loop 0 ranges) as [exts st] eqn:E. simpl in Hc. subst st.
  exists exts. split; [reflexivity|]. now apply ranges_loop_sum.
Qed.

Lemma logical_ranges_to_extents_sum_witness :
  vcn_nondecreasing 0 [(10, 100); (20, -1); (25, 200)] = true
  /\ exists exts : list extent,
       logical_ranges_to_extents [(10, 100); (20, -1); (25, 200)] false
       = (exts, None)
       /\ sum_of_lengths exts = real_vcn_spans 0 [(10, 100); (20, -1); (25, 200)].
Proof.
  split; [reflexivity|].
  apply (logical_ranges_to_extents_sum [(10, 100); (20, -1); (25, 200)]).
  reflexivity.
Defined.

(** ** extents_a_minus_b *)

(** C3. The extent (10,20) has no cluster in (0,5), yet the difference is
    empty: the scan of [b] ends without a [break] and the rest of the
    extent of [a] is never yielded, so cluster 15 of [a], which is not in
    [b], is lost. *)
Theorem extents_a_minus_b_loses_clusters :
  extents_a_minus_b [(10, 20)] [(0, 5)] = []
  /\ in_extents 15 [(10, 20)]
  /\ ~ in_extents 15 [(0, 5)]
  /\ ~ in_extents 15 (extents_a_minus_b [(10, 20)] [(0, 5)]).
Proof.
  split; [reflexivity|]. split; [|split].
  - apply Exists_cons_hd. unfold in_extent. simpl. lia.
  - intros H. apply Exists_cons in H as [H|H].
    + unfold in_extent in H. simpl in H. lia.
    + now apply Exists_nil in H.
  - intros H. now apply Exists_nil in H.
Qed.

(** ** poll_clusters_freed *)

(** C10. With the empty list for [orig_extents], [poll_clusters_freed]
    returns True at once: the world is the one it started in, so no volume
    bitmap was asked for and nothing slept. *)
Theorem poll_clusters_freed_empty (os : OS) (volume_handle : handle)
    (total_clusters : Z) (w : World) :
  poll_clusters_freed os volume_handle total_clusters (ExtentList []) w
  = (Ret true, w).
Proof. reflexivity. Qed.

(** ** wipe_file_direct *)

(** C1. A file with the extents (10,11) and (20,20) on 4096-byte clusters
    holds 3 clusters, 12288 bytes; [wipe_file_direct] returns after writing
    4096 bytes: [write_length] is overwritten in every round of the loop
    over the extents and only the last extent's length is written. *)
Theorem wipe_file_direct_writes_last_extent_only :
  let run :=
    wipe_file_direct direct_os 1%positive [(10, 11); (20, 20)] 4096 12288
      (world_open "C:\a.bin") in
  run.1 = Ret tt
  /\ written_through 1%positive (trace run.2) = 4096
  /\ sum_of_lengths [(10, 11); (20, 20)] * 4096 = 12288.
Proof. vm_compute. auto. Qed.

(** ** file_wipe *)

(** C2. A regular file whose extents move from (10,11) to (30,31) under
    the direct wipe: the residue is (10,11), [file_wipe] returns, and
    [wipe_extent_by_defrag] was entered for no extent at all.  The residue
    is a generator object; [poll_clusters_freed] runs it to its end inside
    [check_extents], and the final loop finds it exhausted. *)
Theorem file_wipe_skips_residue :
  let run := file_wipe relocating_os "C:\dir\a.bin" (world_with "C:\dir\a.bin") in
  run.1 = Ret tt
  /\ extents_a_minus_b [(10, 11)] [(30, 31)] = [(10, 11)]
  /\ examined (trace run.2) = [].
Proof. vm_compute. auto. Qed.

(** C8, as stated, fails: when the second [open_file] raises, [file_wipe]
    raises with the volume handle still open. *)
Lemma file_wipe_raise_leaks_volume_handle :
  ~ (forall (os : OS) (file_name : string) (w : World),
       handles (file_wipe os file_name w).2 = handles w).
Proof.
  intros H.
  specialize (H denied_os "C:\dir\a.bin"%string (world_with "C:\dir\a.bin")).
  apply (f_equal (fun m => m !! 1%positive)) in H.
  vm_compute in H. discriminate.
Qed.

(** ** wipe_contents *)

(** C4, as stated, fails: for a file of 512 bytes one block of 4096 bytes
    is written. *)
Lemma wipe_write_not_exact :
  ~ (forall (os : OS) (path : string) (w w1 w' : World) (size : Z)
            (f : handle),
       getsize os path w = (Ret size, w1) ->
       wipe_write os path w = (Ret f, w') ->
       written_to f (trace w') = written_to f (trace w) + size).
Proof.
  intros H.
  specialize (H one_block_os "/tmp/a"%string (world_with "/tmp/a")
                (getsize one_block_os "/tmp/a" (world_with "/tmp/a")).2
                (wipe_write one_block_os "/tmp/a" (world_with "/tmp/a")).2
                512 1%positive).
  assert (written_to 1%positive
            (trace (wipe_write one_block_os "/tmp/a" (world_with "/tmp/a")).2)
          = 4096) as E by (vm_compute; reflexivity).
  rewrite E in H.
  assert (4096 = 0 + 512) as F; [|discriminate F].
  apply H; vm_compute; reflexivity.
Qed.

(** ** wipe_name *)

(** C9, as stated, fails: when every rename is refused, [wipe_name] gives
    back the original path, which still exists. *)
Lemma wipe_name_keeps_path_when_refused :
  ~ (forall (os : OS) (p p' : string) (w w' : World),
       p ∈ files w ->
       wipe_name os p w = (Ret p', w') ->
       (p ∉ files w') /\ (p' ∈ files w') /\ p' <> p).
Proof.
  intros H.
  assert ("/tmp/a"%string ∈ files (world_with "/tmp/a")) as Hin
    by (simpl; set_solver).
  specialize (H refusing_os "/tmp/a"%string "/tmp/a"%string
                (world_with "/tmp/a")
                (wipe_name refusing_os "/tmp/a" (world_with "/tmp/a")).2 Hin).
  destruct H as (_ & _ & Hne).
  - vm_compute. reflexivity.
  - now apply Hne.
Qed.

(** ** Parts of the world a computation leaves alone *)

Section Keeps.

Context {S : Type} (proj : World -> S).

Lemma keeps_ret {A : Type} (a : A) : keeps proj (ret a).
Proof. intros w. reflexivity. Qed.

Lemma keeps_mret {A : Type} (a : A) : keeps proj (mret a).
Proof. intros w. reflexivity. Qed.

Lemma keeps_raise {A : Type} (e : exn) : keeps proj (@raise A e).
Proof. intros w. reflexivity. Qed.

Lemma keeps_out_of_fuel {A : Type} : keeps proj (@out_of_fuel A).
Proof. intros w. reflexivity. Qed.

Lemma keeps_lift {A : Type} (o : outcome A) : keeps proj (lift o).
Proof. intros w. reflexivity. Qed.

Lemma keeps_lift_fuel {A : Type} (o : option A) : keeps proj (lift_fuel o).
Proof. intros w. reflexivity. Qed.

Lemma keeps_assert (b : bool) : keeps proj (assert_ b).
Proof. intros w. now destruct b. Qed.

Lemma keeps_bind {A B : Type} (m : M A) (k : A -> M B) :
  keeps proj m -> (forall a, keeps proj (k a)) -> keeps proj (m ≫= k).
Proof.
  intros Hm Hk w. unfold mbind, M_bind, bind.
  specialize (Hm w). destruct (m w) as [[a|e|] w1]; simpl in *.
  - now rewrite Hk.
  - exact Hm.
  - exact Hm.
Qed.

Lemma keeps_try_except {A : Type} (body : M A) (handler : exn -> M A) :
  keeps proj body -> (forall e, keeps proj (handler e)) ->
  keeps proj (try_except body handler).
Proof.
  intros Hb Hh w. unfold try_except.
  specialize (Hb w). destruct (body w) as [[a|e|] w1]; simpl in *.
  - exact Hb.
  - now rewrite Hh.
  - exact Hb.
Qed.

Lemma keeps_try_finally {A : Type} (body : M A) (final : M unit) :
  keeps proj body -> keeps proj final -> keeps proj (try_finally body final).
Proof.
  intros Hb Hf w. unfold try_finally.
  specialize (Hb w). destruct (body w) as [[a|e|] w1]; simpl in *.
  - specialize (Hf w1). destruct (final w1) as [[[]|e|] w2]; simpl in *;
      congruence.
  - specialize (Hf w1). destruct (final w1) as [[[]|e'|] w2]; simpl in *;
      congruence.
  - exact Hb.
Qed.

Lemma keeps_for_each {A : Type} (l : list A) (body : A -> M unit) :
  (forall x, keeps proj (body x)) -> keeps proj (for_each l body).
Proof.
  intros Hb. induction l as [|x l IH]; simpl.
  - apply keeps_ret.
  - apply keeps_bind; [apply Hb|intros _; exact IH].
Qed.

End Keeps.

(** Break a goal [keeps proj m] along the structure of [m]; [leaf] closes
    the steps known to keep [proj], what is left are the others. *)
Ltac keeps_structure leaf :=
  repeat first
    [ leaf
    | apply keeps_ret | apply keeps_mret | apply keeps_raise
    | apply keeps_out_of_fuel | apply keeps_lift | apply keeps_lift_fuel
    | apply keeps_assert
    | apply keeps_bind; [|intros ?]
    | apply keeps_try_except; [|intros ?]
    | apply keeps_try_finally
    | apply keeps_for_each; intros ?
    | progress cbv beta
    | match goal with
      | |- keeps _ (if ?b then _ else _) => destruct b
      | |- keeps _ (match ?x with _ => _ end) => destruct x
      end ].

(** The clock ticking and handles opening leave the trace alone. *)
Lemma tick_keeps_trace : keeps trace tick.
Proof. intros w. reflexivity. Qed.

Lemma open_handle_keeps_trace (path : string) (creates : bool) :
  keeps trace (open_handle path creates).
Proof. intros w. reflexivity. Qed.

Ltac trace_leaf :=
  first [apply tick_keeps_trace | apply open_handle_keeps_trace].

Lemma pycall_keeps_trace (os : OS) : keeps trace (pycall os).
Proof. keeps_structure trace_leaf. Qed.

Lemma py_open_keeps_trace (os : OS) (path : string) :
  keeps trace (py_open os path).
Proof. keeps_structure trace_leaf. Qed.

Lemma getsize_keeps_trace (os : OS) (path : string) :
  keeps trace (getsize os path).
Proof. unfold getsize. keeps_structure trace_leaf. Qed.

Lemma try_except_inv_ret {A : Type} (body : M A) (handler : exn -> M A)
    (w w' : World) (a : A) :
  try_except body handler w = (Ret a, w') ->
  body w = (Ret a, w')
  \/ exists e w1, body w = (Raise e, w1) /\ handler e w1 = (Ret a, w').
Proof.
  unfold try_except. destruct (body w) as [[a0|e|] w1]; intros H.
  - now left.
  - right. eauto.
  - discriminate.
Qed.

Ltac inv_bind H :=
  let a := fresh "a" in
  let w1 := fresh "w" in
  let H1 := fresh H in
  apply bind_inv_ret in H as (a & w1 & H1 & H).

(** A library call that only leaves an entry in the trace. *)
Lemma pycall_emit_inv (os : OS) (ev : event) (w w' : World) (u : unit) :
  (pycall os ≫= fun _ => emit ev) w = (Ret u, w') ->
  trace w' = trace w ++ [ev].
Proof.
  intros H. inv_bind H.
  pose proof (pycall_keeps_trace os w) as K. rewrite H0 in K. simpl in K.
  unfold emit in H. inversion H; subst. simpl. now rewrite K.
Qed.

(** ** wipe_contents: the fall-back overwrite *)

Lemma wipe_write_loop_trace (os : OS) (f : handle) (fuel : nat) :
  forall (size : Z) (w w' : World),
    wipe_write_loop os fuel f size w = (Ret tt, w') ->
    trace w' = trace w
               ++ replicate (Z.to_nat ((size + 4095) / 4096)) (EvWrite f 4096).
Proof.
  induction fuel as [|fuel IH]; intros size w w' H; simpl in H;
    destruct (0 <? size) eqn:E.
  - discriminate.
  - apply Z.ltb_ge in E. inversion H; subst.
    replace (Z.to_nat ((size + 4095) / 4096)) with 0%nat
      by (Z.div_mod_to_equations; lia).
    simpl. now rewrite app_nil_r.
  - apply Z.ltb_lt in E. inv_bind H.
    apply pycall_emit_inv in H0. apply IH in H. rewrite H, H0.
    replace (Z.to_nat ((size + 4095) / 4096))
      with (S (Z.to_nat ((size - 4096 + 4095) / 4096)))
      by (Z.div_mod_to_equations; lia).
    simpl. now rewrite <- app_assoc.
  - apply Z.ltb_ge in E. inversion H; subst.
    replace (Z.to_nat ((size + 4095) / 4096)) with 0%nat
      by (Z.div_mod_to_equations; lia).
    simpl. now rewrite app_nil_r.
Qed.

(** The budget [wipe_write] passes to its loop is never used up. *)
Lemma wipe_write_loop_fuel (os : OS) (f : handle) (fuel : nat) :
  forall (size : Z) (w : World),
    size <= 0 \/ (Z.to_nat (size / 4096) < fuel)%nat ->
    (wipe_write_loop os fuel f size w).1 <> OutOfFuel.
Proof.
  induction fuel as [|fuel IH]; intros size w Hf; simpl;
    destruct (0 <? size) eqn:E; try discriminate.
  - apply Z.ltb_lt in E. lia.
  - apply Z.ltb_lt in E. unfold mbind, M_bind, bind.
    destruct (py_write os f 4096 w) as [[[]|e|] w1] eqn:Hw.
    + apply IH. destruct (Z.le_gt_cases size 4096); [left; lia|right].
      destruct Hf as [Hf|Hf]; [lia|].
      assert (Z.to_nat (size / 4096) = S (Z.to_nat ((size - 4096) / 4096)))
        by (Z.div_mod_to_equations; lia).
      lia.
    + discriminate.
    + exfalso. unfold py_write, pycall, mbind, M_bind, bind, tick, emit in Hw.
      simpl in Hw. destruct (os_error os (clock w)); discriminate.
Qed.

(** C4, amended.  When [wipe_write] returns the file object, it has
    written whole blocks of 4096 zero bytes, as many as it takes to reach
    [getsize(path)] (that size rounded up to a multiple of 4096, not the
    size itself), and then flushed and fsynced; before the writes there is
    at most the [chmod] that grants owner write. *)
Theorem wipe_write_whole_blocks (os : OS) (path : string) (w w1 w' : World)
    (size : Z) (f : handle) :
  getsize os path w = (Ret size, w1) ->
  wipe_write os path w = (Ret f, w') ->
  exists before : list event,
    (before = [] \/ before = [EvChmod path 128])
    /\ trace w' = trace w ++ before
                  ++ replicate (Z.to_nat ((size + 4095) / 4096)) (EvWrite f 4096)
                  ++ [EvFlush f; EvFsync f].
Proof.
  intros Hsize H. unfold wipe_write in H.
  inv_bind H. rewrite Hsize in H0. inversion H0; subst a w0. clear H0.
  pose proof (getsize_keeps_trace os path w) as Kg.
  rewrite Hsize in Kg. simpl in Kg.
  inv_bind H. rename a into f0.
  assert (exists before, (before = [] \/ before = [EvChmod path 128])
                         /\ trace w0 = trace w1 ++ before) as (before & Hb & Ht).
  { apply try_except_inv_ret in H0 as [Ho|(e & w2 & Ho & Hh)].
    - exists []. split; [now left|].
      pose proof (py_open_keeps_trace os path w1) as K. rewrite Ho in K.
      simpl in K. now rewrite app_nil_r.
    - pose proof (py_open_keeps_trace os path w1) as K. rewrite Ho in K.
      simpl in K. destruct e; try discriminate.
      destruct (errno =? EACCES); [|discriminate].
      inv_bind Hh. apply pycall_emit_inv in Hh0.
      pose proof (py_open_keeps_trace os path w3) as K3. rewrite Hh in K3.
      simpl in K3. exists [EvChmod path 128]. split; [now right|].
      now rewrite K3, Hh0, K. }
  inv_bind H. destruct a. apply wipe_write_loop_trace in H1.
  inv_bind H. apply pycall_emit_inv in H2.
  inv_bind H. apply pycall_emit_inv in H3.
  inversion H; subst. exists before. split; [exact Hb|].
  rewrite H3, H2, H1, Ht, Kg. now rewrite <- !app_assoc.
Qed.

Lemma wipe_write_whole_blocks_witness :
  getsize one_block_os "/tmp/a" (world_with "/tmp/a")
  = (Ret 512, (getsize one_block_os "/tmp/a" (world_with "/tmp/a")).2)
  /\ wipe_write one_block_os "/tmp/a" (world_with "/tmp/a")
     = (Ret 1%positive,
        (wipe_write one_block_os "/tmp/a" (world_with "/tmp/a")).2)
  /\ exists before : list event,
       (before = [] \/ before = [EvChmod "/tmp/a" 128])
       /\ trace (wipe_write one_block_os "/tmp/a" (world_with "/tmp/a")).2
          = trace (world_with "/tmp/a") ++ before
            ++ replicate (Z.to_nat ((512 + 4095) / 4096)) (EvWrite 1%positive 4096)
            ++ [EvFlush 1%positive; EvFsync 1%positive].
Proof.
  split; [vm_compute; reflexivity|]. split; [vm_compute; reflexivity|].
  apply (wipe_write_whole_blocks one_block_os "/tmp/a" (world_with "/tmp/a")
           (getsize one_block_os "/tmp/a" (world_with "/tmp/a")).2);
    vm_compute; reflexivity.
Defined.

(** ** wipe_name *)

(** One rename attempt, as both passes make it: the source is renamed to
    the new name, or the attempt raises OSError and no file has moved. *)
Lemma rename_attempt_runs (os : OS) (src head : string) (len : Z)
    (w : World) :
  src ∈ files w ->
  (name ← __random_string os len;
   let dst := os_path_join os head name in
   os_rename os src dst;; ret (Some dst)) w
  = match os_error os (S (clock w)) with
    | None =>
        (Ret (Some (os_path_join os head (os_random os (clock w) len))),
         renamed_world src
           (os_path_join os head (os_random os (clock w) len)) w)
    | Some errno => (Raise (OSError errno), set_clock (S (S (clock w))) w)
    end.
Proof.
  intros Hin.
  unfold __random_string, os_rename, pycall, move_entry, tick,
    mbind, M_bind, bind, ret, raise. simpl.
  destruct (os_error os (S (clock w))); [reflexivity|]. simpl.
  now rewrite bool_decide_eq_true_2 by exact Hin.
Qed.

Lemma set_clock_eq (n m : nat) (w v : World) :
  n = m -> handles w = handles v -> files w = files v ->
  generators w = generators v -> trace w = trace v ->
  set_clock n w = set_clock m v.
Proof. intros -> H1 H2 H3 H4. unfold set_clock. congruence. Qed.

Lemma long_rename_pass (os : OS) (head : string) (n : nat) :
  forall (rounds : nat) (src : string) (maxlen i : Z) (w : World),
    src ∈ files w ->
    (1 <= n <= rounds)%nat ->
    i = 101 - Z.of_nat n ->
    long_rename os rounds src head maxlen i w
    = match first_accepted os (clock w) n with
      | Some k =>
          let before := set_clock (clock w + 2 * k) w in
          let dst :=
            os_path_join os head
              (os_random os (clock before) (Nat.iter k shorter maxlen)) in
          (Ret dst, renamed_world src dst before)
      | None => (Ret src, set_clock (clock w + 2 * n) w)
      end.
Proof.
  induction n as [|n IH]; intros rounds src maxlen i w Hin Hn Hi; [lia|].
  destruct rounds as [|rounds]; [lia|].
  simpl long_rename. unfold mbind at 1. unfold M_bind at 1.
  unfold bind at 1. unfold try_except.
  pose proof (rename_attempt_runs os src head maxlen w Hin) as E.
  cbv zeta in E. rewrite E. clear E. simpl first_accepted.
  destruct (os_error os (S (clock w))) as [errno|].
  - cbn beta iota. unfold ret at 1.
    destruct n as [|n].
    + rewrite (proj2 (Z.ltb_lt 100 (i + 1))) by lia. simpl.
      unfold ret. f_equal. apply set_clock_eq; auto. lia.
    + rewrite (proj2 (Z.ltb_ge 100 (i + 1))) by lia.
      fold (shorter maxlen).
      rewrite (IH rounds src (shorter maxlen) (i + 1)
                 (set_clock (S (S (clock w))) w)) by (simpl; auto; lia).
      change (clock (set_clock (S (S (clock w))) w)) with (S (S (clock w))).
      destruct (first_accepted os (S (S (clock w))) (S n)) as [k|].
      * change (S <$> Some k) with (Some (S k)). cbv zeta.
        cbn [clock set_clock]. rewrite <- Nat.iter_succ_r.
        replace (S (S (clock w)) + 2 * k)%nat with (clock w + 2 * S k)%nat
          by lia.
        reflexivity.
      * change (S <$> None) with (@None nat). cbv iota. f_equal.
        apply set_clock_eq; auto. simpl. lia.
  - cbv zeta. cbn [clock set_clock].
    change (Nat.iter 0 shorter maxlen) with maxlen.
    replace (clock w + 2 * 0)%nat with (clock w) by lia.
    reflexivity.
Qed.

Lemma short_rename_pass (os : OS) (head : string) (n : nat) :
  forall (rounds : nat) (src : string) (i : Z) (w : World),
    src ∈ files w ->
    (1 <= n <= rounds)%nat ->
    i = 101 - Z.of_nat n ->
    short_rename os rounds src head i w
    = match first_accepted os (clock w) n with
      | Some k =>
          let before := set_clock (clock w + 2 * k) w in
          let dst :=
            os_path_join os head
              (os_random os (clock before) (i + Z.of_nat k + 1)) in
          (Ret dst, renamed_world src dst before)
      | None => (Ret src, set_clock (clock w + 2 * n) w)
      end.
Proof.
  induction n as [|n IH]; intros rounds src i w Hin Hn Hi; [lia|].
  destruct rounds as [|rounds]; [lia|].
  simpl short_rename. unfold mbind at 1. unfold M_bind at 1.
  unfold bind at 1. unfold try_except.
  pose proof (rename_attempt_runs os src head (i + 1) w Hin) as E.
  cbv zeta in E. rewrite E. clear E. simpl first_accepted.
  destruct (os_error os (S (clock w))) as [errno|].
  - cbn beta iota. unfold ret at 1.
    destruct n as [|n].
    + rewrite (proj2 (Z.ltb_lt 100 (i + 1))) by lia. simpl.
      unfold ret. f_equal. apply set_clock_eq; auto. lia.
    + rewrite (proj2 (Z.ltb_ge 100 (i + 1))) by lia.
      rewrite (IH rounds src (i + 1)
                 (set_clock (S (S (clock w))) w)) by (simpl; auto; lia).
      change (clock (set_clock (S (S (clock w))) w)) with (S (S (clock w))).
      destruct (first_accepted os (S (S (clock w))) (S n)) as [k|].
      * change (S <$> Some k) with (Some (S k)). cbv zeta.
        cbn [clock set_clock].
        replace (S (S (clock w)) + 2 * k)%nat with (clock w + 2 * S k)%nat
          by lia.
        replace (i + 1 + Z.of_nat k + 1) with (i + Z.of_nat (S k) + 1)
          by lia.
        reflexivity.
      * change (S <$> None) with (@None nat). cbv iota. f_equal.
        apply set_clock_eq; auto. simpl. lia.
  - cbv zeta. cbn [clock set_clock].
    replace (i + Z.of_nat 0 + 1) with (i + 1) by lia.
    replace (clock w + 2 * 0)%nat with (clock w) by lia.
    reflexivity.
Qed.

Lemma first_accepted_refused (os : OS) (n : nat) :
  (forall t, os_error os t <> None) ->
  forall t, first_accepted os t n = None.
Proof.
  intros Hall. induction n as [|n IH]; intros t; [reflexivity|].
  simpl. destruct (os_error os (S t)) eqn:E; [|now apply Hall in E].
  now rewrite IH.
Qed.

(** A pass leaves its result in place of the source, and nothing else
    changes among the files. *)
Lemma rename_pass_files (os : OS) (name_length : nat -> Z)
    (src head : string) (w : World) :
  src ∈ files w ->
  (rename_pass os name_length src head w).1
    ∈ files (rename_pass os name_length src head w).2
  /\ files (rename_pass os name_length src head w).2
     ⊆ {[(rename_pass os name_length src head w).1]} ∪ files w
  /\ ((rename_pass os name_length src head w).1 <> src ->
      src ∉ files (rename_pass os name_length src head w).2).
Proof.
  intros Hin. unfold rename_pass.
  destruct (first_accepted os (clock w) 101) as [k|]; simpl.
  - set_solver.
  - set_solver.
Qed.

Lemma rename_pass_gives_up (os : OS) (name_length : nat -> Z)
    (src head : string) (w : World) :
  first_accepted os (clock w) 101 = None ->
  rename_pass os name_length src head w
  = (src, set_clock (clock w + 202) w).
Proof. intros H. unfold rename_pass. now rewrite H. Qed.

Lemma long_rename_is_pass (os : OS) (src head : string) (w : World) :
  src ∈ files w ->
  long_rename os 101 src head 226 0 w
  = (Ret (rename_pass os long_name_length src head w).1,
     (rename_pass os long_name_length src head w).2).
Proof.
  intros Hin. rewrite (long_rename_pass os head 101 101 src 226 0 w Hin)
    by lia.
  unfold rename_pass, long_name_length.
  destruct (first_accepted os (clock w) 101); reflexivity.
Qed.

Lemma short_rename_is_pass (os : OS) (src head : string) (w : World) :
  src ∈ files w ->
  short_rename os 101 src head 0 w
  = (Ret (rename_pass os short_name_length src head w).1,
     (rename_pass os short_name_length src head w).2).
Proof.
  intros Hin. rewrite (short_rename_pass os head 101 101 src 0 w Hin)
    by lia.
  unfold rename_pass, short_name_length.
  destruct (first_accepted os (clock w) 101); reflexivity.
Qed.

(** C9, amended.  For an existing path [p], [wipe_name p] returns, and
    what it returns is the outcome of two passes, each of which renames at
    its first attempt that is not refused.  The path [p'] it returns
    exists; whenever [p'] differs from [p], [p] no longer exists; and when
    the 101 attempts of both passes are all refused, [p'] is [p] and no
    file has been renamed. *)
Theorem wipe_name_result (os : OS) (p : string) (w : World) :
  p ∈ files w ->
  let head := (os_path_split os p).1 in
  let first := rename_pass os long_name_length p head w in
  let second := rename_pass os short_name_length first.1 head first.2 in
  wipe_name os p w = (Ret second.1, second.2)
  /\ second.1 ∈ files second.2
  /\ (second.1 <> p -> p ∉ files second.2)
  /\ (first_accepted os (clock w) 101 = None ->
      first_accepted os (clock w + 202) 101 = None ->
      second.1 = p /\ files second.2 = files w
      /\ trace second.2 = trace w).
Proof.
  intros Hin head first second.
  destruct (rename_pass_files os long_name_length p head w Hin)
    as (Q1 & Q2 & Q3).
  fold first in Q1, Q2, Q3.
  destruct (rename_pass_files os short_name_length first.1 head first.2 Q1)
    as (R1 & R2 & R3).
  fold second in R1, R2, R3.
  split; [|split; [exact R1|split]].
  - unfold wipe_name. subst second first head.
    destruct (os_path_split os p) as [hd tl]. cbn [fst] in *.
    unfold mbind, M_bind, bind.
    rewrite (long_rename_is_pass os p hd w Hin).
    exact (short_rename_is_pass os _ hd _ Q1).
  - intros Hne. destruct (decide (first.1 = p)) as [E|Hq].
    + rewrite E in R3. now apply R3.
    + specialize (Q3 Hq). clear - Q3 R2 Hne. set_solver.
  - intros H1 H2. subst second first.
    rewrite (rename_pass_gives_up os long_name_length p head w H1).
    cbn [fst snd].
    rewrite (rename_pass_gives_up os short_name_length p head
               (set_clock (clock w + 202) w) H2).
    auto.
Qed.

Lemma wipe_name_result_witness :
  "/tmp/a"%string ∈ files (world_with "/tmp/a")
  /\ let head := (os_path_split naming_os "/tmp/a").1 in
     let first :=
       rename_pass naming_os long_name_length "/tmp/a" head
         (world_with "/tmp/a") in
     let second :=
       rename_pass naming_os short_name_length first.1 head first.2 in
     wipe_name naming_os "/tmp/a" (world_with "/tmp/a")
     = (Ret second.1, second.2)
     /\ second.1 ∈ files second.2
     /\ (second.1 <> "/tmp/a"%string -> "/tmp/a"%string ∉ files second.2)
     /\ (first_accepted naming_os (clock (world_with "/tmp/a")) 101 = None ->
         first_accepted naming_os (clock (world_with "/tmp/a") + 202) 101
         = None ->
         second.1 = "/tmp/a"%string
         /\ files second.2 = files (world_with "/tmp/a")
         /\ trace second.2 = trace (world_with "/tmp/a")).
Proof.
  assert ("/tmp/a"%string ∈ files (world_with "/tmp/a")) as Hin
    by (simpl; set_solver).
  split; [exact Hin|].
  exact (wipe_name_result naming_os "/tmp/a" (world_with "/tmp/a") Hin).
Defined.

(** With every rename refused, both passes give up and [wipe_name] gives
    back its argument with no file renamed. *)
Lemma wipe_name_refused :
  wipe_name refusing_os "/tmp/a" (world_with "/tmp/a")
  = (Ret "/tmp/a"%string, set_clock 404 (world_with "/tmp/a"))
  /\ first_accepted refusing_os 0 101 = None
  /\ first_accepted refusing_os 202 101 = None.
Proof. vm_compute. auto. Qed.

(** ** split_extent *)

(** Leaving the loop at [exponent] means [count <= 10^(exponent + 1.3)],
    which is below [20 * 10^exponent]. *)
Lemma above_threshold_false (count k : Z) :
  0 <= k -> above_threshold count k = false -> count < 20 * 10 ^ k.
Proof.
  intros Hk H. unfold above_threshold, split_factor in H.
  assert (0 < 10 ^ k) as Hp by (apply Z.pow_pos_nonneg; lia).
  destruct (0 <? count) eqn:Hc; simpl in H.
  - apply Z.ltb_lt in Hc. apply Z.ltb_ge in H.
    destruct (Z.lt_ge_cases count (20 * 10 ^ k)) as [|Hge]; [assumption|].
    exfalso.
    assert ((20 * 10 ^ k) ^ 10 <= count ^ 10) as Hm
      by (apply Z.pow_le_mono_l; lia).
    rewrite Z.pow_mul_l, <- Z.pow_mul_r in Hm by lia.
    rewrite Z.pow_add_r, (Z.mul_comm 10 k) in H by lia.
    assert (0 < 10 ^ (k * 10)) by (apply Z.pow_pos_nonneg; lia).
    change (20 ^ 10) with 10240000000000 in Hm.
    change (10 ^ 13) with 10000000000000 in H. nia.
  - apply Z.ltb_ge in Hc. lia.
Qed.

(** Staying in the loop at [exponent] means [count > 10^(exponent + 1.3)],
    which is above [10^(exponent + 1)]. *)
Lemma above_threshold_true (count k : Z) :
  0 <= k -> above_threshold count k = true -> 10 ^ (k + 1) < count.
Proof.
  intros Hk H. unfold above_threshold, split_factor in H.
  apply andb_prop in H as [Hc H]. apply Z.ltb_lt in Hc, H.
  destruct (Z.lt_ge_cases (10 ^ (k + 1)) count) as [|Hle]; [assumption|].
  exfalso.
  assert (count ^ 10 <= (10 ^ (k + 1)) ^ 10) as Hm
    by (apply Z.pow_le_mono_l; lia).
  rewrite <- Z.pow_mul_r in Hm by lia.
  assert (10 ^ ((k + 1) * 10) <= 10 ^ (10 * k + 13))
    by (apply Z.pow_le_mono_r; lia).
  lia.
Qed.

Lemma exponent_loop_spec (count : Z) (fuel : nat) :
  forall k : Z,
    0 <= k -> (0 < fuel)%nat -> count < 10 ^ (k + Z.of_nat fuel) ->
    exists k' : Z,
      exponent_loop fuel count k = Some k'
      /\ k <= k'
      /\ above_threshold count k' = false
      /\ (k' = k \/ (k < k' /\ above_threshold count (k' - 1) = true)).
Proof.
  induction fuel as [|fuel IH]; intros k Hk Hf Hc; [lia|]. simpl.
  destruct (above_threshold count k) eqn:E.
  - pose proof (above_threshold_true count k Hk E) as Hlow.
    destruct fuel as [|fuel'].
    { exfalso. replace (k + Z.of_nat 1) with (k + 1) in Hc by lia. lia. }
    destruct (IH (k + 1)) as (k' & E' & Hle & Hstop & Hprev); [lia|lia| |].
    { replace (k + 1 + Z.of_nat (S fuel')) with (k + Z.of_nat (S (S fuel')))
        by lia. exact Hc. }
    exists k'. split; [exact E'|]. split; [lia|]. split; [exact Hstop|].
    right. split; [lia|]. destruct Hprev as [->|[_ Hprev]]; [|exact Hprev].
    now replace (k + 1 - 1) with k by lia.
  - exists k. split; [reflexivity|]. split; [lia|]. split; [exact E|]. now left.
Qed.

(** The loop of [split_extent] ends within its budget, at an exponent
    whose power of ten is at least a twentieth of the count, and below the
    count as soon as the exponent is not 0. *)
Lemma split_extent_exponent (lcn_start lcn_end : Z) :
  exists k : Z,
    0 <= k
    /\ split_extent lcn_start lcn_end
       = Some (split_chunks lcn_start lcn_end (10 ^ k))
    /\ lcn_end - lcn_start + 1 < 20 * 10 ^ k
    /\ (k = 0 \/ 10 ^ k < lcn_end - lcn_start + 1).
Proof.
  set (count := lcn_end - lcn_start + 1).
  destruct (exponent_loop_spec count (S (Z.to_nat (Z.log2 count))) 0)
    as (k & E & Hk & Hstop & Hprev); [lia|lia| |].
  { destruct (Z.le_gt_cases count 0) as [Hc|Hc].
    - assert (0 < 10 ^ (0 + Z.of_nat (S (Z.to_nat (Z.log2 count)))))
        by (apply Z.pow_pos_nonneg; lia).
      lia.
    - pose proof (Z.log2_spec count Hc) as [_ Hup].
      pose proof (Z.log2_nonneg count) as Hl.
      replace (0 + Z.of_nat (S (Z.to_nat (Z.log2 count))))
        with (Z.succ (Z.log2 count)) by lia.
      assert (2 ^ Z.succ (Z.log2 count) <= 10 ^ Z.succ (Z.log2 count))
        by (apply Z.pow_le_mono_l; lia).
      lia. }
  exists k. split; [exact Hk|]. split; [|split].
  - unfold split_extent. fold count. rewrite E. reflexivity.
  - now apply above_threshold_false.
  - destruct Hprev as [->|[Hpos Hprev]]; [now left|right].
    apply above_threshold_true in Hprev; [|lia].
    now replace (k - 1 + 1) with k in Hprev by lia.
Qed.

(** The [i]-th chunk starts [i] sizes after [lcn_start] and is cut at
    [lcn_end]. *)
Lemma split_chunks_lookup (s e size : Z) (i : nat) (x : extent) :
  split_chunks s e size !! i = Some x <->
  Z.of_nat i < (e + 1 - s + size - 1) / size
  /\ x = (s + Z.of_nat i * size, Z.min (s + Z.of_nat i * size + size - 1) e).
Proof.
  unfold split_chunks, py_range. rewrite !list_lookup_fmap.
  destruct (seq 0 (Z.to_nat ((e + 1 - s + size - 1) / size)) !! i)
    as [j|] eqn:E; simpl.
  - apply lookup_seq in E as [-> Hlt]. simpl. split.
    + intros H. inversion H; subst. split; [lia|reflexivity].
    + intros [_ ->]. reflexivity.
  - split; [discriminate|]. intros [Hlt _].
    assert (i < Z.to_nat ((e + 1 - s + size - 1) / size))%nat as Hi by lia.
    apply (lookup_seq_lt 0) in Hi. congruence.
Qed.

Lemma split_chunks_length (s e size : Z) :
  length (split_chunks s e size)
  = Z.to_nat ((e + 1 - s + size - 1) / size).
Proof.
  unfold split_chunks, py_range. now rewrite !length_fmap, length_seq.
Qed.

(** Every chunk lies inside the extent and is not longer than the size. *)
Lemma split_chunks_inside (s e size : Z) (i : nat) (a b : Z) :
  0 < size ->
  split_chunks s e size !! i = Some (a, b) ->
  s <= a /\ a <= b /\ b <= e /\ b - a + 1 <= size
  /\ a = s + Z.of_nat i * size
  /\ (b = a + size - 1 \/ b = e).
Proof.
  intros Hsize H. apply split_chunks_lookup in H as [Hlt Hx].
  inversion Hx; subst a b. clear Hx.
  set (q := (e + 1 - s + size - 1) / size) in *.
  assert (size * (q - 1) <= e - s) as Hq
    by (subst q; Z.div_mod_to_equations; nia).
  assert (Z.of_nat i * size <= (q - 1) * size) as Hi by nia.
  lia.
Qed.

(** C6, as stated, fails: the last chunk of 0..24 has length 5. *)
Lemma split_extent_last_chunk_is_shorter :
  ~ (forall (s e : Z) (parts : list extent) (x : extent),
       s <= e ->
       split_extent s e = Some parts ->
       x ∈ parts ->
       exists k : Z, 0 <= k /\ extent_length x = 10 ^ k).
Proof.
  intros H.
  destruct (H 0 24 [(0, 9); (10, 19); (20, 24)] (20, 24)) as (k & Hk & E).
  - lia.
  - vm_compute. reflexivity.
  - set_solver.
  - unfold extent_length in E. simpl in E.
    destruct (Z.eq_dec k 0) as [->|Hne]; [discriminate|].
    assert (10 ^ 1 <= 10 ^ k) by (apply Z.pow_le_mono_r; lia).
    change (10 ^ 1) with 10 in *. lia.
Qed.

(** C6, amended.  For [s <= e], [split_extent s e] yields sub-extents that
    cover exactly the clusters [s..e] and do not overlap; there is an
    exponent [k] such that every sub-extent but the last has length
    [10^k] and the last has a length between 1 and [10^k]; and there are
    at most [⌈(e - s + 1) / 10⌉ + 17] of them (never more than 20). *)
Theorem split_extent_covers (s e : Z) :
  s <= e ->
  exists (parts : list extent) (k : Z),
    split_extent s e = Some parts
    /\ 0 <= k
    /\ (forall c : Z, in_extents c parts <-> s <= c <= e)
    /\ (forall (i j : nat) (x y : extent) (c : Z),
          parts !! i = Some x -> parts !! j = Some y ->
          in_extent c x -> in_extent c y -> i = j)
    /\ (forall (i : nat) (x : extent),
          parts !! i = Some x ->
          1 <= extent_length x <= 10 ^ k
          /\ ((S i < length parts)%nat -> extent_length x = 10 ^ k))
    /\ Z.of_nat (length parts) <= (e - s + 1 + 9) / 10 + 17
    /\ Z.of_nat (length parts) <= 20.
Proof.
  intros Hse.
  destruct (split_extent_exponent s e) as (k & Hk & E & Hup & Hlow).
  assert (0 < 10 ^ k) as Hsize by (apply Z.pow_pos_nonneg; lia).
  set (size := 10 ^ k) in *.
  exists (split_chunks s e size), k.
  split; [exact E|]. split; [exact Hk|].
  pose proof (split_chunks_length s e size) as Hlen.
  set (q := (e + 1 - s + size - 1) / size) in *.
  assert (size * (q - 1) <= e - s /\ e - s < size * q /\ 1 <= q) as (Hq1 & Hq2 & Hq3)
    by (subst q; Z.div_mod_to_equations; nia).
  split; [|split; [|split; [|split]]].
  - intros c. unfold in_extents. rewrite Exists_exists. split.
    + intros ([a b] & Hin & Hc). apply list_elem_of_lookup in Hin as [i Hi].
      apply split_chunks_inside in Hi; [|exact Hsize].
      unfold in_extent in Hc. simpl in Hc. lia.
    + intros Hc.
      assert (0 <= (c - s) / size < q) as Hi
        by (subst q; Z.div_mod_to_equations; nia).
      exists (s + (c - s) / size * size,
              Z.min (s + (c - s) / size * size + size - 1) e).
      split.
      * apply list_elem_of_lookup. exists (Z.to_nat ((c - s) / size)).
        apply split_chunks_lookup. fold q.
        rewrite Z2Nat.id by lia. split; [lia|reflexivity].
      * unfold in_extent. simpl. Z.div_mod_to_equations. nia.
  - intros i j [a b] [a' b'] c Hi Hj Hc Hc'.
    apply split_chunks_inside in Hi; [|exact Hsize].
    apply split_chunks_inside in Hj; [|exact Hsize].
    unfold in_extent in Hc, Hc'. simpl in Hc, Hc'.
    destruct Hi as (_ & _ & _ & Hi & -> & _).
    destruct Hj as (_ & _ & _ & Hj & -> & _).
    apply Nat2Z.inj. nia.
  - intros i [a b] Hi. pose proof Hi as Hi'.
    apply split_chunks_inside in Hi; [|exact Hsize].
    apply split_chunks_lookup in Hi' as [Hlt _]. fold q in Hlt.
    unfold extent_length. simpl. split; [lia|].
    intros Hnext. rewrite Hlen in Hnext.
    destruct Hi as (_ & _ & _ & Hle & Ha & [->|Hb]); [lia|].
    assert (Z.of_nat i + 2 <= q) as Hi2 by lia.
    assert ((Z.of_nat i + 1) * size <= (q - 1) * size) by nia.
    lia.
  - rewrite Hlen. rewrite Z2Nat.id by lia.
    clear Hlow. destruct (Z.eq_dec k 0) as [->|Hne].
    + change (10 ^ 0) with 1 in *. subst size q.
      Z.div_mod_to_equations. lia.
    + assert (10 <= size) as Hten.
      { assert (10 ^ 1 <= 10 ^ k) by (apply Z.pow_le_mono_r; lia).
        change (10 ^ 1) with 10 in *. subst size. lia. }
      assert (q <= (e - s + 1 + 9) / 10); [|lia].
      assert (e - s + 1 <= 10 * ((e - s + 1 + 9) / 10))
        by (Z.div_mod_to_equations; lia).
      assert (0 <= (e - s + 1 + 9) / 10) by (Z.div_mod_to_equations; lia).
      nia.
  - rewrite Hlen. rewrite Z2Nat.id by lia. nia.
Qed.

Lemma split_extent_covers_witness :
  0 <= 24
  /\ exists (parts : list extent) (k : Z),
       split_extent 0 24 = Some parts
       /\ 0 <= k
       /\ (forall c : Z, in_extents c parts <-> 0 <= c <= 24)
       /\ (forall (i j : nat) (x y : extent) (c : Z),
             parts !! i = Some x -> parts !! j = Some y ->
             in_extent c x -> in_extent c y -> i = j)
       /\ (forall (i : nat) (x : extent),
             parts !! i = Some x ->
             1 <= extent_length x <= 10 ^ k
             /\ ((S i < length parts)%nat -> extent_length x = 10 ^ k))
       /\ Z.of_nat (length parts) <= (24 - 0 + 1 + 9) / 10 + 17
       /\ Z.of_nat (length parts) <= 20.
Proof.
  split; [lia|]. apply (split_extent_covers 0 24). lia.
Defined.

(** The sub-extents of an extent of two clusters or more lie inside it and
    are strictly shorter. *)
Lemma split_extent_parts (s e : Z) (parts : list extent) (a b : Z) :
  s < e ->
  split_extent s e = Some parts ->
  (a, b) ∈ parts ->
  s <= a /\ a <= b /\ b <= e /\ b - a < e - s.
Proof.
  intros Hse E Hin.
  destruct (split_extent_exponent s e) as (k & Hk & E' & _ & Hlow).
  rewrite E in E'. inversion E'; subst parts. clear E'.
  assert (0 < 10 ^ k) as Hsize by (apply Z.pow_pos_nonneg; lia).
  apply list_elem_of_lookup in Hin as [i Hi].
  apply split_chunks_inside in Hi; [|exact Hsize].
  assert (10 ^ k < e - s + 1); [|lia].
  destruct Hlow as [->|Hlow]; [|exact Hlow].
  change (10 ^ 0) with 1. lia.
Qed.

Lemma split_extent_total (s e : Z) :
  exists parts : list extent, split_extent s e = Some parts.
Proof. destruct (split_extent_exponent s e) as (k & _ & E & _). eauto. Qed.

Lemma defrag_fuel_pos (s e : Z) : (0 < defrag_fuel s e)%nat.
Proof. unfold defrag_fuel. lia. Qed.

Lemma defrag_fuel_parts (s e : Z) (parts : list extent) (a b : Z) :
  s < e ->
  split_extent s e = Some parts ->
  (a, b) ∈ parts ->
  (defrag_fuel a b < defrag_fuel s e)%nat.
Proof.
  intros Hse E Hin.
  pose proof (split_extent_parts s e parts a b Hse E Hin).
  unfold defrag_fuel. lia.
Qed.

(** ** Computations that never use up the model's budget *)

Lemma total_ret {A : Type} (a : A) : total (ret a).
Proof. intros w. discriminate. Qed.

Lemma total_mret {A : Type} (a : A) : total (mret a).
Proof. intros w. discriminate. Qed.

Lemma total_raise {A : Type} (e : exn) : total (@raise A e).
Proof. intros w. discriminate. Qed.

Lemma total_assert (b : bool) : total (assert_ b).
Proof. intros w. destruct b; discriminate. Qed.

Lemma total_emit (ev : event) : total (emit ev).
Proof. intros w. discriminate. Qed.

Lemma total_tick : total tick.
Proof. intros w. discriminate. Qed.

Lemma total_open_handle (path : string) (creates : bool) :
  total (open_handle path creates).
Proof. intros w. discriminate. Qed.

Lemma total_CloseHandle (h : handle) : total (CloseHandle h).
Proof. intros w. unfold CloseHandle. destruct (handles w !! h); discriminate. Qed.

Lemma total_DeleteFile (os : OS) (path : string) :
  total (DeleteFile os path).
Proof.
  intros w. unfold DeleteFile, syscall, tick, unlink, mbind, M_bind, bind,
    ret, raise. simpl.
  destruct (os_error os (clock w)); [discriminate|]. simpl.
  case_bool_decide; discriminate.
Qed.

Lemma total_lift {A : Type} (o : outcome A) : o <> OutOfFuel -> total (lift o).
Proof. intros H w. exact H. Qed.

Lemma total_bind {A B : Type} (m : M A) (k : A -> M B) :
  total m -> (forall a, total (k a)) -> total (m ≫= k).
Proof.
  intros Hm Hk w. unfold mbind, M_bind, bind.
  specialize (Hm w). destruct (m w) as [[a|e|] w1]; simpl in *.
  - apply Hk.
  - discriminate.
  - contradiction.
Qed.

Lemma total_try_except {A : Type} (body : M A) (handler : exn -> M A) :
  total body -> (forall e, total (handler e)) ->
  total (try_except body handler).
Proof.
  intros Hb Hh w. unfold try_except.
  specialize (Hb w). destruct (body w) as [[a|e|] w1]; simpl in *.
  - discriminate.
  - apply Hh.
  - contradiction.
Qed.

Lemma total_for_each {A : Type} (l : list A) (body : A -> M unit) :
  (forall x, x ∈ l -> total (body x)) -> total (for_each l body).
Proof.
  induction l as [|x l IH]; intros Hb; simpl.
  - apply total_ret.
  - apply total_bind.
    + apply Hb. set_solver.
    + intros _. apply IH. intros y Hy. apply Hb. set_solver.
Qed.

Ltac total_structure leaf :=
  repeat first
    [ leaf
    | apply total_ret | apply total_mret | apply total_raise
    | apply total_assert | apply total_emit | apply total_tick
    | apply total_open_handle | apply total_CloseHandle
    | apply total_DeleteFile
    | apply total_bind; [|intros ?]
    | apply total_try_except; [|intros ?]
    | progress cbv beta
    | match goal with
      | |- total (if ?b then _ else _) => destruct b
      | |- total (match ?x with _ => _ end) => destruct x
      end ].

Lemma check_clusters_total (bitmap : list Z) (clusters : list Z) :
  forall acc : tally, check_clusters bitmap clusters acc <> OutOfFuel.
Proof.
  induction clusters as [|c rest IH]; intros [[cf ca] al]; simpl.
  - discriminate.
  - unfold check_mapped_bit. destruct (py_getitem bitmap (c / 8)).
    + destruct (0 <? _); apply IH.
    + discriminate.
Qed.

Lemma check_extents_total (extents : list extent) (bitmap : list Z)
    (allocated_extents : option (list extent)) :
  check_extents extents bitmap allocated_extents <> OutOfFuel.
Proof.
  unfold check_extents. generalize (0, 0, allocated_extents).
  induction extents as [|[s e] rest IH]; intros acc; simpl.
  - discriminate.
  - destruct (check_clusters bitmap (py_range s (e + 1) 1) acc) eqn:E.
    + apply IH.
    + discriminate.
    + now apply check_clusters_total in E.
Qed.

Lemma list_of_generator_total {A : Type} (g : list A * option exn) :
  list_of_generator g <> OutOfFuel.
Proof. unfold list_of_generator. destruct (snd g); discriminate. Qed.

Lemma total_get_volume_bitmap (os : OS) (h : handle) (n : Z) :
  total (get_volume_bitmap os h n).
Proof. total_structure fail. Qed.

Lemma total_get_extents_query (os : OS) (h : handle) (sizes : list Z) :
  total (get_extents_query os h sizes).
Proof.
  induction sizes as [|size rest IH]; simpl.
  - apply total_ret.
  - total_structure ltac:(exact IH).
Qed.

Lemma total_get_extents (os : OS) (h : handle) (translate : bool) :
  total (get_extents os h translate).
Proof.
  unfold get_extents.
  total_structure ltac:(first [ apply total_get_extents_query
                              | apply total_lift, list_of_generator_total ]).
Qed.

(** The budget [write_zero_fill] passes to its loop is never used up. *)
Lemma total_write_zero_fill_loop (os : OS) (h : handle) (fuel : nat) :
  forall len : Z,
    len <= 0 \/ (Z.to_nat (len / WRITE_BUF_SIZE) < fuel)%nat ->
    total (write_zero_fill_loop os fuel h len).
Proof.
  change WRITE_BUF_SIZE with 524288.
  induction fuel as [|fuel IH]; intros len Hf; simpl;
    destruct (0 <? len) eqn:E; try apply total_ret.
  - apply Z.ltb_lt in E. lia.
  - apply Z.ltb_lt in E. change WRITE_BUF_SIZE with 524288.
    destruct (524288 <=? len) eqn:Hbig.
    + apply Z.leb_le in Hbig.
      total_structure fail. apply IH. right.
      destruct Hf as [Hf|Hf]; [lia|].
      assert (Z.to_nat (len / 524288)
              = S (Z.to_nat ((len - 524288) / 524288)))
        by (Z.div_mod_to_equations; lia).
      lia.
    + total_structure fail. apply IH. now left.
Qed.

Lemma total_write_zero_fill (os : OS) (h : handle) (len : Z) :
  total (write_zero_fill os h len).
Proof.
  unfold write_zero_fill.
  total_structure ltac:(apply total_write_zero_fill_loop; right; lia).
Qed.

Lemma total_move_loop (os : OS) (vh fh : handle) (lcn_start : Z)
    (tmp : string) (on_move_error : M bool) (new_extents : list extent) :
  total on_move_error ->
  forall new_vcn : Z,
    total (move_loop os vh fh lcn_start tmp on_move_error new_extents new_vcn).
Proof.
  intros Herr. induction new_extents as [|[a b] rest IH]; intros new_vcn;
    simpl.
  - total_structure fail.
  - total_structure ltac:(first [exact Herr | apply IH]).
Qed.

Lemma lift_fuel_some_bind {A B : Type} (a : A) (k : A -> M B) :
  (lift_fuel (Some a) ≫= k) = k a.
Proof. reflexivity. Qed.

Lemma total_split_and_recurse (recurse : Z -> Z -> M bool) (s e : Z) :
  (forall a b, (defrag_fuel a b < defrag_fuel s e)%nat -> total (recurse a b)) ->
  total (split_and_recurse recurse s e).
Proof.
  intros Hrec. unfold split_and_recurse.
  destruct (e <=? s) eqn:Hse; [apply total_ret|]. apply Z.leb_gt in Hse.
  destruct (split_extent_total s e) as [parts E]. rewrite E.
  rewrite lift_fuel_some_bind.
  apply total_bind; [|intros _; apply total_ret].
  apply total_for_each. intros [a b] Hin.
  apply total_bind; [|intros _; apply total_ret].
  apply Hrec. now apply (defrag_fuel_parts s e parts).
Qed.

Lemma total_wipe_extent_by_defrag_body (os : OS)
    (recurse : Z -> Z -> M bool) (vh : handle) (s e cs total_clusters : Z)
    (tmp : string) :
  (forall a b, (defrag_fuel a b < defrag_fuel s e)%nat -> total (recurse a b)) ->
  total (wipe_extent_by_defrag_body os recurse vh s e cs total_clusters tmp).
Proof.
  intros Hrec. unfold wipe_extent_by_defrag_body.
  total_structure
    ltac:(first [ apply total_get_volume_bitmap
                | apply total_lift, check_extents_total
                | apply total_split_and_recurse; exact Hrec
                | apply total_write_zero_fill
                | apply total_get_extents
                | apply total_move_loop, total_split_and_recurse; exact Hrec ]).
Qed.

(** With a budget of at least the length of the extent the recursion never
    reaches the bottom of the budget. *)
Lemma total_wipe_extent_by_defrag (os : OS) (vh : handle)
    (cs total_clusters : Z) (tmp : string) (fuel : nat) :
  forall s e : Z,
    (defrag_fuel s e <= fuel)%nat ->
    total (wipe_extent_by_defrag os fuel vh s e cs total_clusters tmp).
Proof.
  induction fuel as [|fuel IH]; intros s e Hf.
  - pose proof (defrag_fuel_pos s e). lia.
  - simpl. apply total_wipe_extent_by_defrag_body.
    intros a b Hab. apply IH. lia.
Qed.

(** ** wipe_extent_by_defrag *)

Lemma for_each_ext {A : Type} (l : list A) (body1 body2 : A -> M unit) :
  (forall x, x ∈ l -> body1 x = body2 x) ->
  for_each l body1 = for_each l body2.
Proof.
  induction l as [|x l IH]; intros H; simpl; [reflexivity|].
  rewrite (H x) by set_solver. rewrite IH; [reflexivity|].
  intros y Hy. apply H. set_solver.
Qed.

Lemma split_and_recurse_ext (recurse1 recurse2 : Z -> Z -> M bool) (s e : Z) :
  (forall a b, (defrag_fuel a b < defrag_fuel s e)%nat ->
               recurse1 a b = recurse2 a b) ->
  split_and_recurse recurse1 s e = split_and_recurse recurse2 s e.
Proof.
  intros H. unfold split_and_recurse.
  destruct (e <=? s) eqn:Hse; [reflexivity|]. apply Z.leb_gt in Hse.
  destruct (split_extent_total s e) as [parts E]. rewrite E.
  rewrite !lift_fuel_some_bind.
  rewrite (for_each_ext parts _
             (fun '(split_s, split_e) => _ ← recurse2 split_s split_e; ret tt));
    [reflexivity|].
  intros [a b] Hin. rewrite H; [reflexivity|].
  now apply (defrag_fuel_parts s e parts).
Qed.

Lemma wipe_extent_by_defrag_body_ext (os : OS)
    (recurse1 recurse2 : Z -> Z -> M bool) (vh : handle)
    (s e cs total_clusters : Z) (tmp : string) :
  (forall a b, (defrag_fuel a b < defrag_fuel s e)%nat ->
               recurse1 a b = recurse2 a b) ->
  wipe_extent_by_defrag_body os recurse1 vh s e cs total_clusters tmp
  = wipe_extent_by_defrag_body os recurse2 vh s e cs total_clusters tmp.
Proof.
  intros H. unfold wipe_extent_by_defrag_body.
  now rewrite (split_and_recurse_ext recurse1 recurse2 s e H).
Qed.

(** Any two budgets of at least the length of the extent give the same
    run. *)
Lemma wipe_extent_by_defrag_fuel_irrelevant (os : OS) (vh : handle)
    (cs total_clusters : Z) (tmp : string) (fuel1 : nat) :
  forall (fuel2 : nat) (s e : Z),
    (defrag_fuel s e <= fuel1)%nat ->
    (defrag_fuel s e <= fuel2)%nat ->
    wipe_extent_by_defrag os fuel1 vh s e cs total_clusters tmp
    = wipe_extent_by_defrag os fuel2 vh s e cs total_clusters tmp.
Proof.
  induction fuel1 as [|fuel1 IH]; intros fuel2 s e H1 H2.
  - pose proof (defrag_fuel_pos s e). lia.
  - destruct fuel2 as [|fuel2]; [pose proof (defrag_fuel_pos s e); lia|].
    simpl. apply wipe_extent_by_defrag_body_ext.
    intros a b Hab. apply IH; lia.
Qed.

(** The tally of an extent whose clusters are all allocated. *)
Lemma check_clusters_allocated (bitmap : list Z) (clusters : list Z) :
  (forall c, c ∈ clusters -> check_mapped_bit bitmap c = Ret true) ->
  forall count_free count_allocated : Z,
    check_clusters bitmap clusters (count_free, count_allocated, None)
    = Ret (count_free, count_allocated + Z.of_nat (length clusters), None).
Proof.
  induction clusters as [|c rest IH]; intros H cf ca; simpl.
  - f_equal. f_equal. f_equal. lia.
  - rewrite (H c) by set_solver. rewrite IH by (intros; apply H; set_solver).
    f_equal. f_equal. f_equal. lia.
Qed.

Lemma py_range_unit_elem (s e c : Z) :
  c ∈ py_range s (e + 1) 1 -> s <= c <= e.
Proof.
  unfold py_range. intros H. apply list_elem_of_fmap in H as (i & -> & Hi).
  apply elem_of_seq in Hi. rewrite Z.div_1_r in Hi. lia.
Qed.

Lemma py_range_unit_length (s e : Z) :
  s <= e -> Z.of_nat (length (py_range s (e + 1) 1)) = e - s + 1.
Proof.
  intros H. unfold py_range. rewrite length_fmap, length_seq, Z.div_1_r. lia.
Qed.

Lemma check_extents_all_allocated (bitmap : list Z) (s e : Z) :
  s <= e ->
  (forall c, s <= c <= e -> check_mapped_bit bitmap c = Ret true) ->
  check_extents [(s, e)] bitmap None = Ret (0, e - s + 1, None).
Proof.
  intros Hse H. unfold check_extents. simpl.
  rewrite check_clusters_allocated
    by (intros c Hc; apply H; now apply py_range_unit_elem).
  now rewrite py_range_unit_length by exact Hse.
Qed.

(** The first steps of the body, up to the decision on the tally. *)
Lemma wipe_extent_by_defrag_body_not_wiped (os : OS)
    (recurse : Z -> Z -> M bool) (vh : handle)
    (s e cs total_clusters : Z) (tmp : string) (w : World)
    (bitmap : list Z) (bitmap_size count_free count_allocated : Z)
    (al : option (list extent)) :
  0 < cs ->
  os_error os (clock w) = None ->
  os_bitmap os (clock w) = (0, bitmap_size, bitmap) ->
  check_extents [(s, e)] bitmap None = Ret (count_free, count_allocated, al) ->
  0 < count_allocated -> count_free = 0 ->
  wipe_extent_by_defrag_body os recurse vh s e cs total_clusters tmp w
  = (Ret false, after_bitmap_query vh s e w).
Proof.
  intros Hcs Herr Hbm Hce Hca Hcf.
  unfold wipe_extent_by_defrag_body, get_volume_bitmap,
    DeviceIoControl_GET_VOLUME_BITMAP, syscall, tick, emit, assert_,
    mbind, M_bind, bind, lift, ret.
  apply Z.ltb_lt in Hcs. rewrite Hcs. simpl. rewrite Herr. simpl.
  rewrite Hbm. simpl. rewrite Hce. simpl.
  apply Z.ltb_lt in Hca. rewrite Hca. subst count_free. reflexivity.
Qed.

Lemma wipe_extent_by_defrag_body_splits (os : OS)
    (recurse : Z -> Z -> M bool) (vh : handle)
    (s e cs total_clusters : Z) (tmp : string) (w : World)
    (bitmap : list Z) (bitmap_size count_free count_allocated : Z)
    (al : option (list extent)) :
  0 < cs ->
  os_error os (clock w) = None ->
  os_bitmap os (clock w) = (0, bitmap_size, bitmap) ->
  check_extents [(s, e)] bitmap None = Ret (count_free, count_allocated, al) ->
  ~ (0 < count_allocated /\ count_free = 0) ->
  0 < count_allocated \/ WRITE_BUF_SIZE * 4 < (e - s + 1) * cs ->
  wipe_extent_by_defrag_body os recurse vh s e cs total_clusters tmp w
  = split_and_recurse recurse s e (after_bitmap_query vh s e w).
Proof.
  intros Hcs Herr Hbm Hce Hnot Hsplit.
  unfold wipe_extent_by_defrag_body, get_volume_bitmap,
    DeviceIoControl_GET_VOLUME_BITMAP, syscall, tick, emit, assert_,
    mbind, M_bind, bind, lift, ret.
  apply Z.ltb_lt in Hcs. rewrite Hcs. simpl. rewrite Herr. simpl.
  rewrite Hbm. simpl. rewrite Hce. simpl.
  replace ((0 <? count_allocated) && (count_free =? 0)) with false by lia.
  replace ((0 <? count_allocated)
           || (WRITE_BUF_SIZE * 4 <? (e - s + 1) * cs)) with true by lia.
  reflexivity.
Qed.

(** C7. For an extent with [lcn_start <= lcn_end] and a recursion budget
    of at least its length, [wipe_extent_by_defrag] ends, with a result or
    an exception of a system call, never by lack of budget.  When the
    volume bitmap it gets shows every cluster of the extent allocated, it
    returns False right after the query.  When the tally is not "allocated
    only" and some cluster is allocated or the extent is larger than
    4 * 512 KiB, it returns False for a single cluster and otherwise runs
    itself on every sub-extent of [split_extent], each inside the extent
    and strictly shorter, and returns True. *)
Theorem wipe_extent_by_defrag_terminates (os : OS) (vh : handle)
    (s e cs total_clusters : Z) (tmp : string) (w : World) (fuel : nat) :
  s <= e ->
  (defrag_fuel s e <= fuel)%nat ->
  let run := wipe_extent_by_defrag os fuel vh s e cs total_clusters tmp w in
  run.1 <> OutOfFuel
  /\ (forall (bitmap : list Z) (bitmap_size : Z),
        0 < cs ->
        os_error os (clock w) = None ->
        os_bitmap os (clock w) = (0, bitmap_size, bitmap) ->
        (forall c, s <= c <= e -> check_mapped_bit bitmap c = Ret true) ->
        run = (Ret false, after_bitmap_query vh s e w))
  /\ (forall (bitmap : list Z) (bitmap_size count_free count_allocated : Z)
             (al : option (list extent)),
        0 < cs ->
        os_error os (clock w) = None ->
        os_bitmap os (clock w) = (0, bitmap_size, bitmap) ->
        check_extents [(s, e)] bitmap None
        = Ret (count_free, count_allocated, al) ->
        ~ (0 < count_allocated /\ count_free = 0) ->
        0 < count_allocated \/ WRITE_BUF_SIZE * 4 < (e - s + 1) * cs ->
        (s = e -> run = (Ret false, after_bitmap_query vh s e w))
        /\ (s < e ->
            exists parts : list extent,
              split_extent s e = Some parts
              /\ (forall a b, (a, b) ∈ parts ->
                              s <= a /\ a <= b /\ b <= e /\ b - a < e - s)
              /\ run
                 = (for_each parts
                      (fun '(a, b) =>
                         _ ← wipe_extent_by_defrag os (defrag_fuel a b) vh a b
                               cs total_clusters tmp;
                         ret tt);;
                    ret true) (after_bitmap_query vh s e w))).
Proof.
  intros Hse Hfuel run. subst run.
  split; [now apply total_wipe_extent_by_defrag|].
  destruct fuel as [|fuel]; [pose proof (defrag_fuel_pos s e); lia|].
  simpl. split.
  - intros bitmap bitmap_size Hcs Herr Hbm Hall.
    apply (wipe_extent_by_defrag_body_not_wiped os _ vh s e cs total_clusters
             tmp w bitmap bitmap_size 0 (e - s + 1) None);
      auto using check_extents_all_allocated; lia.
  - intros bitmap bitmap_size cf ca al Hcs Herr Hbm Hce Hnot Hsplit.
    rewrite (wipe_extent_by_defrag_body_splits os _ vh s e cs total_clusters
               tmp w bitmap bitmap_size cf ca al) by assumption.
    unfold split_and_recurse. split.
    + intros ->. now rewrite Z.leb_refl.
    + intros Hlt. replace (e <=? s) with false by lia.
      destruct (split_extent_total s e) as [parts E]. rewrite E.
      exists parts. split; [reflexivity|]. split.
      * intros a b Hin. now apply (split_extent_parts s e parts).
      * rewrite lift_fuel_some_bind.
        rewrite (for_each_ext parts _
                   (fun '(a, b) =>
                      _ ← wipe_extent_by_defrag os (defrag_fuel a b) vh a b
                            cs total_clusters tmp;
                      ret tt)); [reflexivity|].
        intros [a b] Hin.
        pose proof (defrag_fuel_parts s e parts a b Hlt E Hin).
        rewrite (wipe_extent_by_defrag_fuel_irrelevant os vh cs total_clusters
                   tmp fuel (defrag_fuel a b) a b) by lia.
        reflexivity.
Qed.

Lemma wipe_extent_by_defrag_terminates_witness :
  10 <= 11
  /\ (defrag_fuel 10 11 <= 2)%nat
  /\ (wipe_extent_by_defrag full_volume_os 2 1%positive 10 11 4096 256
        "C:\bbtemp.dat" empty_world).1 <> OutOfFuel
  /\ wipe_extent_by_defrag full_volume_os 2 1%positive 10 11 4096 256
       "C:\bbtemp.dat" empty_world
     = (Ret false, after_bitmap_query 1%positive 10 11 empty_world).
Proof.
  split; [lia|]. split; [vm_compute; lia|].
  destruct (wipe_extent_by_defrag_terminates full_volume_os 1%positive 10 11
              4096 256 "C:\bbtemp.dat" empty_world 2) as (H1 & H2 & _).
  - lia.
  - vm_compute. lia.
  - split; [exact H1|].
    apply (H2 (replicate 32 255) 256); [lia|reflexivity|reflexivity|].
    intros c Hc. assert (c = 10 \/ c = 11) as [-> | ->] by lia; reflexivity.
Defined.

(** ** What file_wipe leaves open and behind *)

Lemma keeps_inv {S A : Type} (proj : World -> S) (m : M A) (w w' : World)
    (r : outcome A) :
  keeps proj m -> m w = (r, w') -> proj w' = proj w.
Proof. intros K H. specialize (K w). now rewrite H in K. Qed.

Lemma tick_keeps_resources : keeps resources tick.
Proof. intros w. reflexivity. Qed.

Lemma emit_keeps_resources (ev : event) : keeps resources (emit ev).
Proof. intros w. reflexivity. Qed.

Lemma new_generator_keeps_resources (items : list extent) :
  keeps resources (new_generator items).
Proof. intros w. reflexivity. Qed.

Lemma iterate_keeps_resources (o : extents_obj) : keeps resources (iterate o).
Proof. destruct o; intros w; reflexivity. Qed.

Lemma py_len_keeps_resources (o : extents_obj) : keeps resources (py_len o).
Proof. destruct o; intros w; reflexivity. Qed.

Ltac resources_leaf :=
  first [ apply tick_keeps_resources | apply emit_keeps_resources
        | apply new_generator_keeps_resources
        | apply iterate_keeps_resources | apply py_len_keeps_resources ].

Lemma get_extents_query_keeps_resources (os : OS) (h : handle)
    (sizes : list Z) :
  keeps resources (get_extents_query os h sizes).
Proof.
  induction sizes as [|size rest IH]; simpl.
  - apply keeps_ret.
  - keeps_structure ltac:(first [resources_leaf | exact IH]).
Qed.

Lemma get_extents_keeps_resources (os : OS) (h : handle) (translate : bool) :
  keeps resources (get_extents os h translate).
Proof.
  unfold get_extents.
  keeps_structure
    ltac:(first [resources_leaf | apply get_extents_query_keeps_resources]).
Qed.

Lemma get_volume_bitmap_keeps_resources (os : OS) (h : handle) (n : Z) :
  keeps resources (get_volume_bitmap os h n).
Proof. keeps_structure resources_leaf. Qed.

Lemma write_zero_fill_loop_keeps_resources (os : OS) (h : handle)
    (fuel : nat) :
  forall len : Z, keeps resources (write_zero_fill_loop os fuel h len).
Proof.
  induction fuel as [|fuel IH]; intros len; simpl.
  - keeps_structure resources_leaf.
  - keeps_structure ltac:(first [resources_leaf | apply IH]).
Qed.

Lemma write_zero_fill_keeps_resources (os : OS) (h : handle) (len : Z) :
  keeps resources (write_zero_fill os h len).
Proof.
  unfold write_zero_fill.
  keeps_structure
    ltac:(first [resources_leaf | apply write_zero_fill_loop_keeps_resources]).
Qed.

Lemma wipe_file_direct_keeps_resources (os : OS) (h : handle)
    (extents : list extent) (cs size : Z) :
  keeps resources (wipe_file_direct os h extents cs size).
Proof.
  unfold wipe_file_direct.
  keeps_structure
    ltac:(first [resources_leaf | apply write_zero_fill_keeps_resources]).
Qed.

Lemma poll_loop_keeps_resources (os : OS) (h : handle) (n : Z)
    (o : extents_obj) (attempts : nat) :
  keeps resources (poll_loop os attempts h n o).
Proof.
  induction attempts as [|attempts IH]; simpl.
  - apply keeps_ret.
  - keeps_structure
      ltac:(first [ resources_leaf | apply get_volume_bitmap_keeps_resources
                  | exact IH ]).
Qed.

Lemma poll_clusters_freed_keeps_resources (os : OS) (h : handle) (n : Z)
    (o : extents_obj) :
  keeps resources (poll_clusters_freed os h n o).
Proof.
  unfold poll_clusters_freed.
  destruct (negb (truthy o)); [apply keeps_ret|].
  apply poll_loop_keeps_resources.
Qed.

Lemma choose_if_bridged_keeps_resources (os : OS) (h : handle) (n : Z)
    (o : extents_obj) (bridged : list extent) :
  keeps resources (choose_if_bridged os h n o bridged).
Proof.
  unfold choose_if_bridged.
  keeps_structure
    ltac:(first [resources_leaf | apply get_volume_bitmap_keeps_resources]).
Qed.

Lemma get_volume_information_keeps_resources (os : OS) (volume : string) :
  keeps resources (get_volume_information os volume).
Proof. unfold get_volume_information. keeps_structure resources_leaf. Qed.

Lemma get_file_basic_info_keeps_resources (os : OS) (name : string)
    (h : handle) :
  keeps resources (get_file_basic_info os name h).
Proof. keeps_structure resources_leaf. Qed.

Lemma truncate_file_keeps_resources (os : OS) (h : handle) :
  keeps resources (truncate_file os h).
Proof. keeps_structure resources_leaf. Qed.

Lemma move_file_keeps_resources (os : OS) (vh fh : handle) (a b c : Z) :
  keeps resources (move_file os vh fh a b c).
Proof. keeps_structure resources_leaf. Qed.

Lemma gives_back_refl (tmp : string) (w : World) : gives_back tmp w w.
Proof. split; [reflexivity|set_solver]. Qed.

Lemma gives_back_trans (tmp : string) (w1 w2 w3 : World) :
  gives_back tmp w1 w2 -> gives_back tmp w2 w3 -> gives_back tmp w1 w3.
Proof. intros [H1 F1] [H2 F2]. split; [congruence|set_solver]. Qed.

Lemma keeps_gives_back {A : Type} (tmp : string) (m : M A) (w w' : World)
    (r : outcome A) :
  keeps resources m -> m w = (r, w') -> gives_back tmp w w'.
Proof.
  intros K H. apply (keeps_inv resources m w w' r K) in H.
  unfold resources in H. inversion H as [[Hh Hf]].
  split; [exact Hh|]. rewrite Hf. set_solver.
Qed.

Lemma for_each_gives_back {A : Type} (tmp : string) (l : list A)
    (body : A -> M unit) :
  (forall x, returns_giving_back tmp (body x)) ->
  returns_giving_back tmp (for_each l body).
Proof.
  intros Hb. induction l as [|x l IH]; intros w w' a H; simpl in H.
  - inversion H; subst. apply gives_back_refl.
  - inv_bind H. eapply gives_back_trans; [eapply Hb|eapply IH]; eassumption.
Qed.

Lemma split_and_recurse_gives_back (tmp : string)
    (recurse : Z -> Z -> M bool) (s e : Z) :
  (forall a b, returns_giving_back tmp (recurse a b)) ->
  returns_giving_back tmp (split_and_recurse recurse s e).
Proof.
  intros Hrec w w' r H. unfold split_and_recurse in H.
  destruct (e <=? s).
  - inversion H; subst. apply gives_back_refl.
  - inv_bind H. unfold lift_fuel in H0.
    destruct (split_extent s e) as [parts|]; [|discriminate].
    inversion H0; subst a w0. clear H0.
    inv_bind H. inversion H; subst.
    apply (for_each_gives_back tmp parts _) in H0; [exact H0|].
    intros [x y] wa wb u Hu. inv_bind Hu. inversion Hu; subst.
    eapply Hrec; eassumption.
Qed.

Lemma CreateFile_inv (os : OS) (path : string) (d : disposition)
    (w w' : World) (h : handle) :
  CreateFile os path d w = (Ret h, w') ->
  handles w !! h = None
  /\ handles w' = <[h := path]> (handles w)
  /\ files w' = match d with
                | CREATE_ALWAYS => {[path]} ∪ files w
                | OPEN_EXISTING => files w
                end.
Proof.
  unfold CreateFile, syscall, tick, open_handle, mbind, M_bind, bind,
    ret, raise. simpl.
  destruct (os_error os (clock w)); [discriminate|]. intros H.
  inversion H; subst. simpl. split; [|split].
  - apply not_elem_of_dom, is_fresh.
  - reflexivity.
  - now destruct d.
Qed.

Lemma CloseHandle_open (h : handle) (path : string) (w : World) :
  handles w !! h = Some path ->
  CloseHandle h w = (Ret tt, set_handles (delete h (handles w)) w).
Proof. intros H. unfold CloseHandle. now rewrite H. Qed.

(** A deletion that returned: the file is gone, nothing else changed. *)
Lemma DeleteFile_inv (os : OS) (path : string) (w w' : World) (u : unit) :
  DeleteFile os path w = (Ret u, w') ->
  handles w' = handles w /\ files w' = files w ∖ {[path]}.
Proof.
  unfold DeleteFile, syscall, tick, unlink, mbind, M_bind, bind, ret, raise.
  simpl. destruct (os_error os (clock w)); [discriminate|]. simpl.
  case_bool_decide; [|discriminate]. now intros [= _ <-].
Qed.

(** The move loop closes the handle of the temporary file on every way to
    a return. *)
Lemma move_loop_gives_back (os : OS) (vh fh : handle) (lcn_start : Z)
    (tmp : string) (on_move_error : M bool) (open_before : gmap positive string)
    (new_extents : list extent) :
  open_before !! fh = None ->
  returns_giving_back tmp on_move_error ->
  forall (new_vcn : Z) (w w' : World) (b : bool),
    handles w = <[fh := tmp]> open_before ->
    move_loop os vh fh lcn_start tmp on_move_error new_extents new_vcn w
    = (Ret b, w') ->
    handles w' = open_before /\ files w' ⊆ files w ∪ {[tmp]}.
Proof.
  intros Hfresh Herr.
  induction new_extents as [|[a c] rest IH]; intros new_vcn w w' b Hw H;
    simpl in H.
  - rewrite bind_ret with (a := tt) (w' := set_handles (delete fh (handles w)) w)
      in H by (apply (CloseHandle_open fh tmp); rewrite Hw;
               apply lookup_insert_eq).
    inv_bind H. inversion H; subst. apply DeleteFile_inv in H0 as [Hd Hf].
    rewrite Hd, Hf. simpl. rewrite Hw. split.
    + now apply delete_insert_id.
    + set_solver.
  - inv_bind H. destruct a0 as [b0|].
    + inversion H; subst. clear H.
      destruct (negb (a =? lcn_start + new_vcn)); [|discriminate].
      apply try_except_inv_ret in H0 as [Hb|(ex & w1 & Hb & Hh)].
      * inv_bind Hb. discriminate.
      * apply (keeps_inv resources) in Hb;
          [|keeps_structure
              ltac:(first [resources_leaf | apply move_file_keeps_resources])].
        unfold resources in Hb. inversion Hb as [[Hb1 Hb2]].
        rewrite bind_ret
          with (a := tt) (w' := set_handles (delete fh (handles w1)) w1)
          in Hh by (apply (CloseHandle_open fh tmp); rewrite Hb1, Hw;
                    apply lookup_insert_eq).
        inv_bind Hh. inversion Hh; subst.
        apply Herr in Hh0 as [G1 G2]. simpl in G1, G2.
        rewrite G1, Hb1, Hw. split.
        -- now apply delete_insert_id.
        -- first [exact G2 | rewrite Hb2 in G2; exact G2].
    + assert (resources w0 = resources w) as Hr.
      { destruct (negb (a =? lcn_start + new_vcn)).
        - apply try_except_inv_ret in H0 as [Hb|(ex & w1 & Hb & Hh)].
          + eapply (keeps_inv resources); [|exact Hb].
            keeps_structure
              ltac:(first [resources_leaf | apply move_file_keeps_resources]).
          + inv_bind Hh. inv_bind Hh. discriminate.
        - inversion H0; subst. reflexivity. }
      unfold resources in Hr. inversion Hr as [[Hr1 Hr2]].
      apply IH in H; [|now rewrite Hr1].
      first [exact H | rewrite Hr2 in H; exact H].
Qed.

Lemma check_os_keeps_resources (os : OS) : keeps resources (check_os os).
Proof. unfold check_os. keeps_structure resources_leaf. Qed.

Ltac resources_all :=
  first [ resources_leaf
        | apply check_os_keeps_resources
        | apply get_extents_keeps_resources
        | apply get_volume_bitmap_keeps_resources
        | apply write_zero_fill_keeps_resources
        | apply wipe_file_direct_keeps_resources
        | apply poll_clusters_freed_keeps_resources
        | apply choose_if_bridged_keeps_resources
        | apply get_volume_information_keeps_resources
        | apply get_file_basic_info_keeps_resources
        | apply truncate_file_keeps_resources
        | apply move_file_keeps_resources ].

(** From a step [H : m w = (r, w')] that keeps the resources to the two
    equations between the handles and the files of [w'] and [w]. *)
Ltac kept H :=
  apply (keeps_inv resources) in H;
  [ unfold resources in H; injection H as ? ?
  | solve [keeps_structure resources_all] ].

(** One step of a sequence that returned, with names for the value, the
    world after the step and the equation of the step. *)
Ltac step H x w1 H1 := apply bind_inv_ret in H as (x & w1 & H1 & H).

Lemma wipe_extent_by_defrag_body_gives_back (os : OS)
    (recurse : Z -> Z -> M bool) (vh : handle) (s e cs total_clusters : Z)
    (tmp : string) :
  (forall a b, returns_giving_back tmp (recurse a b)) ->
  returns_giving_back tmp
    (wipe_extent_by_defrag_body os recurse vh s e cs total_clusters tmp).
Proof.
  intros Hrec w w' b H. unfold wipe_extent_by_defrag_body in H.
  inv_bind H. kept H0.
  inv_bind H. kept H2.
  inv_bind H. destruct a1 as [volume_bitmap bitmap_size]. kept H4.
  inv_bind H. destruct a1 as [[count_free count_allocated] al].
  unfold lift in H6. injection H6 as _ <-.
  assert (gives_back tmp w w2) as Hstart
    by (split; [congruence|]; set_solver).
  clear H0 H1 H2 H3 H4 H5.
  apply (gives_back_trans tmp w w2 w'); [exact Hstart|]. clear Hstart.
  destruct ((0 <? count_allocated) && (count_free =? 0)).
  { injection H as _ <-. apply gives_back_refl. }
  destruct ((0 <? count_allocated)
            || (WRITE_BUF_SIZE * 4 <? (e - s + 1) * cs)).
  { eapply split_and_recurse_gives_back; eassumption. }
  inv_bind H. rename a1 into fh.
  apply CreateFile_inv in H0 as (Hfresh & Hopen & Hfiles).
  inv_bind H. kept H0.
  inv_bind H. kept H2.
  apply (move_loop_gives_back os vh fh s tmp _ (handles w2)) in H.
  - destruct H as [G1 G2]. split; [exact G1|]. set_solver.
  - exact Hfresh.
  - now apply split_and_recurse_gives_back.
  - congruence.
Qed.

Lemma wipe_extent_by_defrag_gives_back (os : OS) (vh : handle)
    (cs total_clusters : Z) (tmp : string) (fuel : nat) :
  forall s e : Z,
    returns_giving_back tmp
      (wipe_extent_by_defrag os fuel vh s e cs total_clusters tmp).
Proof.
  induction fuel as [|fuel IH]; intros s e.
  - intros w w' b H. discriminate.
  - simpl. apply wipe_extent_by_defrag_body_gives_back.
    intros a b. apply IH.
Qed.

Lemma tmp_file_path_not_empty (dir : string) (sep : ascii) :
  dir +:+ String sep "" +:+ TMP_FILE_NAME <> "".
Proof. destruct dir; discriminate. Qed.

(** [clean_up(None, volume_handle, tmp)] with the volume handle open:
    it returns, the handle is closed and no file is new.  With a temporary
    file named, the deletion is the one system call made, and the file is
    gone unless that call was refused: the bare [except] swallows the
    refusal. *)
Lemma clean_up_volume (os : OS) (vh : handle) (volume : string)
    (tmp : option string) (w w' : World) (r : outcome unit) :
  handles w !! vh = Some volume ->
  clean_up os None (Some vh) tmp w = (r, w') ->
  r = Ret tt
  /\ handles w' = delete vh (handles w)
  /\ files w' ⊆ files w
  /\ (forall p, tmp = Some p -> p <> "" ->
                clock w' = S (clock w)
                /\ (os_error os (clock w) = None -> p ∉ files w')).
Proof.
  intros Hopen H. unfold clean_up, try_except in H.
  unfold mbind at 1 2 in H. unfold M_bind at 1 2 in H.
  unfold bind at 1 2 in H. simpl in H.
  rewrite (CloseHandle_open vh volume w Hopen) in H.
  destruct tmp as [p|].
  - case_bool_decide as Hp.
    + injection H as <- <-. simpl. split; [reflexivity|].
      split; [reflexivity|]. split; [set_solver|]. intros q [= <-] Hq.
      contradiction.
    + unfold DeleteFile, syscall, tick, unlink, mbind, M_bind, bind, ret,
        raise in H. simpl in H.
      destruct (os_error os (clock w)) as [code|] eqn:Herr; simpl in H.
      * injection H as <- <-. simpl. split; [reflexivity|].
        split; [reflexivity|]. split; [set_solver|]. intros q [= <-] _.
        split; [reflexivity|discriminate].
      * case_bool_decide as Hin.
        -- injection H as <- <-. simpl. split; [reflexivity|].
           split; [reflexivity|]. split; [set_solver|]. intros q [= <-] _.
           split; [reflexivity|]. intros _. set_solver.
        -- injection H as <- <-. simpl. split; [reflexivity|].
           split; [reflexivity|]. split; [set_solver|]. intros q [= <-] _.
           split; [reflexivity|]. now intros _.
  - injection H as <- <-. simpl. split; [reflexivity|].
    split; [reflexivity|]. split; [set_solver|]. discriminate.
Qed.

Lemma CloseHandle_inv (h : handle) (path : string) (w w' : World)
    (r : outcome unit) :
  handles w !! h = Some path ->
  CloseHandle h w = (r, w') ->
  handles w' = delete h (handles w) /\ files w' = files w.
Proof.
  intros Hopen H. rewrite (CloseHandle_open h path w Hopen) in H.
  now injection H as _ <-.
Qed.

Lemma open_file_inv (os : OS) (name : string) (w w' : World) (h : handle) :
  open_file os name w = (Ret h, w') ->
  handles w !! h = None
  /\ handles w' = <[h := name]> (handles w)
  /\ files w' = files w.
Proof. intros H. now apply CreateFile_inv in H. Qed.

Lemma obtain_readwrite_inv (os : OS) (volume : string) (w w' : World)
    (h : handle) :
  obtain_readwrite os volume w = (Ret h, w') ->
  exists device : string,
    handles w !! h = None
    /\ handles w' = <[h := device]> (handles w)
    /\ files w' = files w.
Proof.
  intros H. unfold obtain_readwrite in H. step H u w1 H1. kept H1.
  cbv zeta in H. apply CreateFile_inv in H as (F & O & E).
  eexists. split; [|split].
  - now rewrite <- H0.
  - rewrite O. now rewrite H0.
  - now rewrite E.
Qed.

(** C8, amended.  Whenever [file_wipe] returns, the handles that are open
    are those that were open before the call (the file handles and the
    volume handle it opened are closed again), and no file exists that did
    not exist before, except possibly the temporary zero-fill file: it is
    gone too unless the last system call, the [DeleteFile] of [clean_up],
    was refused, which the bare [except] of [clean_up] swallows.  Nothing
    of the kind holds when [file_wipe] raises: it has no try/finally. *)
Theorem file_wipe_returns_clean (os : OS) (file_name : string)
    (w w' : World) :
  file_wipe os file_name w = (Ret tt, w') ->
  let tmp_file_path :=
    os_path_dirname os (extended_path os file_name)
      +:+ String (os_sep os) "" +:+ TMP_FILE_NAME in
  handles w' = handles w
  /\ files w' ⊆ files w ∪ {[tmp_file_path]}
  /\ (os_error os (Nat.pred (clock w')) = None -> files w' ⊆ files w).
Proof.
  intros H tmp_file_path. subst tmp_file_path.
  unfold file_wipe in H. cbv zeta in H.
  set (name := extended_path os file_name) in *.
  set (volume := volume_from_file os name) in *.
  set (tmp := os_path_dirname os name +:+ String (os_sep os) ""
              +:+ TMP_FILE_NAME) in *.
  step H u1 w1 S1. kept S1.
  step H volume_info w2 S2. kept S2.
  step H h1 w3 S3. apply open_file_inv in S3 as (Hfresh1 & Hopen1 & Hfiles1).
  step H info w4 S4. destruct info as [file_size is_special]. kept S4.
  step H orig_extents w5 S5. kept S5.
  step H bridged_extents w6 S6. kept S6.
  step H u2 w7 S7.
  apply (CloseHandle_inv h1 name) in S7 as [Hclosed1 Hfiles7];
    [|replace (handles w6) with (<[h1 := name]> (handles w2)) by congruence;
      apply lookup_insert_eq].
  assert (handles w7 = handles w) as Hh7.
  { rewrite Hclosed1.
    replace (handles w6) with (<[h1 := name]> (handles w2)) by congruence.
    rewrite delete_insert_id by exact Hfresh1. congruence. }
  assert (files w7 = files w) as Hf7 by congruence.
  clear - H Hh7 Hf7.
  step H vh w8 S8.
  apply obtain_readwrite_inv in S8 as (device & Hfreshv & Hopenv & Hfiles8).
  step H attrs w9 S9. kept S9.
  step H u3 w10 S10. kept S10.
  step H h2 w11 S11. apply open_file_inv in S11 as (Hfresh2 & Hopen2 & Hfiles11).
  step H remaining w12 S12.
  assert (handles w !! vh = None) as Hv by (now rewrite <- Hh7).
  assert (handles w10 = <[vh := device]> (handles w)) as Hh10 by congruence.
  assert (handles w11 = <[h2 := name]> (<[vh := device]> (handles w)))
    as Hh11 by congruence.
  assert (files w11 = files w) as Hf11 by congruence.
  rewrite Hh10 in Hfresh2.
  clear - H S12 Hv Hfresh2 Hh11 Hf11.
  assert (files w12 ⊆ files w
          /\ match remaining with
             | None => handles w12 = handles w
             | Some _ => handles w12 = <[vh := device]> (handles w)
             end) as [Hf12 Hh12].
  { destruct is_special; simpl in S12.
    - step S12 u4 w13 T1. kept T1.
      step S12 u5 w14 T2.
      apply (CloseHandle_inv h2 name) in T2 as [Hclosed2 Hfiles14];
        [|replace (handles w13)
            with (<[h2 := name]> (<[vh := device]> (handles w)))
            by congruence;
          apply lookup_insert_eq].
      injection S12 as <- <-. split; [set_solver|].
      rewrite Hclosed2.
      replace (handles w13)
        with (<[h2 := name]> (<[vh := device]> (handles w))) by congruence.
      now apply delete_insert_id.
    - step S12 u4 w13 T1. kept T1.
      step S12 new_extents w14 T2. kept T2.
      step S12 u5 w15 T3.
      apply (CloseHandle_inv h2 name) in T3 as [Hclosed2 Hfiles15];
        [|replace (handles w14)
            with (<[h2 := name]> (<[vh := device]> (handles w)))
            by congruence;
          apply lookup_insert_eq].
      assert (handles w15 = <[vh := device]> (handles w)) as Hh15.
      { rewrite Hclosed2.
        replace (handles w14)
          with (<[h2 := name]> (<[vh := device]> (handles w))) by congruence.
        now apply delete_insert_id. }
      assert (files w15 = files w) as Hf15 by congruence.
      case_bool_decide.
      + step S12 u6 w16 T4.
        apply (clean_up_volume os vh device) in T4 as (_ & Hc1 & Hc2 & _);
          [|rewrite Hh15; apply lookup_insert_eq].
        injection S12 as <- <-. split; [set_solver|].
        rewrite Hc1, Hh15. now apply delete_insert_id.
      + step S12 g w16 T4. kept T4.
        injection S12 as <- <-. split; [set_solver|]. congruence. }
  clear S12. destruct remaining as [orig|].
  - step H u7 w13 P1. kept P1.
    step H chosen w14 P2. kept P2.
    step H items w15 P3. kept P3.
    step H u8 w16 P4.
    apply (for_each_gives_back tmp) in P4 as [Hg1 Hg2].
    + apply (clean_up_volume os vh device) in H as (_ & Hc1 & Hc2 & Hc3).
      * destruct (Hc3 tmp eq_refl (tmp_file_path_not_empty _ _))
          as [Hclock Hgone].
        assert (files w15 ⊆ files w) as Hf15
          by (replace (files w15) with (files w12) by congruence;
              exact Hf12).
        split; [|split].
        -- rewrite Hc1.
           replace (handles w16) with (<[vh := device]> (handles w))
             by congruence.
           now apply delete_insert_id.
        -- clear - Hg2 Hc2 Hf15. set_solver.
        -- rewrite Hclock. simpl. intros Herr. specialize (Hgone Herr).
           clear - Hg2 Hc2 Hgone Hf15. set_solver.
      * replace (handles w16) with (<[vh := device]> (handles w))
          by congruence.
        apply lookup_insert_eq.
    + intros [lcn_start lcn_end] wa wb u Hu. step Hu b wc Hb.
      injection Hu as _ <-.
      eapply wipe_extent_by_defrag_gives_back. exact Hb.
  - injection H as <-. split; [exact Hh12|].
    split; [|intros _; exact Hf12]. clear - Hf12. set_solver.
Qed.

Lemma file_wipe_returns_clean_witness :
  file_wipe relocating_os "C:\dir\a.bin" (world_with "C:\dir\a.bin")
  = (Ret tt,
     (file_wipe relocating_os "C:\dir\a.bin" (world_with "C:\dir\a.bin")).2)
  /\ let w' :=
       (file_wipe relocating_os "C:\dir\a.bin"
          (world_with "C:\dir\a.bin")).2 in
     let tmp_file_path :=
       os_path_dirname relocating_os
         (extended_path relocating_os "C:\dir\a.bin")
         +:+ String (os_sep relocating_os) "" +:+ TMP_FILE_NAME in
     handles w' = handles (world_with "C:\dir\a.bin")
     /\ files w' ⊆ files (world_with "C:\dir\a.bin") ∪ {[tmp_file_path]}
     /\ (os_error relocating_os (Nat.pred (clock w')) = None ->
         files w' ⊆ files (world_with "C:\dir\a.bin")).
Proof.
  assert (file_wipe relocating_os "C:\dir\a.bin" (world_with "C:\dir\a.bin")
          = (Ret tt,
             (file_wipe relocating_os "C:\dir\a.bin"
                (world_with "C:\dir\a.bin")).2)) as E
    by (vm_compute; reflexivity).
  split; [exact E|].
  exact (file_wipe_returns_clean relocating_os "C:\dir\a.bin"
           (world_with "C:\dir\a.bin") _ E).
Defined.

(** The temporary file can stay.  On [stubborn_os [21; 22]] the move of the
    zero-fill cluster (the system call at tick 21) is refused, so
    [wipe_extent_by_defrag] closes the temporary file and answers False
    for its single cluster; the [DeleteFile] of [clean_up] (tick 22) is
    refused too and the bare [except] swallows it.  [file_wipe] returns
    with every handle closed and [bbtemp.dat] left next to the file. *)
Lemma file_wipe_may_leave_temporary_file :
  let r :=
    file_wipe (stubborn_os [21; 22]%nat) "C:\dir\a.bin"
      (world_with "C:\dir\a.bin") in
  r.1 = Ret tt
  /\ clock r.2 = 23%nat
  /\ handles r.2 = ∅
  /\ elements (files r.2)
     = ["C:\dir\a.bin"%string; "\\?\C:\dir\bbtemp.dat"%string].
Proof. vm_compute. auto. Qed.

(** On [stubborn_os [21]] the move is refused and the [DeleteFile] of
    [clean_up] is not: the temporary file is gone when [file_wipe]
    returns. *)
Lemma file_wipe_deletes_temporary_file_after_failed_move :
  let r :=
    file_wipe (stubborn_os [21]%nat) "C:\dir\a.bin"
      (world_with "C:\dir\a.bin") in
  r.1 = Ret tt
  /\ handles r.2 = ∅
  /\ elements (files r.2) = ["C:\dir\a.bin"%string].
Proof. vm_compute. auto. Qed.

(** ** Supplements *)

(** *** The bridging pass never runs out of rounds *)

Lemma merge_scan_ge (lcn : Z) (n : nat) :
  forall (pending : list (Z * Z)) (merge_index : nat),
    (length pending <= n)%nat ->
    (merge_index <= merge_scan lcn pending merge_index)%nat.
Proof.
  induction n as [|n IH]; intros pending merge_index Hn.
  - destruct pending; [simpl; lia|simpl in Hn; lia].
  - destruct pending as [|r0 [|r1 [|r2 tl]]]; simpl; try lia.
    destruct ((0 <=? lcn) && (snd r1 <? 0) && (0 <=? snd r2)
              && (snd r2 - snd r0 <=? 16) && (0 <? snd r2 - snd r0));
      [|lia].
    specialize (IH (r2 :: tl) (merge_index + 2)%nat).
    simpl in Hn, IH. lia.
Qed.

Lemma bridged_loop_fuel (ranges : list (Z * Z)) (fuel : nat) :
  forall (vcn_count : Z) (index : nat),
    (length ranges <= index + fuel)%nat ->
    (bridged_loop fuel ranges vcn_count index).2 = false.
Proof.
  induction fuel as [|fuel IH]; intros vcn_count index Hf; simpl.
  - apply Nat.ltb_ge. lia.
  - destruct (ranges !! index) as [[vcn lcn]|]; [|reflexivity].
    destruct (lcn <? 0); [apply IH; lia|].
    pose proof (merge_scan_ge lcn (length (drop index ranges))
                  (drop index ranges) index (Nat.le_refl _)) as Hm.
    destruct (merge_scan lcn (drop index ranges) index =? index)%nat.
    + destruct (0 <=? vcn - vcn_count); [|reflexivity].
      specialize (IH vcn (index + 1)%nat).
      destruct (bridged_loop fuel ranges vcn (index + 1)) as [[ys st] out].
      simpl in *. apply IH. lia.
    + set (m := merge_scan lcn (drop index ranges) index) in *.
      destruct (0 <=? _); [|reflexivity].
      specialize (IH (default (0, 0) (ranges !! m)).1 (m + 1)%nat).
      destruct (bridged_loop fuel ranges _ (m + 1)) as [[ys st] out].
      simpl in *. apply IH. lia.
Qed.

(** With bridging, [logical_ranges_to_extents] sees every entry: the
    rounds the model allows are enough. *)
Lemma logical_ranges_to_extents_bridged_complete (ranges : list (Z * Z)) :
  (bridged_loop (length ranges) ranges 0 0).2 = false.
Proof. apply bridged_loop_fuel. lia. Qed.

(** *** A generator is empty after poll_clusters_freed *)

Lemma tick_keeps_generators : keeps generators tick.
Proof. intros w. reflexivity. Qed.

Lemma emit_keeps_generators (ev : event) : keeps generators (emit ev).
Proof. intros w. reflexivity. Qed.

Lemma get_volume_bitmap_keeps_generators (os : OS) (h : handle) (n : Z) :
  keeps generators (get_volume_bitmap os h n).
Proof.
  keeps_structure
    ltac:(first [apply tick_keeps_generators | apply emit_keeps_generators]).
Qed.

Lemma poll_loop_keeps_exhausted (os : OS) (vh : handle) (n : Z)
    (g : positive) (attempts : nat) :
  forall (w w' : World) (b : bool),
    generators w !! g = Some [] ->
    poll_loop os attempts vh n (ExtentGen g) w = (Ret b, w') ->
    generators w' !! g = Some [].
Proof.
  induction attempts as [|attempts IH]; intros w w' b Hg H; simpl in H.
  - injection H as _ <-. exact Hg.
  - step H bm w1 S1. destruct bm as [volume_bitmap bitmap_size].
    apply (keeps_inv generators) in S1;
      [|apply get_volume_bitmap_keeps_generators].
    step H items w2 S2. simpl in S2. injection S2 as _ <-.
    step H counts w3 S3. destruct counts as [[cf ca] al].
    unfold lift in S3. injection S3 as _ <-.
    destruct (ca <? cf).
    + injection H as _ <-. simpl. apply lookup_insert_eq.
    + step H u w4 S4. unfold Sleep, emit in S4. injection S4 as _ <-.
      apply IH in H; [exact H|]. simpl. apply lookup_insert_eq.
Qed.

Lemma poll_loop_exhausts (os : OS) (vh : handle) (n : Z) (g : positive)
    (attempts : nat) (w w' : World) (b : bool) :
  poll_loop os (S attempts) vh n (ExtentGen g) w = (Ret b, w') ->
  generators w' !! g = Some [].
Proof.
  intros H. simpl in H.
  step H bm w1 S1. destruct bm as [volume_bitmap bitmap_size].
  step H items w2 S2. injection S2 as _ <-.
  step H counts w3 S3. destruct counts as [[cf ca] al].
  unfold lift in S3. injection S3 as _ <-.
  destruct (ca <? cf).
  - injection H as _ <-. simpl. apply lookup_insert_eq.
  - step H u w4 S4. unfold Sleep, emit in S4. injection S4 as _ <-.
    apply poll_loop_keeps_exhausted in H; [exact H|].
    simpl. apply lookup_insert_eq.
Qed.

(** Whenever [poll_clusters_freed] returns, a generator passed to it has
    nothing left to yield: the first tally consumed it. *)
Lemma poll_clusters_freed_exhausts (os : OS) (vh : handle) (n : Z)
    (g : positive) (w w' : World) (b : bool) :
  poll_clusters_freed os vh n (ExtentGen g) w = (Ret b, w') ->
  (iterate (ExtentGen g) w').1 = Ret [].
Proof.
  intros H.
  change (poll_loop os (S 69) vh n (ExtentGen g) w = (Ret b, w')) in H.
  apply poll_loop_exhausts in H. simpl. now rewrite H.
Qed.

(** *** What wipe_file_direct writes *)

Lemma written_through_app (h : handle) (t1 t2 : list event) :
  written_through h (t1 ++ t2) = written_through h t1 + written_through h t2.
Proof.
  induction t1 as [|ev t1 IH]; simpl; [reflexivity|].
  destruct ev; try exact IH. case_bool_decide; lia.
Qed.

Lemma syscall_keeps_trace (os : OS) : keeps trace (syscall os).
Proof. keeps_structure trace_leaf. Qed.

Lemma syscall_emit_inv (os : OS) (ev : event) (w w' : World) (u : unit) :
  (syscall os ≫= fun _ => emit ev) w = (Ret u, w') ->
  trace w' = trace w ++ [ev].
Proof.
  intros H. step H t w1 S1.
  apply (keeps_inv trace) in S1; [|apply syscall_keeps_trace].
  unfold emit in H. injection H as _ <-. simpl. now rewrite S1.
Qed.

Lemma WriteFile_inv (os : OS) (h : handle) (n code written : Z)
    (w w' : World) :
  WriteFile os h n w = (Ret (code, written), w') ->
  trace w' = trace w ++ [EvWriteFile h written].
Proof.
  intros H. unfold WriteFile in H. step H t w1 S1.
  apply (keeps_inv trace) in S1; [|apply syscall_keeps_trace].
  cbv zeta in H. step H u w2 S2. unfold emit in S2. injection S2 as _ <-.
  injection H as _ <- <-. simpl. now rewrite S1.
Qed.

Lemma assert_inv (b : bool) (w w' : World) (u : unit) :
  assert_ b w = (Ret u, w') -> b = true /\ w' = w.
Proof. destruct b; intros H; [now injection H as _ <-|discriminate]. Qed.

(** When the zero-fill loop returns, it has written exactly the bytes it
    was asked for. *)
Lemma write_zero_fill_loop_written (os : OS) (h : handle) (fuel : nat) :
  forall (len : Z) (w w' : World) (u : unit),
    write_zero_fill_loop os fuel h len w = (Ret u, w') ->
    written_through h (trace w')
    = written_through h (trace w) + Z.max 0 len.
Proof.
  induction fuel as [|fuel IH]; intros len w w' u H; simpl in H;
    destruct (0 <? len) eqn:E.
  - discriminate.
  - injection H as _ <-. lia.
  - destruct (WRITE_BUF_SIZE <=? len) eqn:Hbig.
    + step H r w1 S1. destruct r as [code written].
      apply WriteFile_inv in S1.
      step H v w2 S2. apply assert_inv in S2 as [Hw ->].
      apply IH in H. rewrite H, S1, written_through_app. simpl.
      rewrite bool_decide_eq_true_2 by reflexivity.
      unfold WRITE_BUF_SIZE in *. lia.
    + step H r w1 S1. destruct r as [code written].
      apply WriteFile_inv in S1.
      step H v w2 S2. apply assert_inv in S2 as [Hw ->].
      apply IH in H. rewrite H, S1, written_through_app. simpl.
      rewrite bool_decide_eq_true_2 by reflexivity. lia.
  - injection H as _ <-. lia.
Qed.

Lemma write_zero_fill_written (os : OS) (h : handle) (len : Z)
    (w w' : World) (u : unit) :
  write_zero_fill os h len w = (Ret u, w') ->
  written_through h (trace w') = written_through h (trace w) + Z.max 0 len.
Proof.
  intros H. unfold write_zero_fill in H.
  step H v w1 S1. apply assert_inv in S1 as [_ ->].
  step H v2 w2 S2. apply write_zero_fill_loop_written in S2.
  apply syscall_emit_inv in H. rewrite H, written_through_app. simpl. lia.
Qed.

Lemma foldl_last_extent (f : extent -> Z) (l : list extent) :
  forall d : Z,
    foldl (fun _ x => f x) d l = match last l with Some x => f x | None => d end.
Proof.
  induction l as [|x l IH]; intros d; simpl; [reflexivity|].
  rewrite IH. destruct l as [|y l]; [reflexivity|].
  rewrite last_cons_cons.
  destruct (last (y :: l)) eqn:E; [reflexivity|].
  now apply last_None in E.
Qed.

(** What the direct wipe writes when it returns: the file size for a file
    without extents, and otherwise the byte length of the last extent of
    the list, whatever the other extents are. *)
Lemma wipe_file_direct_written (os : OS) (h : handle) (extents : list extent)
    (cluster_size file_size : Z) (w w' : World) (u : unit) :
  wipe_file_direct os h extents cluster_size file_size w = (Ret u, w') ->
  written_through h (trace w')
  = written_through h (trace w)
    + Z.max 0 (match last extents with
               | Some x => extent_length x * cluster_size
               | None => file_size
               end).
Proof.
  intros H. unfold wipe_file_direct in H.
  step H v w1 S1. apply assert_inv in S1 as [_ ->].
  step H v2 w2 S2. apply syscall_emit_inv in S2.
  cbv zeta in H. apply write_zero_fill_written in H.
  rewrite H, S2, written_through_app. simpl.
  destruct extents as [|x l]; simpl; [lia|].
  rewrite (foldl_last_extent
             (fun '(lcn_start, lcn_end) =>
                (lcn_end - lcn_start + 1) * cluster_size)).
  unfold extent_length. destruct l as [|y l].
  - simpl. destruct x. simpl. lia.
  - rewrite last_cons_cons.
    destruct (last (y :: l)) as [[a b]|] eqn:E; [simpl; lia|].
    now apply last_None in E.
Qed.

(** *** What extents_a_minus_b gets right *)

Lemma insert_by_start_elem (x y : extent) (l : list extent) :
  y ∈ insert_by_start x l <-> y = x \/ y ∈ l.
Proof.
  induction l as [|z l IH]; simpl.
  - set_solver.
  - destruct (x.1 <=? z.1); set_solver.
Qed.

Lemma sorted_by_start_elem (y : extent) (l : list extent) :
  y ∈ sorted_by_start l <-> y ∈ l.
Proof.
  induction l as [|x l IH]; simpl; [reflexivity|].
  rewrite insert_by_start_elem. set_solver.
Qed.

Lemma in_extents_sorted (c : Z) (l : list extent) :
  in_extents c (sorted_by_start l) <-> in_extents c l.
Proof.
  unfold in_extents. rewrite !Exists_exists.
  split; intros (x & Hx & Hc); exists x; split; try exact Hc;
    now apply sorted_by_start_elem.
Qed.

Lemma insert_by_start_sorted (x : extent) (l : list extent) :
  StronglySorted (fun u v => u.1 <= v.1) l ->
  StronglySorted (fun u v => u.1 <= v.1) (insert_by_start x l).
Proof.
  induction l as [|z l IH]; intros Hs; simpl.
  - repeat constructor.
  - apply StronglySorted_inv in Hs as [Hl Hz].
    destruct (x.1 <=? z.1) eqn:E.
    + apply Z.leb_le in E. constructor; [now constructor|].
      constructor; [exact E|].
      eapply Forall_impl; [exact Hz|]. simpl. intros; lia.
    + apply Z.leb_gt in E. constructor; [now apply IH|].
      apply Forall_forall. intros y Hy.
      apply insert_by_start_elem in Hy as [->|Hy]; [lia|].
      rewrite Forall_forall in Hz. now apply Hz.
Qed.

Lemma sorted_by_start_sorted (l : list extent) :
  StronglySorted (fun u v => u.1 <= v.1) (sorted_by_start l).
Proof.
  induction l as [|x l IH]; simpl; [constructor|].
  now apply insert_by_start_sorted.
Qed.

(** Whatever the scan of one extent of [a] yields lies inside that extent
    and outside every extent of [b]. *)
Lemma trim_by_b_sound (b_sorted : list extent) :
  StronglySorted (fun u v => u.1 <= v.1) b_sorted ->
  forall (a_begin a_end c : Z) (x : extent),
    x ∈ trim_by_b a_begin a_end b_sorted ->
    in_extent c x ->
    a_begin <= c <= a_end /\ ~ in_extents c b_sorted.
Proof.
  induction b_sorted as [|[b_begin b_end] rest IH]; intros Hs a_begin a_end c x
    Hx Hc; simpl in Hx.
  - set_solver.
  - apply StronglySorted_inv in Hs as [Hrest Hhead].
    assert (forall lo, lo <= c -> lo > b_end \/ c < b_begin ->
                       (~ in_extents c rest) ->
                       ~ in_extents c ((b_begin, b_end) :: rest)) as Hout.
    { intros lo Hlo Hside Hr Hin. apply Exists_cons in Hin as [Hin|Hin].
      - unfold in_extent in Hin. simpl in Hin. lia.
      - now apply Hr. }
    assert (c < b_begin -> ~ in_extents c rest) as Hlater.
    { intros Hlt Hin. apply Exists_exists in Hin as (y & Hy & Hcy).
      rewrite Forall_forall in Hhead. specialize (Hhead y Hy).
      unfold in_extent in Hcy. simpl in Hhead. lia. }
    unfold in_extent in Hc.
    destruct (a_end <? b_begin) eqn:E1.
    { apply Z.ltb_lt in E1. apply list_elem_of_singleton in Hx as ->.
      simpl in Hc. split; [lia|].
      apply (Hout c); [lia|right; lia|apply Hlater; lia]. }
    apply Z.ltb_ge in E1.
    destruct (b_end <? a_begin) eqn:E2.
    { apply Z.ltb_lt in E2.
      destruct (IH Hrest a_begin a_end c x Hx Hc) as [Hin Hr].
      split; [exact Hin|]. apply (Hout c); [lia|left; lia|exact Hr]. }
    apply Z.ltb_ge in E2.
    destruct (b_begin <=? a_begin) eqn:E3.
    { apply Z.leb_le in E3. destruct (a_end <=? b_end) eqn:E4; [set_solver|].
      apply Z.leb_gt in E4.
      destruct (IH Hrest (b_end + 1) a_end c x Hx Hc) as [Hin Hr].
      split; [lia|]. apply (Hout c); [lia|left; lia|exact Hr]. }
    apply Z.leb_gt in E3.
    apply elem_of_cons in Hx as [->|Hx].
    { simpl in Hc. split; [lia|].
      apply (Hout c); [lia|right; lia|apply Hlater; lia]. }
    destruct (a_end <=? b_end) eqn:E4; [set_solver|].
    apply Z.leb_gt in E4.
    destruct (IH Hrest (b_end + 1) a_end c x Hx Hc) as [Hin Hr].
    split; [lia|]. apply (Hout c); [lia|left; lia|exact Hr].
Qed.

(** The half of C3 that the code meets: every cluster that
    [extents_a_minus_b a b] yields is a cluster of [a] and lies in no
    extent of [b]. *)
Lemma extents_a_minus_b_sound (a b : list extent) (c : Z) :
  in_extents c (extents_a_minus_b a b) ->
  in_extents c a /\ ~ in_extents c b.
Proof.
  unfold extents_a_minus_b, in_extents at 1. rewrite Exists_exists.
  intros (x & Hx & Hc).
  apply list_elem_of_In, in_flat_map in Hx as ([a_begin a_end] & Ha & Hx).
  apply list_elem_of_In in Ha. apply (proj1 (sorted_by_start_elem _ _)) in Ha.
  apply list_elem_of_In, elem_of_app in Hx as [Hx|Hx].
  - case_bool_decide as Hb; [|set_solver].
    apply list_elem_of_singleton in Hx as ->. subst b. split.
    + apply Exists_exists. eauto.
    + intros Hin. now apply Exists_nil in Hin.
  - destruct (trim_by_b_sound (sorted_by_start b) (sorted_by_start_sorted b)
                a_begin a_end c x Hx Hc) as [Hin Hout].
    split.
    + apply Exists_exists. exists (a_begin, a_end). split; [exact Ha|].
      exact Hin.
    + intros Hb. apply Hout. now apply in_extents_sorted.
Qed.

(** *** file_wipe ends with a result or an exception *)

Lemma total_iterate (o : extents_obj) : total (iterate o).
Proof. destruct o; intros w; discriminate. Qed.

Lemma total_py_len (o : extents_obj) : total (py_len o).
Proof. destruct o; intros w; discriminate. Qed.

Lemma total_new_generator (items : list extent) : total (new_generator items).
Proof. intros w. discriminate. Qed.

Lemma total_poll_loop (os : OS) (vh : handle) (n : Z) (o : extents_obj)
    (attempts : nat) :
  total (poll_loop os attempts vh n o).
Proof.
  induction attempts as [|attempts IH]; simpl; [apply total_ret|].
  total_structure
    ltac:(first [ apply total_get_volume_bitmap | apply total_iterate
                | apply total_lift, check_extents_total | exact IH ]).
Qed.

Lemma total_clean_up (os : OS) (fh vh : option handle)
    (tmp : option string) :
  total (clean_up os fh vh tmp).
Proof. unfold clean_up. total_structure ltac:(apply total_DeleteFile). Qed.

Lemma total_choose_if_bridged (os : OS) (vh : handle) (n : Z)
    (o : extents_obj) (bridged : list extent) :
  total (choose_if_bridged os vh n o bridged).
Proof.
  unfold choose_if_bridged.
  total_structure
    ltac:(first [ apply total_get_volume_bitmap | apply total_iterate
                | apply total_py_len
                | apply total_lift, check_extents_total ]).
Qed.

Lemma total_file_wipe (os : OS) (file_name : string) :
  total (file_wipe os file_name).
Proof.
  unfold file_wipe, poll_clusters_freed, get_volume_information, check_os,
    wipe_file_direct.
  total_structure
    ltac:(first [ apply total_get_volume_bitmap | apply total_iterate
                | apply total_new_generator
                | apply total_get_extents
                | apply total_write_zero_fill
                | apply total_poll_loop
                | apply total_choose_if_bridged
                | apply total_clean_up
                | apply total_lift, list_of_generator_total
                | apply total_for_each; intros [? ?] _;
                  apply total_bind;
                  [apply total_wipe_extent_by_defrag; lia
                  |intros ?; apply total_ret] ]).
Qed.

(** ** WindowsWipe.py: what the functions do in general *)

(** *** extents_a_minus_b: exactly which clusters come out *)

Lemma trim_by_b_before (b_sorted : list extent) :
  forall (a_begin a_end c : Z) (x : extent),
    x ∈ trim_by_b a_begin a_end b_sorted ->
    in_extent c x ->
    exists y, y ∈ b_sorted /\ c < y.1.
Proof.
  induction b_sorted as [|[b_begin b_end] rest IH]; intros a_begin a_end c x
    Hx Hc; simpl in Hx.
  - set_solver.
  - assert (forall a', x ∈ trim_by_b a' a_end rest ->
                       exists y, y ∈ (b_begin, b_end) :: rest /\ c < y.1)
      as Hrest.
    { intros a' Hx'. destruct (IH a' a_end c x Hx' Hc) as (y & Hy & Hlt).
      exists y. split; [now apply list_elem_of_further|exact Hlt]. }
    assert (c < b_begin ->
            exists y, y ∈ (b_begin, b_end) :: rest /\ c < y.1) as Hhead.
    { intros Hlt. exists (b_begin, b_end). split; [apply list_elem_of_here|].
      exact Hlt. }
    unfold in_extent in Hc.
    destruct (a_end <? b_begin) eqn:E1.
    { apply Z.ltb_lt in E1. apply list_elem_of_singleton in Hx as ->.
      simpl in Hc. apply Hhead. lia. }
    destruct (b_end <? a_begin); [now apply (Hrest a_begin)|].
    destruct (b_begin <=? a_begin).
    { destruct (a_end <=? b_end); [set_solver|]. now apply (Hrest (b_end + 1)). }
    apply elem_of_cons in Hx as [->|Hx].
    { simpl in Hc. apply Hhead. lia. }
    destruct (a_end <=? b_end); [set_solver|]. now apply (Hrest (b_end + 1)).
Qed.

Lemma trim_by_b_complete (b_sorted : list extent) :
  Forall (fun y => y.1 <= y.2) b_sorted ->
  forall (a_begin a_end c : Z),
    a_begin <= c <= a_end ->
    ~ in_extents c b_sorted ->
    (exists y, y ∈ b_sorted /\ c < y.1) ->
    exists x, x ∈ trim_by_b a_begin a_end b_sorted /\ in_extent c x.
Proof.
  induction b_sorted as [|[b_begin b_end] rest IH];
    intros Hwf a_begin a_end c Hc Hout (y & Hy & Hlt); simpl.
  - set_solver.
  - apply Forall_cons in Hwf as [Hhead Hwf]. simpl in Hhead.
    assert (~ in_extents c rest) as Hout'.
    { intros Hin. apply Hout. now apply Exists_cons_tl. }
    assert (~ (b_begin <= c <= b_end)) as Hnot.
    { intros Hin. apply Hout. now apply Exists_cons_hd. }
    assert (b_begin <= c -> exists y, y ∈ rest /\ c < y.1) as Hlater.
    { intros Hge. apply elem_of_cons in Hy as [->|Hy]; [simpl in Hlt; lia|].
      eauto. }
    destruct (a_end <? b_begin) eqn:E1.
    { exists (a_begin, a_end). split; [apply list_elem_of_here|exact Hc]. }
    apply Z.ltb_ge in E1.
    destruct (b_end <? a_begin) eqn:E2.
    { apply Z.ltb_lt in E2. apply IH; try assumption. apply Hlater. lia. }
    apply Z.ltb_ge in E2.
    destruct (b_begin <=? a_begin) eqn:E3.
    { apply Z.leb_le in E3. destruct (a_end <=? b_end) eqn:E4.
      - apply Z.leb_le in E4. lia.
      - apply IH; try assumption; [lia|]. apply Hlater. lia. }
    apply Z.leb_gt in E3.
    destruct (Z.lt_ge_cases c b_begin) as [Hc'|Hc'].
    { exists (a_begin, b_begin - 1). split; [apply list_elem_of_here|].
      unfold in_extent. simpl. lia. }
    destruct (a_end <=? b_end) eqn:E4.
    { apply Z.leb_le in E4. lia. }
    destruct (IH Hwf (b_end + 1) a_end c) as (x & Hx & Hcx);
      try assumption; [lia|now apply Hlater|].
    exists x. split; [now apply list_elem_of_further|exact Hcx].
Qed.

(** Which clusters [extents_a_minus_b a b] yields, when every extent of
    [b] has its start before its end: the clusters of [a] that lie in no
    extent of [b] and before the start of some extent of [b] (all of them
    when [b] is empty).  A cluster of [a] past the start of the last
    extent of [b] is never yielded. *)
Theorem extents_a_minus_b_clusters (a b : list extent) (c : Z) :
  Forall (fun y => y.1 <= y.2) b ->
  in_extents c (extents_a_minus_b a b)
  <-> in_extents c a /\ ~ in_extents c b
      /\ (b = [] \/ exists y, y ∈ b /\ c < y.1).
Proof.
  intros Hwf. split.
  - intros H. destruct (extents_a_minus_b_sound a b c H) as [Ha Hb].
    split; [exact Ha|]. split; [exact Hb|].
    unfold extents_a_minus_b, in_extents in H. rewrite Exists_exists in H.
    destruct H as (x & Hx & Hc).
    apply list_elem_of_In, in_flat_map in Hx as ([a_begin a_end] & _ & Hx).
    apply list_elem_of_In, elem_of_app in Hx as [Hx|Hx].
    + case_bool_decide as Hnil; [now left|set_solver].
    + right. destruct (trim_by_b_before _ _ _ c x Hx Hc) as (y & Hy & Hlt).
      exists y. split; [now apply (proj1 (sorted_by_start_elem _ _))|exact Hlt].
  - intros (Ha & Hb & Hlast).
    unfold in_extents in Ha. rewrite Exists_exists in Ha.
    destruct Ha as ([a_begin a_end] & Ha & Hc).
    unfold extents_a_minus_b, in_extents. rewrite Exists_exists.
    assert (forall x,
              x ∈ (if bool_decide (b = []) then [(a_begin, a_end)] else [])
                    ++ trim_by_b a_begin a_end (sorted_by_start b) ->
              x ∈ flat_map
                    (fun '(a_begin, a_end) =>
                       (if bool_decide (b = []) then [(a_begin, a_end)]
                        else [])
                         ++ trim_by_b a_begin a_end (sorted_by_start b))
                    (sorted_by_start a)) as Hflat.
    { intros x Hx. apply list_elem_of_In, in_flat_map.
      exists (a_begin, a_end). split.
      - apply list_elem_of_In. now apply (proj2 (sorted_by_start_elem _ _)).
      - now apply list_elem_of_In. }
    destruct Hlast as [->|(y & Hy & Hlt)].
    + exists (a_begin, a_end). split; [|exact Hc].
      apply Hflat. rewrite bool_decide_eq_true_2 by reflexivity.
      apply list_elem_of_here.
    + destruct (trim_by_b_complete (sorted_by_start b)) with
        (a_begin := a_begin) (a_end := a_end) (c := c) as (x & Hx & Hcx).
      * apply Forall_forall. intros z Hz.
        apply (proj1 (sorted_by_start_elem _ _)) in Hz.
        rewrite Forall_forall in Hwf. now apply Hwf.
      * exact Hc.
      * intros Hin. apply Hb. now apply in_extents_sorted.
      * exists y. split; [now apply (proj2 (sorted_by_start_elem _ _))|exact Hlt].
      * exists x. split; [|exact Hcx]. apply Hflat.
        apply elem_of_app. now right.
Qed.

Lemma extents_a_minus_b_clusters_witness :
  in_extents 3 (extents_a_minus_b [(0, 9)] [(5, 6)])
  /\ ~ in_extents 8 (extents_a_minus_b [(0, 9)] [(5, 6)]).
Proof.
  assert (Forall (fun y : extent => y.1 <= y.2) [(5, 6)]) as Hwf.
  { repeat constructor. simpl. lia. }
  split.
  - apply (extents_a_minus_b_clusters [(0, 9)] [(5, 6)] 3 Hwf).
    split; [|split].
    + apply Exists_cons_hd. unfold in_extent. simpl. lia.
    + intros H. apply Exists_cons in H as [H|H];
        [unfold in_extent in H; simpl in H; lia|now apply Exists_nil in H].
    + right. exists (5, 6). split; [apply list_elem_of_here|simpl; lia].
  - intros H.
    apply (extents_a_minus_b_clusters [(0, 9)] [(5, 6)] 8 Hwf) in H
      as (_ & _ & [H|(y & Hy & Hlt)]); [discriminate|].
    apply list_elem_of_singleton in Hy as ->. simpl in Hlt. lia.
Defined.

(** *** check_mapped_bit *)

Lemma lowest_bit_testbit (b k : Z) :
  0 <= k -> (0 <? Z.land (Z.shiftr b k) 1) = Z.testbit b k.
Proof.
  intros Hk. change 1 with (Z.ones 1) at 1. rewrite Z.land_ones by lia.
  change (2 ^ 1) with 2. rewrite <- Z.bit0_mod, Z.shiftr_spec by lia.
  rewrite Z.add_0_l. now destruct (Z.testbit b k).
Qed.

(** For a cluster number that is not negative and lies within the bitmap,
    [check_mapped_bit] is bit [lcn mod 8], counted from the least
    significant one, of byte [lcn / 8]. *)
Theorem check_mapped_bit_reads_bit (volume_bitmap : list Z) (lcn byte : Z) :
  0 <= lcn ->
  volume_bitmap !! Z.to_nat (lcn / 8) = Some byte ->
  check_mapped_bit volume_bitmap lcn = Ret (Z.testbit byte (lcn mod 8)).
Proof.
  intros Hlcn Hbyte. unfold check_mapped_bit, py_getitem.
  assert (0 <= lcn / 8) as Hq by (apply Z.div_pos; lia).
  rewrite (proj2 (Z.leb_le 0 (lcn / 8)) Hq), Hbyte.
  assert (0 <= lcn mod 8 < 8) as Hr by (apply Z.mod_pos_bound; lia).
  f_equal. destruct (0 <? lcn mod 8) eqn:E.
  - apply lowest_bit_testbit. lia.
  - apply Z.ltb_ge in E. replace (lcn mod 8) with 0 by lia.
    rewrite <- (Z.shiftr_0_r byte) at 1. now apply lowest_bit_testbit.
Qed.

Lemma check_mapped_bit_reads_bit_witness :
  check_mapped_bit [0; 4] 10 = Ret (Z.testbit 4 (10 mod 8)).
Proof.
  apply (check_mapped_bit_reads_bit [0; 4] 10 4); [lia|reflexivity].
Defined.

(** A cluster number at or past eight times the length of the bitmap
    raises IndexError. *)
Theorem check_mapped_bit_out_of_range (volume_bitmap : list Z) (lcn : Z) :
  8 * Z.of_nat (length volume_bitmap) <= lcn ->
  check_mapped_bit volume_bitmap lcn = Raise IndexError.
Proof.
  intros H. unfold check_mapped_bit, py_getitem.
  assert (Z.of_nat (length volume_bitmap) <= lcn / 8) as Hq
    by (apply Z.div_le_lower_bound; lia).
  rewrite (proj2 (Z.leb_le 0 (lcn / 8))) by lia.
  rewrite lookup_ge_None_2; [reflexivity|lia].
Qed.

Lemma check_mapped_bit_out_of_range_witness :
  check_mapped_bit [0; 4] 16 = Raise IndexError.
Proof. apply (check_mapped_bit_out_of_range [0; 4] 16). simpl. lia. Defined.

(** A negative cluster number down to minus eight times the length of the
    bitmap does not raise: Python indexes from the end, and the answer is
    that of the cluster as many places before the end of the bitmap. *)
Theorem check_mapped_bit_negative_wraps (volume_bitmap : list Z) (lcn : Z) :
  - (8 * Z.of_nat (length volume_bitmap)) <= lcn < 0 ->
  check_mapped_bit volume_bitmap lcn
  = check_mapped_bit volume_bitmap
      (lcn + 8 * Z.of_nat (length volume_bitmap)).
Proof.
  intros H. unfold check_mapped_bit, py_getitem.
  set (n := Z.of_nat (length volume_bitmap)) in *.
  replace (lcn + 8 * n) with (lcn + n * 8) by lia.
  rewrite Z.div_add, Z.mod_add by lia.
  assert (- n <= lcn / 8 < 0) as Hq.
  { split; [apply Z.div_le_lower_bound; lia|apply Z.div_lt_upper_bound; lia]. }
  rewrite (proj2 (Z.leb_gt 0 (lcn / 8))) by lia.
  rewrite (proj2 (Z.leb_le (- n) (lcn / 8))) by lia.
  rewrite (proj2 (Z.leb_le 0 (lcn / 8 + n))) by lia.
  now replace (n + lcn / 8) with (lcn / 8 + n) by lia.
Qed.

Lemma check_mapped_bit_negative_wraps_witness :
  check_mapped_bit [0; 4] (-6) = check_mapped_bit [0; 4] (-6 + 8 * 2).
Proof. apply (check_mapped_bit_negative_wraps [0; 4] (-6)). simpl. lia. Defined.

(** *** check_extents *)

Lemma check_clusters_spec (bitmap : list Z) (clusters : list Z) :
  forall (cf ca : Z) (al : option (list extent)) (cf' ca' : Z)
         (al' : option (list extent)),
    check_clusters bitmap clusters (cf, ca, al) = Ret (cf', ca', al') ->
    ca' = ca + Z.of_nat (length (List.filter (is_allocated bitmap) clusters))
    /\ cf' + ca' = cf + ca + Z.of_nat (length clusters)
    /\ al' = (fun l =>
                l ++ ((fun c => (c, c))
                        <$> List.filter (is_allocated bitmap) clusters))
               <$> al
    /\ Forall (fun c => check_mapped_bit bitmap c
                        = Ret (is_allocated bitmap c)) clusters.
Proof.
  induction clusters as [|c rest IH]; intros cf ca al cf' ca' al' H;
    simpl in H.
  - injection H as <- <- <-. simpl. repeat split; try lia.
    + destruct al; simpl; [now rewrite app_nil_r|reflexivity].
    + constructor.
  - destruct (check_mapped_bit bitmap c) as [[|]| |] eqn:E; try discriminate.
    + assert (is_allocated bitmap c = true) as Ha
        by (unfold is_allocated; now rewrite E).
      apply IH in H as (-> & Hsum & -> & Hall).
      simpl. rewrite Ha. simpl. repeat split; try lia.
      * destruct al; simpl; [|reflexivity]. now rewrite <- app_assoc.
      * constructor; [|exact Hall]. now rewrite Ha.
    + assert (is_allocated bitmap c = false) as Ha
        by (unfold is_allocated; now rewrite E).
      apply IH in H as (-> & Hsum & -> & Hall).
      simpl. rewrite Ha. repeat split; try lia.
      constructor; [|exact Hall]. now rewrite Ha.
Qed.

Lemma check_extents_loop_spec (bitmap : list Z) (extents : list extent) :
  forall (cf ca : Z) (al : option (list extent)) (cf' ca' : Z)
         (al' : option (list extent)),
    check_extents_loop extents bitmap (cf, ca, al) = Ret (cf', ca', al') ->
    ca' = ca + Z.of_nat (length (List.filter (is_allocated bitmap)
                                   (clusters_of extents)))
    /\ cf' + ca' = cf + ca + Z.of_nat (length (clusters_of extents))
    /\ al' = (fun l =>
                l ++ ((fun c => (c, c))
                        <$> List.filter (is_allocated bitmap)
                              (clusters_of extents)))
               <$> al
    /\ Forall (fun c => check_mapped_bit bitmap c
                        = Ret (is_allocated bitmap c)) (clusters_of extents).
Proof.
  induction extents as [|[s e] rest IH]; intros cf ca al cf' ca' al' H;
    simpl in H.
  - injection H as <- <- <-. simpl. repeat split; try lia.
    + destruct al; simpl; [now rewrite app_nil_r|reflexivity].
    + constructor.
  - destruct (check_clusters bitmap (py_range s (e + 1) 1) (cf, ca, al))
      as [[[cf1 ca1] al1]| |] eqn:E; try discriminate.
    apply check_clusters_spec in E as (-> & Hsum1 & -> & Hall1).
    apply IH in H as (-> & Hsum & -> & Hall).
    simpl. rewrite List.filter_app, !length_app, fmap_app. repeat split; try lia.
    + destruct al; simpl; [|reflexivity]. now rewrite <- app_assoc.
    + apply Forall_app. split; assumption.
Qed.

(** When [check_extents] returns, the two counts add up to the number of
    clusters of the extents, the allocated count is the number of clusters
    whose bit is set, and the caller's list has grown by one single-cluster
    extent for each of them, in the order of the scan. *)
Theorem check_extents_tally (extents : list extent) (volume_bitmap : list Z)
    (allocated_extents : option (list extent))
    (count_free count_allocated : Z) (result : option (list extent)) :
  check_extents extents volume_bitmap allocated_extents
  = Ret (count_free, count_allocated, result) ->
  count_allocated
  = Z.of_nat (length (List.filter (is_allocated volume_bitmap)
                        (clusters_of extents)))
  /\ count_free + count_allocated = Z.of_nat (length (clusters_of extents))
  /\ result
     = (fun l =>
          l ++ ((fun c => (c, c))
                  <$> List.filter (is_allocated volume_bitmap)
                        (clusters_of extents)))
         <$> allocated_extents.
Proof.
  intros H. unfold check_extents in H.
  apply check_extents_loop_spec in H as (-> & Hsum & -> & _).
  repeat split; lia.
Qed.

Lemma check_extents_tally_witness :
  1 = Z.of_nat (length (List.filter (is_allocated [5])
                          (clusters_of [(0, 1)])))
  /\ 1 + 1 = Z.of_nat (length (clusters_of [(0, 1)]))
  /\ Some [(7, 9); (0, 0)]
     = (fun l =>
          l ++ ((fun c => (c, c))
                  <$> List.filter (is_allocated [5])
                        (clusters_of [(0, 1)])))
         <$> Some [(7, 9)].
Proof.
  apply (check_extents_tally [(0, 1)] [5] (Some [(7, 9)])). reflexivity.
Defined.

Lemma py_range_unit_elem_iff (s e c : Z) :
  c ∈ py_range s (e + 1) 1 <-> s <= c <= e.
Proof.
  split; [apply py_range_unit_elem|]. intros Hc.
  unfold py_range. apply list_elem_of_fmap. exists (Z.to_nat (c - s)).
  split; [lia|]. apply elem_of_seq. rewrite Z.div_1_r. lia.
Qed.

Lemma clusters_of_elem (c : Z) (extents : list extent) :
  in_extents c extents <-> c ∈ clusters_of extents.
Proof.
  unfold in_extents. induction extents as [|[s e] rest IH]; simpl.
  - rewrite Exists_nil, elem_of_nil. reflexivity.
  - rewrite Exists_cons, elem_of_app, IH, py_range_unit_elem_iff.
    reflexivity.
Qed.

(** *** choose_if_bridged *)

Lemma get_volume_bitmap_inv (os : OS) (vh : handle) (n : Z) (w w' : World)
    (volume_bitmap : list Z) (bitmap_size : Z) :
  get_volume_bitmap os vh n w = (Ret (volume_bitmap, bitmap_size), w') ->
  volume_bitmap = (os_bitmap os (clock w)).2
  /\ os_error os (clock w) = None
  /\ w' = set_trace (trace w ++ [EvGetVolumeBitmap vh])
            (set_clock (S (clock w)) w).
Proof.
  unfold get_volume_bitmap, DeviceIoControl_GET_VOLUME_BITMAP, syscall, tick,
    emit, assert_, mbind, M_bind, bind, ret, raise. simpl.
  destruct (os_error os (clock w)); [discriminate|]. simpl.
  destruct (os_bitmap os (clock w)) as [[starting_lcn size] bm]. simpl.
  destruct (starting_lcn =? 0); [|discriminate].
  intros H. injection H as <- <- <-. repeat split.
Qed.

(** What [choose_if_bridged] returns for a list of original extents: the
    list it was given, or a list that is shorter by more than ten times
    the number of allocated clusters the bridging adds, and whose clusters
    all lie in the bridged extents and are free in the bitmap that was
    read. *)
Theorem choose_if_bridged_result (os : OS) (volume_handle : handle)
    (total_clusters : Z) (orig_extents bridged_extents : list extent)
    (w w' : World) (chosen : extents_obj) :
  choose_if_bridged os volume_handle total_clusters
    (ExtentList orig_extents) bridged_extents w = (Ret chosen, w') ->
  let volume_bitmap := (os_bitmap os (clock w)).2 in
  let allocated extents :=
    Z.of_nat (length (List.filter (is_allocated volume_bitmap)
                        (clusters_of extents))) in
  chosen = ExtentList orig_extents
  \/ exists l,
       chosen = ExtentList l
       /\ 10 * (allocated bridged_extents - allocated orig_extents)
          < Z.of_nat (length orig_extents) - Z.of_nat (length l)
       /\ forall c, in_extents c l ->
                    in_extents c bridged_extents
                    /\ check_mapped_bit volume_bitmap c = Ret false.
Proof.
  intros H volume_bitmap allocated. unfold choose_if_bridged in H.
  step H bm w1 S1. destruct bm as [bitmap bitmap_size].
  apply get_volume_bitmap_inv in S1 as (Hbm & _ & _).
  fold volume_bitmap in Hbm. subst bitmap.
  step H items w2 S2. simpl in S2. injection S2 as <- <-.
  step H to w3 S3. destruct to as [[cfo cao] alo].
  unfold lift in S3. injection S3 as S3 <-.
  step H tb w4 S4. destruct tb as [[cfb cab] alb].
  unfold lift in S4. injection S4 as S4 <-.
  cbv zeta in H. step H len w5 S5. simpl in S5. injection S5 as <- <-.
  destruct (0 <? _) eqn:E; injection H as <- <-; [|now left].
  right. apply Z.ltb_lt in E.
  unfold check_extents in S3, S4.
  apply check_extents_loop_spec in S3 as (-> & _ & _ & _).
  apply check_extents_loop_spec in S4 as (-> & _ & -> & Hall).
  simpl in *.
  eexists. split; [reflexivity|]. split; [unfold allocated; lia|].
  intros c Hc. apply extents_a_minus_b_sound in Hc as [Hin Hout].
  split; [exact Hin|].
  apply clusters_of_elem in Hin.
  rewrite Forall_forall in Hall. rewrite (Hall c Hin).
  destruct (is_allocated volume_bitmap c) eqn:Ha; [|reflexivity].
  exfalso. apply Hout. unfold in_extents. apply Exists_exists.
  exists (c, c). split; [|unfold in_extent; simpl; lia].
  apply list_elem_of_fmap. exists c. split; [reflexivity|].
  apply list_elem_of_In, filter_In. split; [|exact Ha].
  now apply list_elem_of_In.
Qed.

Lemma choose_if_bridged_result_witness :
  let volume_bitmap := (os_bitmap free_volume_os (clock empty_world)).2 in
  let allocated extents :=
    Z.of_nat (length (List.filter (is_allocated volume_bitmap)
                        (clusters_of extents))) in
  ExtentList [(0, 2)] = ExtentList [(0, 0); (2, 2)]
  \/ exists l,
       ExtentList [(0, 2)] = ExtentList l
       /\ 10 * (allocated [(0, 2)] - allocated [(0, 0); (2, 2)])
          < Z.of_nat (length [(0, 0); (2, 2)]) - Z.of_nat (length l)
       /\ forall c, in_extents c l ->
                    in_extents c [(0, 2)]
                    /\ check_mapped_bit volume_bitmap c = Ret false.
Proof.
  apply (choose_if_bridged_result free_volume_os 1%positive 8
           [(0, 0); (2, 2)] [(0, 2)] empty_world
           (choose_if_bridged free_volume_os 1%positive 8
              (ExtentList [(0, 0); (2, 2)]) [(0, 2)] empty_world).2).
  vm_compute. reflexivity.
Defined.

(** *** split_extent on a short extent *)

(** An extent of at most 19 clusters is cut into its single clusters (and
    an extent that ends before it starts into nothing). *)
Theorem split_extent_small (lcn_start lcn_end : Z) :
  lcn_end - lcn_start < 19 ->
  split_extent lcn_start lcn_end
  = Some ((fun c => (c, c)) <$> py_range lcn_start (lcn_end + 1) 1).
Proof.
  intros H. unfold split_extent.
  assert (above_threshold (lcn_end - lcn_start + 1) 0 = false) as Hno.
  { unfold above_threshold, split_factor.
    destruct (0 <? lcn_end - lcn_start + 1) eqn:E; [|reflexivity].
    apply Z.ltb_lt in E. simpl andb. apply Z.ltb_ge.
    transitivity (19 ^ 10); [apply Z.pow_le_mono_l; lia|].
    vm_compute. discriminate. }
  simpl exponent_loop. rewrite Hno. simpl. f_equal.
  unfold split_chunks, split_factor. change (10 ^ 0) with 1.
  apply list_fmap_ext. intros i x Hx.
  apply list_elem_of_lookup_2, py_range_unit_elem in Hx. f_equal. lia.
Qed.

Lemma split_extent_small_witness :
  split_extent 100 104
  = Some ((fun c => (c, c)) <$> py_range 100 (104 + 1) 1).
Proof. apply (split_extent_small 100 104). lia. Defined.

(** *** logical_ranges_to_extents: bridging and files without holes *)

Lemma merge_scan_no_hole (lcn : Z) (pending : list (Z * Z)) (index : nat) :
  Forall (fun r => 0 <= r.2) pending ->
  merge_scan lcn pending index = index.
Proof.
  intros H. destruct pending as [|r0 [|r1 [|r2 tl]]]; try reflexivity.
  simpl. apply Forall_cons in H as [_ H]. apply Forall_cons in H as [H1 _].
  rewrite (proj2 (Z.ltb_ge (r1.2) 0)) by lia.
  now rewrite andb_false_r.
Qed.

Lemma bridged_loop_no_holes (ranges : list (Z * Z)) :
  Forall (fun r => 0 <= r.2) ranges ->
  forall (fuel : nat) (vcn_count : Z) (index : nat),
    (length ranges <= index + fuel)%nat ->
    (bridged_loop fuel ranges vcn_count index).1
    = ranges_loop vcn_count (drop index ranges).
Proof.
  intros Hall. induction fuel as [|fuel IH]; intros vcn_count index Hf.
  - simpl. now rewrite drop_ge by lia.
  - simpl. destruct (ranges !! index) as [[vcn lcn]|] eqn:E.
    + assert (0 <= lcn) as Hlcn.
      { rewrite Forall_forall in Hall.
        apply (Hall (vcn, lcn)), (list_elem_of_lookup_2 _ _ _ E). }
      rewrite (proj2 (Z.ltb_ge lcn 0)) by lia.
      rewrite merge_scan_no_hole, Nat.eqb_refl by now apply Forall_drop.
      rewrite (drop_S _ _ _ E). simpl.
      rewrite (proj2 (Z.ltb_ge lcn 0)) by lia.
      destruct (0 <=? vcn - vcn_count); [|reflexivity].
      specialize (IH vcn (index + 1)%nat).
      replace (index + 1)%nat with (S index) in * by lia.
      destruct (bridged_loop fuel ranges vcn (S index)) as [[ys st] out].
      simpl in IH. rewrite <- IH by lia. reflexivity.
    + apply lookup_ge_None in E. now rewrite drop_ge by lia.
Qed.

(** For a mapping without holes (no negative LCN) the bridging pass
    yields what the plain pass yields, the failed assertion included. *)
Theorem logical_ranges_to_extents_bridging_without_holes
    (ranges : list (Z * Z)) :
  Forall (fun r => 0 <= r.2) ranges ->
  logical_ranges_to_extents ranges true
  = logical_ranges_to_extents ranges false.
Proof.
  intros H. unfold logical_ranges_to_extents. simpl.
  now rewrite (bridged_loop_no_holes ranges H) by lia.
Qed.

Lemma logical_ranges_to_extents_bridging_without_holes_witness :
  logical_ranges_to_extents [(4, 100); (6, 300)] true
  = logical_ranges_to_extents [(4, 100); (6, 300)] false.
Proof.
  apply (logical_ranges_to_extents_bridging_without_holes
           [(4, 100); (6, 300)]).
  repeat constructor; simpl; lia.
Defined.

(** *** write_zero_fill *)

Lemma write_zero_fill_loop_events (os : OS) (h : handle) (fuel : nat) :
  forall (len : Z) (w w' : World) (u : unit),
    write_zero_fill_loop os fuel h len w = (Ret u, w') ->
    trace w' = trace w ++ zero_fill_writes h len.
Proof.
  unfold zero_fill_writes. change WRITE_BUF_SIZE with 524288.
  induction fuel as [|fuel IH]; intros len w w' u H; simpl in H;
    destruct (0 <? len) eqn:E.
  - discriminate.
  - injection H as _ <-. now rewrite app_nil_r.
  - apply Z.ltb_lt in E. change WRITE_BUF_SIZE with 524288 in H.
    destruct (524288 <=? len) eqn:Hbig.
    + apply Z.leb_le in Hbig.
      step H r w1 S1. destruct r as [code written].
      apply WriteFile_inv in S1.
      step H v w2 S2. apply assert_inv in S2 as [Hw ->].
      apply Z.eqb_eq in Hw. subst written.
      apply IH in H. rewrite H, S1, <- app_assoc. f_equal.
      assert (len / 524288 = (len - 524288) / 524288 + 1) as Hq.
      { replace len with (len - 524288 + 1 * 524288) at 1 by lia.
        apply Z.div_add. lia. }
      assert (len mod 524288 = (len - 524288) mod 524288) as Hr.
      { replace len with (len - 524288 + 1 * 524288) at 1 by lia.
        apply Z.mod_add. lia. }
      rewrite Hq, Hr.
      assert (0 <= (len - 524288) / 524288) by (apply Z.div_pos; lia).
      replace (Z.to_nat ((len - 524288) / 524288 + 1))
        with (S (Z.to_nat ((len - 524288) / 524288))) by lia.
      simpl replicate.
      destruct (0 <? len - 524288) eqn:E2; [reflexivity|].
      apply Z.ltb_ge in E2. replace (len - 524288) with 0 by lia.
      reflexivity.
    + apply Z.leb_gt in Hbig.
      step H r w1 S1. destruct r as [code written].
      apply WriteFile_inv in S1.
      step H v w2 S2. apply assert_inv in S2 as [Hw ->].
      apply Z.eqb_eq in Hw. subst written.
      apply IH in H. rewrite H, S1. simpl. rewrite app_nil_r. f_equal.
      rewrite Z.div_small, Z.mod_small by lia. simpl.
      now rewrite (proj2 (Z.ltb_lt 0 len)) by lia.
  - injection H as _ <-. now rewrite app_nil_r.
Qed.

Lemma write_zero_fill_trace (os : OS) (file_handle : handle)
    (write_length_bytes : Z) (w w' : World) (u : unit) :
  write_zero_fill os file_handle write_length_bytes w = (Ret u, w') ->
  trace w'
  = trace w ++ zero_fill_writes file_handle write_length_bytes
      ++ [EvFlushFileBuffers file_handle].
Proof.
  intros H. unfold write_zero_fill in H.
  step H v w1 S1. apply assert_inv in S1 as [_ ->].
  step H v2 w2 S2. apply write_zero_fill_loop_events in S2.
  apply syscall_emit_inv in H. now rewrite H, S2, <- app_assoc.
Qed.

(** When [write_zero_fill] returns, it has written whole buffers of
    512 KiB, then the rest if there is one, and then flushed; nothing else
    was done, and every write was a full one. *)
Theorem write_zero_fill_events (os : OS) (file_handle : handle)
    (write_length_bytes : Z) (w w' : World) (u : unit) :
  write_zero_fill os file_handle write_length_bytes w = (Ret u, w') ->
  trace w'
  = trace w ++ zero_fill_writes file_handle write_length_bytes
      ++ [EvFlushFileBuffers file_handle].
Proof. apply write_zero_fill_trace. Qed.

Lemma write_zero_fill_events_witness :
  trace (write_zero_fill direct_os 1%positive 1048577
           (world_open "C:\a.bin")).2
  = trace (world_open "C:\a.bin")
      ++ zero_fill_writes 1%positive 1048577
      ++ [EvFlushFileBuffers 1%positive].
Proof.
  apply (write_zero_fill_events direct_os 1%positive 1048577
           (world_open "C:\a.bin") _ tt).
  vm_compute. reflexivity.
Defined.

(** *** wipe_file_direct *)

Lemma lock_length_covers (file_size : Z) :
  0 <= file_size ->
  file_size
  <= Z.land file_size 65535 + Z.shiftr file_size 16 * 2 ^ 32.
Proof.
  intros H. change 65535 with (Z.ones 16). rewrite Z.land_ones by lia.
  rewrite Z.shiftr_div_pow2 by lia.
  pose proof (Z.div_mod file_size (2 ^ 16) ltac:(lia)) as D.
  assert (0 <= file_size / 2 ^ 16) by (apply Z.div_pos; lia).
  pose proof (Z.mod_pos_bound file_size (2 ^ 16) ltac:(lia)).
  nia.
Qed.

(** When [wipe_file_direct] returns, it has locked a range from offset 0
    that is at least as long as the file, zero-filled the byte length of
    the last extent (the file size when there is no extent), and
    flushed. *)
Theorem wipe_file_direct_events (os : OS) (file_handle : handle)
    (extents : list extent) (cluster_size file_size : Z) (w w' : World)
    (u : unit) :
  0 <= file_size ->
  wipe_file_direct os file_handle extents cluster_size file_size w
  = (Ret u, w') ->
  exists len_low len_high : Z,
    file_size <= len_low + len_high * 2 ^ 32
    /\ trace w'
       = trace w ++ [EvLockFile file_handle 0 0 len_low len_high]
           ++ zero_fill_writes file_handle
                (match last extents with
                 | Some x => extent_length x * cluster_size
                 | None => file_size
                 end)
           ++ [EvFlushFileBuffers file_handle].
Proof.
  intros Hsize H. unfold wipe_file_direct in H.
  step H v w1 S1. apply assert_inv in S1 as [_ ->].
  step H v2 w2 S2. apply syscall_emit_inv in S2.
  cbv zeta in H. apply write_zero_fill_trace in H.
  exists (Z.land file_size 65535), (Z.shiftr file_size 16).
  split; [now apply lock_length_covers|].
  rewrite H, S2, <- app_assoc. f_equal. f_equal. f_equal.
  destruct extents as [|x l]; simpl; [reflexivity|].
  rewrite (foldl_last_extent
             (fun '(lcn_start, lcn_end) =>
                (lcn_end - lcn_start + 1) * cluster_size)).
  unfold extent_length. destruct l as [|y l].
  - simpl. now destruct x.
  - rewrite last_cons_cons.
    destruct (last (y :: l)) as [[a b]|] eqn:E; [reflexivity|].
    now apply last_None in E.
Qed.

Lemma wipe_file_direct_events_witness :
  exists len_low len_high : Z,
    100000 <= len_low + len_high * 2 ^ 32
    /\ trace (wipe_file_direct direct_os 1%positive [(10, 19); (40, 44)]
                4096 100000 (world_open "C:\a.bin")).2
       = trace (world_open "C:\a.bin")
           ++ [EvLockFile 1%positive 0 0 len_low len_high]
           ++ zero_fill_writes 1%positive
                (match last [(10, 19); (40, 44)] with
                 | Some x => extent_length x * 4096
                 | None => 100000
                 end)
           ++ [EvFlushFileBuffers 1%positive].
Proof.
  apply (wipe_file_direct_events direct_os 1%positive [(10, 19); (40, 44)]
           4096 100000 (world_open "C:\a.bin") _ tt); [lia|].
  vm_compute. reflexivity.
Defined.

(** *** poll_clusters_freed *)

Lemma poll_loop_rounds (os : OS) (vh : handle) (n : Z) (o : extents_obj)
    (attempts : nat) :
  forall (w w' : World) (freed : bool),
    poll_loop os attempts vh n o w = (Ret freed, w') ->
    exists rounds : nat,
      trace w'
      = trace w ++ mjoin (replicate rounds (poll_round vh))
          ++ (if freed then [EvGetVolumeBitmap vh] else [])
      /\ (if freed then (rounds < attempts)%nat else rounds = attempts).
Proof.
  induction attempts as [|attempts IH]; intros w w' freed H; simpl in H.
  - injection H as <- <-. exists 0%nat. simpl.
    split; [now rewrite app_nil_r|reflexivity].
  - step H bm w1 S1. destruct bm as [volume_bitmap bitmap_size].
    apply get_volume_bitmap_inv in S1 as (_ & _ & ->).
    step H items w2 S2.
    assert (trace w2 = trace w ++ [EvGetVolumeBitmap vh]) as T2.
    { destruct o; simpl in S2; injection S2 as _ <-; reflexivity. }
    step H counts w3 S3. destruct counts as [[cf ca] al].
    unfold lift in S3. injection S3 as _ <-.
    destruct (ca <? cf).
    + injection H as <- <-. exists 0%nat. simpl. split; [exact T2|lia].
    + step H v w4 S4. unfold Sleep, emit in S4. injection S4 as _ <-.
      apply IH in H as (rounds & T & R). exists (S rounds). split.
      * rewrite T. simpl trace. rewrite T2.
        change (1000 / 10) with 100. simpl. now rewrite <- !app_assoc.
      * destruct freed; lia.
Qed.

(** [poll_clusters_freed] on extents that are present: when it answers
    False it has read the bitmap 70 times and slept 100 ms after each
    reading, seven seconds in all; when it answers True it has done fewer
    than 70 such rounds and one more reading. *)
Theorem poll_clusters_freed_rounds (os : OS) (volume_handle : handle)
    (total_clusters : Z) (orig_extents : extents_obj) (w w' : World)
    (freed : bool) :
  truthy orig_extents = true ->
  poll_clusters_freed os volume_handle total_clusters orig_extents w
  = (Ret freed, w') ->
  exists rounds : nat,
    trace w'
    = trace w ++ mjoin (replicate rounds (poll_round volume_handle))
        ++ (if freed then [EvGetVolumeBitmap volume_handle] else [])
    /\ (if freed then (rounds < 70)%nat else rounds = 70%nat).
Proof.
  intros Ht H. unfold poll_clusters_freed in H. rewrite Ht in H.
  change (negb true) with false in H. cbv iota zeta in H.
  change (7 * 10)%nat with 70%nat in H.
  now apply (poll_loop_rounds os volume_handle total_clusters orig_extents 70).
Qed.

Lemma poll_clusters_freed_rounds_witness :
  exists rounds : nat,
    trace (poll_clusters_freed full_volume_os 1%positive 256
             (ExtentList [(10, 11)]) empty_world).2
    = trace empty_world ++ mjoin (replicate rounds (poll_round 1%positive))
        ++ []
    /\ rounds = 70%nat.
Proof.
  apply (poll_clusters_freed_rounds full_volume_os 1%positive 256
           (ExtentList [(10, 11)]) empty_world _ false); [reflexivity|].
  vm_compute. reflexivity.
Defined.

(** Whenever [poll_clusters_freed] returns, a generator object passed to
    it for [orig_extents] has nothing left to yield. *)
Theorem poll_clusters_freed_consumes_generator (os : OS)
    (volume_handle : handle) (total_clusters : Z) (g : positive)
    (w w' : World) (freed : bool) :
  poll_clusters_freed os volume_handle total_clusters (ExtentGen g) w
  = (Ret freed, w') ->
  (iterate (ExtentGen g) w').1 = Ret [].
Proof. apply poll_clusters_freed_exhausts. Qed.

Lemma poll_clusters_freed_consumes_generator_witness :
  (iterate (ExtentGen 1%positive)
     (poll_clusters_freed full_volume_os 2%positive 256
        (ExtentGen 1%positive) (world_generating [(10, 11)])).2).1
  = Ret [].
Proof.
  apply (poll_clusters_freed_consumes_generator full_volume_os 2%positive
           256 1%positive (world_generating [(10, 11)]) _ false).
  vm_compute. reflexivity.
Defined.

(** *** get_extents: the errors of the retrieval-pointers query *)

Lemma get_extents_query_retries (os : OS) (h : handle) (retries : nat) :
  forall (sizes : list Z) (w : World),
    (retries <= length sizes)%nat ->
    buffer_too_small os (clock w) retries ->
    get_extents_query os h sizes w
    = get_extents_query os h (drop retries sizes)
        (set_clock (clock w + retries) w).
Proof.
  induction retries as [|retries IH]; intros sizes w Hlen Hsmall.
  - rewrite drop_0, Nat.add_0_r. now destruct w.
  - destruct sizes as [|size rest]; [simpl in Hlen; lia|].
    simpl in Hlen. simpl drop.
    transitivity (get_extents_query os h rest (set_clock (S (clock w)) w)).
    + simpl get_extents_query.
      unfold try_except, DeviceIoControl_GET_RETRIEVAL_POINTERS, syscall,
        tick, mbind, M_bind, bind, ret, raise. simpl.
      destruct (Hsmall 0%nat ltac:(lia)) as [E|E];
        rewrite Nat.add_0_r in E; rewrite E; reflexivity.
    + rewrite (IH rest (set_clock (S (clock w)) w)).
      * unfold set_clock. simpl. do 2 f_equal. lia.
      * lia.
      * intros i Hi. specialize (Hsmall (S i) ltac:(lia)).
        replace (clock (set_clock (S (clock w)) w) + i)%nat
          with (clock w + S i)%nat by (simpl; lia).
        exact Hsmall.
Qed.

(** When the retrieval-pointers query fails for want of buffer space
    (error 122 or 234) with each of the four buffer sizes, [get_extents]
    raises the plain exception after exactly four queries. *)
Theorem get_extents_gives_up (os : OS) (file_handle : handle)
    (translate_to_extents : bool) (w : World) :
  buffer_too_small os (clock w) 4 ->
  get_extents os file_handle translate_to_extents w
  = (Raise PlainException, set_clock (clock w + 4) w).
Proof.
  intros H. unfold get_extents.
  unfold mbind at 1. unfold M_bind at 1. unfold bind at 1.
  rewrite (get_extents_query_retries os file_handle 4) by (simpl; lia || exact H).
  reflexivity.
Qed.

Lemma get_extents_gives_up_witness :
  get_extents (failing_os 0 122) 1%positive true empty_world
  = (Raise PlainException, set_clock (clock empty_world + 4) empty_world).
Proof.
  apply (get_extents_gives_up (failing_os 0 122) 1%positive true empty_world).
  intros i Hi. left. reflexivity.
Defined.

(** After fewer than four failures for want of buffer space, any other
    error ends [get_extents]: error 38 (end of file) makes it return the
    empty list, every other code is raised again as it came. *)
Theorem get_extents_error (os : OS) (file_handle : handle)
    (translate_to_extents : bool) (w : World) (retries : nat) (code : Z) :
  (retries < 4)%nat ->
  buffer_too_small os (clock w) retries ->
  os_error os (clock w + retries) = Some code ->
  code <> 122 -> code <> 234 ->
  get_extents os file_handle translate_to_extents w
  = (if code =? 38 then Ret [] else Raise (WinError code),
     set_clock (S (clock w + retries)) w).
Proof.
  intros Hr Hsmall Herr H122 H234. unfold get_extents.
  unfold mbind at 1. unfold M_bind at 1. unfold bind at 1.
  rewrite (get_extents_query_retries os file_handle retries)
    by (simpl; lia || exact Hsmall).
  assert (exists size rest,
            drop retries [4 * 1024; 32 * 1024; 256 * 1024; 2 * 1024 ^ 2]
            = size :: rest) as (size & rest & ->).
  { destruct retries as [|[|[|[|?]]]]; try lia; simpl; eauto. }
  simpl get_extents_query.
  unfold try_except, DeviceIoControl_GET_RETRIEVAL_POINTERS, syscall,
    tick, mbind, M_bind, bind, ret, raise. simpl.
  rewrite Herr. destruct (code =? 38); [reflexivity|].
  rewrite (proj2 (Z.eqb_neq code 122)), (proj2 (Z.eqb_neq code 234))
    by assumption.
  reflexivity.
Qed.

Lemma get_extents_error_witness :
  get_extents (failing_os 2 38) 1%positive true empty_world
  = (if 38 =? 38 then Ret [] else Raise (WinError 38),
     set_clock (S (clock empty_world + 2)) empty_world).
Proof.
  apply (get_extents_error (failing_os 2 38) 1%positive true empty_world 2
           38); [lia| |reflexivity|lia|lia].
  intros i Hi. right. simpl.
  destruct i as [|[|i]]; [reflexivity|reflexivity|lia].
Defined.

(** *** clean_up *)

(** [clean_up] never raises, whatever it is given: it returns, and it
    opens no handle, creates no file and does nothing else to the
    outside. *)
Theorem clean_up_never_raises (os : OS)
    (file_handle volume_handle : option handle)
    (tmp_file_path : option string) (w : World) :
  exists w' : World,
    clean_up os file_handle volume_handle tmp_file_path w = (Ret tt, w')
    /\ handles w' ⊆ handles w
    /\ files w' ⊆ files w
    /\ trace w' = trace w.
Proof.
  assert (forall (h : option handle) (w0 : World),
            exists (r : outcome unit) (w1 : World),
              match h with Some h => CloseHandle h | None => ret tt end w0
              = (r, w1)
              /\ (r = Ret tt \/ exists e, r = Raise e)
              /\ handles w1 ⊆ handles w0 /\ files w1 = files w0
              /\ trace w1 = trace w0) as Hclose.
  { intros [h|] w0; [|exists (Ret tt), w0; repeat split; auto].
    unfold CloseHandle. destruct (handles w0 !! h) eqn:E.
    - eexists _, _. split; [reflexivity|]. simpl.
      repeat split; auto. apply delete_subseteq.
    - eexists _, _. split; [reflexivity|]. repeat split; eauto. }
  assert (forall w0 : World,
            exists (r : outcome unit) (w1 : World),
              match tmp_file_path with
              | Some p =>
                  if bool_decide (p = "") then ret tt else DeleteFile os p
              | None => ret tt
              end w0 = (r, w1)
              /\ (r = Ret tt \/ exists e, r = Raise e)
              /\ handles w1 = handles w0 /\ files w1 ⊆ files w0
              /\ trace w1 = trace w0) as Hdelete.
  { intros w0. destruct tmp_file_path as [p|];
      [|exists (Ret tt), w0; repeat split; auto].
    case_bool_decide; [exists (Ret tt), w0; repeat split; auto|].
    unfold DeleteFile, syscall, tick, unlink, mbind, M_bind, bind, ret,
      raise. simpl.
    destruct (os_error os (clock w0)); simpl.
    - eexists _, _. split; [reflexivity|]. repeat split; eauto.
    - case_bool_decide.
      + eexists _, _. split; [reflexivity|]. simpl.
        repeat split; auto. set_solver.
      + eexists _, _. split; [reflexivity|]. repeat split; eauto. }
  unfold clean_up, try_except.
  unfold mbind at 1 2. unfold M_bind at 1 2. unfold bind at 1 2.
  destruct (Hclose file_handle w) as (r1 & w1 & -> & [->|[e ->]] & H1 & F1 & T1).
  2:{ exists w1. rewrite F1, T1. repeat split; auto. }
  destruct (Hclose volume_handle w1)
    as (r2 & w2 & -> & [->|[e ->]] & H2 & F2 & T2).
  2:{ exists w2. rewrite F2, F1, T2, T1. repeat split; auto.
      now transitivity (handles w1). }
  destruct (Hdelete w2) as (r3 & w3 & -> & [->|[e ->]] & H3 & F3 & T3);
    exists w3; rewrite H3, T3, T2, T1; (split; [reflexivity|]);
    (split; [now transitivity (handles w1)|]);
    (split; [|reflexivity]); rewrite <- F1, <- F2; exact F3.
Qed.

(** *** file_wipe on a volume it does not support *)

(** When [get_volume_information] raises (the volume is a network drive,
    a CD-ROM, of unknown type or UDF, or the system refuses the query),
    [file_wipe] raises the same exception, with no handle opened, no file
    created and nothing written. *)
Theorem file_wipe_unsupported_volume (os : OS) (file_name : string)
    (w w1 : World) (e : exn) :
  str_lower (os_name os) = "nt" ->
  get_volume_information os
    (volume_from_file os (extended_path os file_name)) w = (Raise e, w1) ->
  file_wipe os file_name w = (Raise e, w1)
  /\ handles w1 = handles w /\ files w1 = files w /\ trace w1 = trace w.
Proof.
  intros Hnt Hvol. split.
  - unfold file_wipe, check_os. rewrite Hnt.
    rewrite bool_decide_eq_true_2 by reflexivity.
    unfold mbind, M_bind, bind. simpl. now rewrite Hvol.
  - pose proof (get_volume_information_keeps_resources os
                  (volume_from_file os (extended_path os file_name)) w) as K.
    rewrite Hvol in K. unfold resources in K. simpl in K.
    injection K as K1 K2.
    assert (keeps trace (get_volume_information os
              (volume_from_file os (extended_path os file_name)))) as T
      by (unfold get_volume_information; keeps_structure trace_leaf).
    specialize (T w). rewrite Hvol in T. auto.
Qed.

Lemma file_wipe_unsupported_volume_witness :
  file_wipe cdrom_os "D:\a.bin" (world_with "D:\a.bin")
  = (Raise UnsupportedFileSystemError,
     set_clock 3 (world_with "D:\a.bin"))
  /\ handles (set_clock 3 (world_with "D:\a.bin"))
     = handles (world_with "D:\a.bin")
  /\ files (set_clock 3 (world_with "D:\a.bin"))
     = files (world_with "D:\a.bin")
  /\ trace (set_clock 3 (world_with "D:\a.bin"))
     = trace (world_with "D:\a.bin").
Proof.
  apply (file_wipe_unsupported_volume cdrom_os "D:\a.bin"
           (world_with "D:\a.bin")); [reflexivity|].
  vm_compute. reflexivity.
Defined.

(** *** wipe_extent_by_defrag gives back what it opens *)

(** Whenever [wipe_extent_by_defrag] returns, the handles that are open
    are those that were open before the call, and the only file it may
    leave behind is the temporary file. *)
Theorem wipe_extent_by_defrag_closes_temporary_file (os : OS)
    (volume_handle : handle) (lcn_start lcn_end cluster_size
      total_clusters : Z) (tmp_file_path : string) (fuel : nat)
    (w w' : World) (wiped : bool) :
  wipe_extent_by_defrag os fuel volume_handle lcn_start lcn_end cluster_size
    total_clusters tmp_file_path w = (Ret wiped, w') ->
  handles w' = handles w /\ files w' ⊆ files w ∪ {[tmp_file_path]}.
Proof.
  intros H.
  exact (wipe_extent_by_defrag_gives_back os volume_handle cluster_size
           total_clusters tmp_file_path fuel lcn_start lcn_end w w' wiped H).
Qed.

Lemma wipe_extent_by_defrag_closes_temporary_file_witness :
  handles (wipe_extent_by_defrag free_volume_os 2 1%positive 2 3 4096 8
             "C:\bbtemp.dat" empty_world).2
  = handles empty_world
  /\ files (wipe_extent_by_defrag free_volume_os 2 1%positive 2 3 4096 8
              "C:\bbtemp.dat" empty_world).2
     ⊆ files empty_world ∪ {[ "C:\bbtemp.dat"%string ]}.
Proof.
  apply (wipe_extent_by_defrag_closes_temporary_file free_volume_os
           1%positive 2 3 4096 8 "C:\bbtemp.dat" 2 empty_world _ true).
  vm_compute. reflexivity.
Defined.

(** ** FileUtilities.py: what the functions do in general *)

(** *** extended_path and extended_path_undo *)

(** [extended_path] applied twice is [extended_path] applied once. *)
Theorem extended_path_idempotent (os : OS) (path : string) :
  extended_path os (extended_path os path) = extended_path os path.
Proof.
  assert (forall r, startswith r "\\?" = true -> extended_path os r = r)
    as Hfix.
  { intros r Hr. unfold extended_path. rewrite Hr. now destruct (_ && _). }
  unfold extended_path at 2 3.
  destruct (bool_decide (os_name os = "nt")
            && negb (bool_decide
                       ("Sysnative" ∈ str_split (os_sep os) path))) eqn:E.
  - destruct (startswith path "\\?") eqn:E1; [now apply Hfix|].
    destruct (startswith path "\\"); now apply Hfix.
  - unfold extended_path. now rewrite E.
Qed.

Lemma prefix_cons (c d : ascii) (a s : string) :
  String.prefix (String c a) (String d s)
  = if ascii_dec c d then String.prefix a s else false.
Proof. reflexivity. Qed.

Lemma prefix_app_cancel (a b s : string) :
  String.prefix (a +:+ b) (a +:+ s) = String.prefix b s.
Proof.
  induction a as [|c a IH]; [reflexivity|].
  change (String.prefix (String c (a +:+ b)) (String c (a +:+ s))
          = String.prefix b s).
  rewrite prefix_cons. destruct (ascii_dec c c); [exact IH|congruence].
Qed.

Lemma prefix_app_true (a b : string) :
  forall s : string,
    String.prefix (a +:+ b) s = true -> String.prefix a s = true.
Proof.
  induction a as [|c a IH]; intros s H; [now destruct s|].
  destruct s as [|d s]; [discriminate|].
  change (String.prefix (String c (a +:+ b)) (String d s) = true) in H.
  rewrite prefix_cons in *.
  destruct (ascii_dec c d); [now apply IH|discriminate].
Qed.

Lemma prefix_drop (a : string) :
  forall s : string,
    String.prefix a s = true -> s = a +:+ str_drop (String.length a) s.
Proof.
  induction a as [|c a IH]; intros s H; [reflexivity|].
  destruct s as [|d s]; [discriminate|].
  rewrite prefix_cons in H.
  destruct (ascii_dec c d) as [->|]; [|discriminate].
  change (String d s = String d (a +:+ str_drop (String.length a) s)).
  f_equal. now apply IH.
Qed.

(** [extended_path_undo] takes [extended_path] back, for a path that
    does not already carry the prefix and does not start with [unc] (a
    relative path such as [uncle\a] comes back without its first three
    characters). *)
Theorem extended_path_round_trip (os : OS) (path : string) :
  startswith path "\\?" = false ->
  startswith path "unc" = false ->
  extended_path_undo os (extended_path os path) = path.
Proof.
  intros Hext Hunc. unfold extended_path, extended_path_undo.
  destruct (bool_decide (os_name os = "nt")) eqn:Ent; [|reflexivity].
  cbn [andb].
  assert (startswith path "\\?\unc" = false) as Hext'.
  { destruct (startswith path "\\?\unc") eqn:E; [|reflexivity].
    apply (prefix_app_true "\\?" "\unc") in E. unfold startswith in Hext.
    congruence. }
  destruct (negb _).
  - rewrite Hext. destruct (startswith path "\\") eqn:E2.
    + apply prefix_drop in E2.
      change (startswith ("\\?\unc\" +:+ str_drop 2 path) "\\?\unc")
        with (String.prefix ("\\?\unc" +:+ "")
                ("\\?\unc" +:+ ("\" +:+ str_drop 2 path))).
      rewrite prefix_app_cancel. cbn [String.prefix].
      cbn [String.append str_drop]. exact (eq_sym E2).
    + change (startswith ("\\?\" +:+ path) "\\?\unc")
        with (String.prefix ("\\?\" +:+ "unc") ("\\?\" +:+ path)).
      rewrite prefix_app_cancel. unfold startswith in Hunc. rewrite Hunc.
      change (startswith ("\\?\" +:+ path) "\\?")
        with (String.prefix ("\\?" +:+ "") ("\\?" +:+ ("\" +:+ path))).
      rewrite prefix_app_cancel. reflexivity.
  - now rewrite Hext', Hext.
Qed.

Lemma extended_path_round_trip_witness :
  extended_path_undo direct_os (extended_path direct_os "\\srv\share\a")
  = "\\srv\share\a"%string.
Proof.
  apply (extended_path_round_trip direct_os "\\srv\share\a"); reflexivity.
Defined.

(** *** truncate_f *)

Lemma truncate_f_raises (os : OS) (f : handle) (w : World) (e : exn) :
  (truncate_f os f w).1 = Raise e ->
  exists errno : Z, e = OSError errno /\ errno <> ENOSPC.
Proof.
  unfold truncate_f, try_except.
  destruct ((py_truncate os f 0;; py_flush os f;; os_fsync os f) w)
    as [[u|e0|] w1] eqn:E; simpl; try discriminate.
  assert (exists errno, e0 = OSError errno) as [errno ->].
  { revert E.
    unfold py_truncate, py_flush, os_fsync, pycall, tick, emit,
      mbind, M_bind, bind, ret, raise. simpl.
    repeat (match goal with
            | |- context [os_error os ?t] =>
                destruct (os_error os t) eqn:?; simpl
            end);
      intros [= <- _]; eauto. }
  destruct (errno =? ENOSPC) eqn:En; simpl; [discriminate|].
  intros [= <-]. exists errno. split; [reflexivity|].
  now apply Z.eqb_neq.
Qed.

(** [truncate_f] never raises for a full disk: what it raises is an
    OSError with another error number. *)
Theorem truncate_f_disk_full (os : OS) (f : handle) (w : World) (e : exn) :
  (truncate_f os f w).1 = Raise e ->
  exists errno : Z, e = OSError errno /\ errno <> ENOSPC.
Proof. apply truncate_f_raises. Qed.

Lemma truncate_f_disk_full_witness :
  exists errno : Z, OSError 13 = OSError errno /\ errno <> ENOSPC.
Proof.
  apply (truncate_f_disk_full refusing_os 1%positive (world_open "/tmp/a")).
  reflexivity.
Defined.

(** *** wipe_contents *)

Lemma py_open_inv (os : OS) (path : string) (w w' : World) (f : handle) :
  py_open os path w = (Ret f, w') ->
  handles w !! f = None
  /\ handles w' = <[f := path]> (handles w)
  /\ files w' = {[path]} ∪ files w.
Proof.
  unfold py_open, pycall, tick, open_handle, mbind, M_bind, bind, ret, raise.
  simpl. destruct (os_error os (clock w)); [discriminate|].
  intros [= <- <-]. simpl. split; [|split]; try reflexivity.
  apply not_elem_of_dom, is_fresh.
Qed.

Lemma pycall_keeps_resources (os : OS) : keeps resources (pycall os).
Proof. keeps_structure resources_all. Qed.

Lemma truncate_f_keeps_resources (os : OS) (f : handle) :
  keeps resources (truncate_f os f).
Proof.
  unfold truncate_f, py_truncate, py_flush, os_fsync.
  keeps_structure
    ltac:(first [apply pycall_keeps_resources | resources_all]).
Qed.

Lemma getsize_keeps_resources (os : OS) (path : string) :
  keeps resources (getsize os path).
Proof.
  unfold getsize, os_lstat_st_blocks, os_path_getsize, FindFilesW, syscall.
  keeps_structure
    ltac:(first [apply pycall_keeps_resources | resources_all]).
Qed.

Lemma wipe_write_loop_keeps_resources (os : OS) (f : handle) (fuel : nat) :
  forall size : Z, keeps resources (wipe_write_loop os fuel f size).
Proof.
  induction fuel as [|fuel IH]; intros size; simpl.
  - destruct (0 <? size); [apply keeps_out_of_fuel|apply keeps_ret].
  - destruct (0 <? size); [|apply keeps_ret].
    apply keeps_bind; [|intros _; apply IH].
    unfold py_write.
    keeps_structure
      ltac:(first [apply pycall_keeps_resources | resources_all]).
Qed.

Lemma wipe_write_inv (os : OS) (path : string) (w w' : World) (f : handle) :
  wipe_write os path w = (Ret f, w') ->
  handles w !! f = None
  /\ handles w' = <[f := path]> (handles w)
  /\ files w' = {[path]} ∪ files w.
Proof.
  intros H. unfold wipe_write in H.
  step H sz w1 S1.
  apply (keeps_inv resources) in S1; [|apply getsize_keeps_resources].
  unfold resources in S1. injection S1 as H1 F1.
  step H f0 w2 S2.
  assert (handles w1 !! f0 = None
          /\ handles w2 = <[f0 := path]> (handles w1)
          /\ files w2 = {[path]} ∪ files w1) as (N2 & H2 & F2).
  { apply try_except_inv_ret in S2 as [Ho|(e & w3 & Ho & Hh)].
    - now apply py_open_inv in Ho.
    - assert (resources w3 = resources w1) as K3.
      { revert Ho. unfold py_open, pycall, tick, open_handle,
          mbind, M_bind, bind, ret, raise. simpl.
        destruct (os_error os (clock w1)); [|discriminate].
        now intros [= _ <-]. }
      destruct e; try discriminate.
      destruct (errno =? EACCES); [|discriminate].
      step Hh v w4 S4.
      apply (keeps_inv resources) in S4.
      2:{ unfold os_chmod.
          keeps_structure
            ltac:(first [apply pycall_keeps_resources | resources_all]). }
      apply py_open_inv in Hh as (N & Hh & Fh).
      unfold resources in K3, S4. injection K3 as K3h K3f.
      injection S4 as S4h S4f.
      rewrite S4h, K3h in N, Hh. rewrite S4f, K3f in Fh. auto. }
  step H v w3 S3.
  apply (keeps_inv resources) in S3; [|apply wipe_write_loop_keeps_resources].
  unfold resources in S3. injection S3 as H3 F3.
  step H v4 w4 S4.
  apply (keeps_inv resources) in S4.
  2:{ unfold py_flush.
      keeps_structure
        ltac:(first [apply pycall_keeps_resources | resources_all]). }
  unfold resources in S4. injection S4 as H4 F4.
  step H v5 w5 S5.
  apply (keeps_inv resources) in S5.
  2:{ unfold os_fsync.
      keeps_structure
        ltac:(first [apply pycall_keeps_resources | resources_all]). }
  unfold resources in S5. injection S5 as H5 F5.
  injection H as <- <-.
  rewrite H5, H4, H3, F5, F4, F3, H2, F2, <- H1, <- F1. auto.
Qed.

(** [wipe_contents] off the administrator path of Windows: whenever it
    returns, the file object it opened is closed again, and the only file
    that may be new is the path itself. *)
Theorem wipe_contents_fallback_closes (os : OS) (path : string)
    (truncate : bool) (w w' : World) (u : unit) :
  bool_decide (os_name os = "nt") && IsUserAnAdmin os = false ->
  wipe_contents os path truncate w = (Ret u, w') ->
  handles w' = handles w /\ files w' = {[path]} ∪ files w.
Proof.
  intros Hplain H. unfold wipe_contents in H. rewrite Hplain in H.
  step H f w1 S1. apply wipe_write_inv in S1 as (N & H1 & F1).
  step H v w2 S2.
  assert (resources w2 = resources w1) as K.
  { destruct truncate.
    - now apply (keeps_inv resources) in S2;
        [|apply truncate_f_keeps_resources].
    - now injection S2 as _ <-. }
  unfold resources in K. injection K as H2 F2.
  unfold py_close in H. injection H as _ <-. simpl.
  rewrite H2, F2, H1, F1. split; [|reflexivity].
  now apply delete_insert_id.
Qed.

Lemma wipe_contents_fallback_closes_witness :
  handles (wipe_contents one_block_os "/tmp/a" true (world_with "/tmp/a")).2
  = handles (world_with "/tmp/a")
  /\ files (wipe_contents one_block_os "/tmp/a" true (world_with "/tmp/a")).2
     = {[ "/tmp/a"%string ]} ∪ files (world_with "/tmp/a").
Proof.
  apply (wipe_contents_fallback_closes one_block_os "/tmp/a" true
           (world_with "/tmp/a") _ tt); [reflexivity|].
  vm_compute. reflexivity.
Defined.

(** [wipe_contents] as an administrator on Windows, when [file_wipe]
    fails with a system error: a sharing or lock violation (32, 33) comes
    out as WindowsError with the same code, after an attempt to truncate
    whose file object is closed again; any other code comes out as it
    was, with nothing further done. *)
Theorem wipe_contents_locked_file (os : OS) (path : string) (truncate : bool)
    (w w1 : World) (winerror : Z) :
  os_name os = "nt" ->
  IsUserAnAdmin os = true ->
  file_wipe os path w = (Raise (WinError winerror), w1) ->
  if bool_decide (winerror ∈ [32; 33]) then
    exists w2 : World,
      wipe_contents os path truncate w = (Raise (WindowsError winerror), w2)
      /\ handles w2 = handles w1
  else
    wipe_contents os path truncate w = (Raise (WinError winerror), w1).
Proof.
  intros Hnt Hadmin Hwipe. unfold wipe_contents.
  rewrite Hnt, Hadmin.
  rewrite (bool_decide_eq_true_2 ("nt"%string = "nt"%string) eq_refl).
  cbn [andb].
  destruct (bool_decide (winerror ∈ [32; 33])) eqn:Ein.
  - assert (exists w2,
              try_except
                (f ← py_open os path;
                 try_finally (truncate_f os f) (py_close f))
                (fun e2 => match e2 with
                           | OSError _ => ret tt
                           | _ => raise e2
                           end) w1 = (Ret tt, w2)
              /\ handles w2 = handles w1) as (w2 & Hinner & Hh).
    { unfold try_except. unfold mbind, M_bind, bind.
      destruct (py_open os path w1) as [[f|e|] v] eqn:Eo.
      - apply py_open_inv in Eo as (N & Ho & _).
        unfold try_finally.
        pose proof (truncate_f_keeps_resources os f v) as K.
        assert (exists n, (truncate_f os f v).1 = Ret tt
                          \/ (truncate_f os f v).1 = Raise (OSError n))
          as [n Hr].
        { destruct (truncate_f os f v).1 as [[]|e|] eqn:Er.
          - exists 0. now left.
          - destruct (truncate_f_raises os f v e Er) as (n & -> & _).
            exists n. now right.
          - exfalso. revert Er. unfold truncate_f, try_except, py_truncate,
              py_flush, os_fsync, pycall, tick, emit, mbind, M_bind, bind,
              ret, raise. simpl.
            repeat (match goal with
                    | |- context [os_error os ?t] =>
                        destruct (os_error os t) eqn:?; simpl
                    | |- context [?n =? ENOSPC] =>
                        destruct (n =? ENOSPC); simpl
                    end); discriminate. }
        destruct (truncate_f os f v) as [r v'].
        unfold resources in K. simpl in K. injection K as Kh Kf.
        simpl in Hr. unfold py_close.
        destruct Hr as [-> | ->]; eexists; (split; [reflexivity|]); simpl;
          rewrite Kh, Ho; now apply delete_insert_id.
      - revert Eo. unfold py_open, pycall, tick, open_handle,
          mbind, M_bind, bind, ret, raise. simpl.
        destruct (os_error os (clock w1)); [|discriminate].
        intros [= <- <-]. eexists. split; reflexivity.
      - exfalso. revert Eo. unfold py_open, pycall, tick, open_handle,
          mbind, M_bind, bind, ret, raise. simpl.
        destruct (os_error os (clock w1)); discriminate. }
    exists w2. split; [|exact Hh].
    apply bind_raise, bind_raise. unfold try_except at 1.
    rewrite (bind_raise _ _ _ _ _ Hwipe). cbn beta iota. rewrite Ein.
    cbn [negb]. rewrite (bind_ret _ _ _ _ _ Hinner). reflexivity.
  - apply bind_raise, bind_raise. unfold try_except at 1.
    rewrite (bind_raise _ _ _ _ _ Hwipe). cbn beta iota. rewrite Ein.
    reflexivity.
Qed.

Lemma wipe_contents_locked_file_witness :
  if bool_decide (32 ∈ [32; 33]) then
    exists w2 : World,
      wipe_contents locked_os "C:\a.bin" true (world_with "C:\a.bin")
      = (Raise (WindowsError 32), w2)
      /\ handles w2 = handles (set_clock 1 (world_with "C:\a.bin"))
  else
    wipe_contents locked_os "C:\a.bin" true (world_with "C:\a.bin")
    = (Raise (WinError 32), set_clock 1 (world_with "C:\a.bin")).
Proof.
  apply (wipe_contents_locked_file locked_os "C:\a.bin" true
           (world_with "C:\a.bin") (set_clock 1 (world_with "C:\a.bin")) 32);
    reflexivity.
Defined.

(** *** wipe_name when no rename is refused *)

Lemma rename_first_try (os : OS) (src head : string) (len : Z) (w : World) :
  src ∈ files w ->
  os_error os (S (clock w)) = None ->
  (name ← __random_string os len;
   let dst := os_path_join os head name in
   os_rename os src dst;; ret (Some dst)) w
  = (Ret (Some (os_path_join os head (os_random os (clock w) len))),
     renamed_world src (os_path_join os head (os_random os (clock w) len)) w).
Proof.
  intros Hin Herr.
  unfold __random_string, os_rename, pycall, move_entry, tick,
    mbind, M_bind, bind, ret, raise. simpl.
  rewrite Herr. simpl. now rewrite bool_decide_eq_true_2 by exact Hin.
Qed.

Lemma long_rename_first_try (os : OS) (rounds : nat) (src head : string)
    (maxlen i : Z) (w : World) :
  src ∈ files w ->
  os_error os (S (clock w)) = None ->
  long_rename os (S rounds) src head maxlen i w
  = (Ret (os_path_join os head (os_random os (clock w) maxlen)),
     renamed_world src
       (os_path_join os head (os_random os (clock w) maxlen)) w).
Proof.
  intros Hin Herr. simpl.
  unfold mbind at 1. unfold M_bind at 1. unfold bind at 1.
  unfold try_except.
  pose proof (rename_first_try os src head maxlen w Hin Herr) as E.
  cbv zeta in E. rewrite E. reflexivity.
Qed.

Lemma short_rename_first_try (os : OS) (rounds : nat) (src head : string)
    (i : Z) (w : World) :
  src ∈ files w ->
  os_error os (S (clock w)) = None ->
  short_rename os (S rounds) src head i w
  = (Ret (os_path_join os head (os_random os (clock w) (i + 1))),
     renamed_world src
       (os_path_join os head (os_random os (clock w) (i + 1))) w).
Proof.
  intros Hin Herr. simpl.
  unfold mbind at 1. unfold M_bind at 1. unfold bind at 1.
  unfold try_except.
  pose proof (rename_first_try os src head (i + 1) w Hin Herr) as E.
  cbv zeta in E. rewrite E. reflexivity.
Qed.

(** When neither rename is refused, [wipe_name] renames twice, first to
    a random name of 226 characters and then to one of a single character,
    both in the directory of the path, and returns the second name. *)
Theorem wipe_name_two_renames (os : OS) (pathname1 : string) (w : World) :
  pathname1 ∈ files w ->
  os_error os (S (clock w)) = None ->
  os_error os (S (S (S (clock w)))) = None ->
  let head := (os_path_split os pathname1).1 in
  let pathname2 := os_path_join os head (os_random os (clock w) 226) in
  let pathname3 :=
    os_path_join os head (os_random os (S (S (clock w))) 1) in
  wipe_name os pathname1 w
  = (Ret pathname3,
     renamed_world pathname2 pathname3
       (renamed_world pathname1 pathname2 w)).
Proof.
  intros Hin Herr1 Herr2 head pathname2 pathname3. unfold wipe_name.
  destruct (os_path_split os pathname1) as [head' tail] eqn:Es.
  simpl in head. subst head.
  unfold mbind, M_bind, bind.
  change 101%nat with (S 100).
  rewrite (long_rename_first_try os 100 pathname1 head' 226 0 w Hin Herr1).
  fold pathname2.
  rewrite (short_rename_first_try os 100 pathname2 head' 0
             (renamed_world pathname1 pathname2 w)).
  - reflexivity.
  - simpl. set_solver.
  - exact Herr2.
Qed.

Lemma wipe_name_two_renames_witness :
  wipe_name naming_os "/tmp/a" (world_with "/tmp/a")
  = (Ret "/tmp/s"%string,
     renamed_world "/tmp/long" "/tmp/s"
       (renamed_world "/tmp/a" "/tmp/long" (world_with "/tmp/a"))).
Proof.
  apply (wipe_name_two_renames naming_os "/tmp/a" (world_with "/tmp/a"));
    [simpl; set_solver|reflexivity|reflexivity].
Defined.

(** *** Relations every step of a computation respects *)

Section Respects.

Context (R : World -> World -> Prop).
Hypothesis R_refl : forall w, R w w.
Hypothesis R_trans : forall w1 w2 w3, R w1 w2 -> R w2 w3 -> R w1 w3.

Lemma respects_ret {A : Type} (a : A) : respects R (ret a).
Proof. intros w. apply R_refl. Qed.

Lemma respects_mret {A : Type} (a : A) : respects R (mret a).
Proof. intros w. apply R_refl. Qed.

Lemma respects_raise {A : Type} (e : exn) : respects R (@raise A e).
Proof. intros w. apply R_refl. Qed.

Lemma respects_bind {A B : Type} (m : M A) (k : A -> M B) :
  respects R m -> (forall a, respects R (k a)) -> respects R (m ≫= k).
Proof.
  intros Hm Hk w. unfold mbind, M_bind, bind. specialize (Hm w).
  destruct (m w) as [[a|e|] w1]; simpl in *; try exact Hm.
  eapply R_trans; [exact Hm|apply Hk].
Qed.

Lemma respects_try_except {A : Type} (body : M A) (handler : exn -> M A) :
  respects R body -> (forall e, respects R (handler e)) ->
  respects R (try_except body handler).
Proof.
  intros Hb Hh w. unfold try_except. specialize (Hb w).
  destruct (body w) as [[a|e|] w1]; simpl in *; try exact Hb.
  eapply R_trans; [exact Hb|apply Hh].
Qed.

End Respects.

Ltac respects_structure Hrefl Htrans leaf :=
  repeat first
    [ leaf
    | apply (respects_ret _ Hrefl)
    | apply (respects_mret _ Hrefl)
    | apply (respects_raise _ Hrefl)
    | apply (respects_bind _ Htrans); [|intros ?]
    | apply (respects_try_except _ Htrans); [|intros ?]
    | progress cbv beta
    | match goal with
      | |- respects _ (if ?b then _ else _) => destruct b
      | |- respects _ (match ?x with _ => _ end) => destruct x
      end ].

Lemma only_removes_refl (w : World) : only_removes w w.
Proof. unfold only_removes. auto. Qed.

Lemma only_removes_trans (w1 w2 w3 : World) :
  only_removes w1 w2 -> only_removes w2 w3 -> only_removes w1 w3.
Proof.
  unfold only_removes. intros (T1 & H1 & F1) (T2 & H2 & F2).
  rewrite T2, T1, H2, H1. repeat split; try reflexivity.
  now transitivity (files w2).
Qed.

Lemma tick_only_removes : respects only_removes tick.
Proof. intros w. unfold only_removes. simpl. auto. Qed.

Lemma pycall_only_removes (os : OS) : respects only_removes (pycall os).
Proof.
  unfold pycall.
  respects_structure only_removes_refl only_removes_trans
    ltac:(apply tick_only_removes).
Qed.

Lemma remove_entry_only_removes (path : string) :
  respects only_removes (remove_entry path).
Proof.
  intros w. unfold remove_entry. case_bool_decide; simpl.
  - unfold only_removes. simpl. repeat split; try reflexivity. set_solver.
  - apply only_removes_refl.
Qed.

Lemma os_path_lexists_only_removes (path : string) :
  respects only_removes (os_path_lexists path).
Proof. intros w. apply only_removes_refl. Qed.

(** *** delete *)

(** With [allow_shred=False], [delete] neither overwrites nor renames,
    whatever [shred] and the option say and however it ends: the trace
    and the open handles are as before, and no file is new. *)
Theorem delete_without_shred (os : OS) (shred_option : bool)
    (ENOTEMPTY EBUSY : Z) (path : string) (shred ignore_missing : bool)
    (w : World) :
  only_removes w
    (FileUtilities.delete os shred_option ENOTEMPTY EBUSY path shred ignore_missing false
       w).2.
Proof.
  revert w.
  change (respects only_removes
            (FileUtilities.delete os shred_option ENOTEMPTY EBUSY path shred
               ignore_missing false)).
  unfold FileUtilities.delete, delete_directory, delete_file, os_remove, os_rmdir,
    os_lstat_st_mode, os_path_isdir, os_path_isfile, os_path_islink,
    os_path_ismount, os_path_test.
  cbn [andb]. cbv zeta.
  respects_structure only_removes_refl only_removes_trans
    ltac:(first [ apply tick_only_removes | apply pycall_only_removes
                | apply remove_entry_only_removes
                | apply os_path_lexists_only_removes ]).
Qed.

(** [delete] of a path that does not exist does nothing: it returns with
    [ignore_missing] and raises OSError 2 without. *)
Theorem delete_missing (os : OS) (shred_option : bool) (ENOTEMPTY EBUSY : Z)
    (path : string) (shred ignore_missing allow_shred : bool) (w : World) :
  extended_path os path ∉ files w ->
  FileUtilities.delete os shred_option ENOTEMPTY EBUSY path shred ignore_missing
    allow_shred w
  = (if ignore_missing then Ret tt else Raise (OSError ENOENT), w).
Proof.
  intros Hmissing. unfold FileUtilities.delete, os_path_lexists, mbind, M_bind, bind.
  cbv zeta. rewrite bool_decide_eq_false_2 by exact Hmissing. simpl.
  now destruct ignore_missing.
Qed.

Lemma delete_missing_witness :
  FileUtilities.delete one_block_os false 39 16 "/tmp/gone" true false true empty_world
  = (Raise (OSError ENOENT), empty_world).
Proof.
  apply (delete_missing one_block_os false 39 16 "/tmp/gone" true false true
           empty_world).
  simpl. set_solver.
Defined.

(** Off POSIX, [delete] with shredding on a directory that has an entry
    returns after the two questions to the file system: the directory is
    neither renamed nor removed. *)
Theorem delete_keeps_directory_in_use (os : OS) (shred_option : bool)
    (ENOTEMPTY EBUSY : Z) (path : string) (shred ignore_missing : bool)
    (w : World) :
  os_name os <> "posix" ->
  shred || shred_option = true ->
  extended_path os path ∈ files w ->
  os_int os (clock w) <> 0 ->
  os_error os (S (clock w)) = None ->
  0 < os_int os (S (clock w)) ->
  FileUtilities.delete os shred_option ENOTEMPTY EBUSY path shred ignore_missing true w
  = (Ret tt, set_clock (S (S (clock w))) w).
Proof.
  intros Hnt Hshred Hin Hdir Herr Hentries.
  unfold FileUtilities.delete, os_path_lexists, mbind, M_bind, bind. cbv zeta.
  rewrite bool_decide_eq_true_2 by exact Hin. cbn [negb andb].
  rewrite bool_decide_eq_false_2 by congruence.
  unfold ret at 1. unfold os_path_isdir, os_path_test, tick, mbind, M_bind,
    bind, ret. cbn [clock set_clock].
  rewrite (proj2 (Z.eqb_neq _ 0) Hdir). cbn [negb].
  unfold delete_directory. rewrite Hshred.
  unfold is_dir_empty, pycall, tick, mbind, M_bind, bind, ret. simpl.
  rewrite Herr. simpl.
  rewrite (proj2 (Z.leb_gt _ 0) Hentries). reflexivity.
Qed.

Lemma delete_keeps_directory_in_use_witness :
  FileUtilities.delete directory_os false 41 16 "C:\dir" true false true
    (world_with "\\?\C:\dir")
  = (Ret tt,
     set_clock (S (S (clock (world_with "\\?\C:\dir"))))
       (world_with "\\?\C:\dir")).
Proof.
  apply (delete_keeps_directory_in_use directory_os false 41 16 "C:\dir"
           true false (world_with "\\?\C:\dir"));
    [discriminate|reflexivity|vm_compute; set_solver|discriminate
    |reflexivity|reflexivity].
Defined.

(** *** delete: a file that was deleted is gone *)

Lemma rename_attempt_cases (os : OS) (src head : string) (len : Z)
    (w : World) :
  let attempt :=
    name ← __random_string os len;
    let dst := os_path_join os head name in
    os_rename os src dst;; ret (Some dst) in
  (exists dst w', attempt w = (Ret (Some dst), w')
                  /\ files w' = {[dst]} ∪ files w ∖ {[src]})
  \/ (exists errno w', attempt w = (Raise (OSError errno), w')
                       /\ files w' = files w).
Proof.
  intros attempt. subst attempt.
  unfold __random_string, os_rename, pycall, move_entry, tick,
    mbind, M_bind, bind, ret, raise. simpl.
  destruct (os_error os (S (clock w))) as [errno|].
  - right. eauto.
  - case_bool_decide; [left|right]; eauto.
Qed.

Lemma long_rename_files (os : OS) (head : string) (rounds : nat) :
  forall (src : string) (maxlen i : Z) (w w' : World) (dst : string),
    long_rename os rounds src head maxlen i w = (Ret dst, w') ->
    files w' ⊆ {[dst]} ∪ files w /\ (dst <> src -> src ∉ files w').
Proof.
  induction rounds as [|rounds IH]; intros src maxlen i w w' dst H;
    [discriminate|].
  simpl in H. unfold mbind at 1 in H. unfold M_bind at 1 in H.
  unfold bind at 1 in H. unfold try_except in H.
  destruct (rename_attempt_cases os src head maxlen w)
    as [(d & w1 & E & F)|(errno & w1 & E & F)]; cbv zeta in E;
    rewrite E in H.
  - injection H as <- <-. rewrite F. set_solver.
  - simpl in H. destruct (100 <? i + 1).
    + injection H as <- <-. rewrite F. set_solver.
    + apply IH in H as [G1 G2]. rewrite F in G1. auto.
Qed.

Lemma short_rename_files (os : OS) (head : string) (rounds : nat) :
  forall (src : string) (i : Z) (w w' : World) (dst : string),
    short_rename os rounds src head i w = (Ret dst, w') ->
    files w' ⊆ {[dst]} ∪ files w /\ (dst <> src -> src ∉ files w').
Proof.
  induction rounds as [|rounds IH]; intros src i w w' dst H; [discriminate|].
  simpl in H. unfold mbind at 1 in H. unfold M_bind at 1 in H.
  unfold bind at 1 in H. unfold try_except in H.
  destruct (rename_attempt_cases os src head (i + 1) w)
    as [(d & w1 & E & F)|(errno & w1 & E & F)]; cbv zeta in E;
    rewrite E in H.
  - injection H as <- <-. rewrite F. set_solver.
  - simpl in H. destruct (100 <? i + 1).
    + injection H as <- <-. rewrite F. set_solver.
    + apply IH in H as [G1 G2]. rewrite F in G1. auto.
Qed.

Lemma wipe_name_files (os : OS) (path : string) (w w' : World)
    (renamed : string) :
  wipe_name os path w = (Ret renamed, w') ->
  renamed <> path -> path ∉ files w'.
Proof.
  unfold wipe_name. destruct (os_path_split os path) as [head tail].
  intros H Hne. step H pathname2 w1 S1.
  change 101%nat with (S 100) in *.
  apply long_rename_files in S1 as [L1 L2].
  apply short_rename_files in H as [S1 S2].
  destruct (decide (pathname2 = path)) as [->|Hp].
  - now apply S2.
  - specialize (L2 Hp). set_solver.
Qed.

Lemma os_remove_inv (os : OS) (path : string) (w w' : World) (u : unit) :
  os_remove os path w = (Ret u, w') ->
  files w' = files w ∖ {[path]}.
Proof.
  unfold os_remove, pycall, remove_entry, tick, mbind, M_bind, bind, ret,
    raise. simpl.
  destruct (os_error os (clock w)); [discriminate|]. simpl.
  case_bool_decide; [|discriminate]. now intros [= _ <-].
Qed.

(** The regular-file branch of [delete]: whenever it returns, the path
    is gone, with or without shredding, even when wiping the contents
    failed with an I/O error that was swallowed. *)
Theorem delete_file_removes (os : OS) (path : string) (do_shred : bool)
    (w w' : World) (u : unit) :
  delete_file os path do_shred w = (Ret u, w') ->
  path ∉ files w'.
Proof.
  intros H. unfold delete_file in H. destruct do_shred.
  - step H v w1 S1. step H renamed w2 S2.
    apply os_remove_inv in H.
    destruct (decide (renamed = path)) as [->|Hne]; [set_solver|].
    pose proof (wipe_name_files os path w1 w2 renamed S2 Hne). set_solver.
  - apply os_remove_inv in H. set_solver.
Qed.

Lemma delete_file_removes_witness :
  "/tmp/a"%string
  ∉ files (delete_file naming_os "/tmp/a" true (world_with "/tmp/a")).2.
Proof.
  apply (delete_file_removes naming_os "/tmp/a" true (world_with "/tmp/a")
           _ tt).
  vm_compute. reflexivity.
Defined.

(** *** The whitelist *)

Lemma prefix_self (a s : string) : String.prefix a (a +:+ s) = true.
Proof.
  induction a as [|c a IH]; [now destruct s|].
  change (String.prefix (String c a) (String c (a +:+ s)) = true).
  rewrite prefix_cons. destruct (ascii_dec c c); [exact IH|congruence].
Qed.

Lemma append_assoc (a b c : string) : (a +:+ b) +:+ c = a +:+ (b +:+ c).
Proof.
  induction a as [|x a IH]; [reflexivity|].
  change (String x ((a +:+ b) +:+ c) = String x (a +:+ (b +:+ c))).
  now rewrite IH.
Qed.

Lemma startswith_iff (path a : string) :
  startswith path a = true <-> exists rest, path = a +:+ rest.
Proof.
  unfold startswith. split.
  - intros H. eexists. now apply prefix_drop.
  - intros [rest ->]. apply prefix_self.
Qed.

Lemma startswith_sep_iff (path a : string) (sep : ascii) :
  startswith path (a +:+ String sep "") = true
  <-> exists rest, path = a +:+ String sep rest.
Proof.
  rewrite startswith_iff. split; intros [rest ->]; exists rest.
  - now rewrite append_assoc.
  - now rewrite append_assoc.
Qed.

Lemma exists_cons {A : Type} (P : A -> Prop) (x : A) (l : list A) :
  (exists y, y ∈ x :: l /\ P y) <-> P x \/ exists y, y ∈ l /\ P y.
Proof.
  split.
  - intros (y & Hy & H). apply elem_of_cons in Hy as [->|Hy]; eauto.
  - intros [H|(y & Hy & H)].
    + exists x. split; [apply list_elem_of_here|exact H].
    + exists y. split; [now apply list_elem_of_further|exact H].
Qed.

Lemma whitelisted_posix_loop_covered (os : OS)
    (whitelist : list (string * string)) (path : string) :
  whitelisted_posix_loop os whitelist path = true
  <-> exists pathname, pathname ∈ whitelist
                       /\ covers_posix os pathname path.
Proof.
  induction whitelist as [|[kind name] rest IH].
  - simpl. split; [discriminate|].
    intros (x & Hx & _). now apply elem_of_nil in Hx.
  - rewrite exists_cons, <- IH.
    transitivity
      ((bool_decide (kind = "file") && bool_decide (path = name))
       || (bool_decide (kind = "folder")
           && (bool_decide (path = name)
               || startswith path (name +:+ String (os_sep os) "")))
       || whitelisted_posix_loop os rest path = true).
    + simpl.
      destruct (bool_decide (kind = "file")), (bool_decide (path = name)),
        (bool_decide (kind = "folder")),
        (startswith path (name +:+ String (os_sep os) ""));
        reflexivity.
    + unfold covers_posix. simpl.
      rewrite !orb_true_iff, !andb_true_iff, orb_true_iff,
        !bool_decide_eq_true, startswith_sep_iff.
      reflexivity.
Qed.

(** [whitelisted_posix] answers True exactly when an entry of the
    whitelist covers the path (a file entry equal to it, a folder entry
    equal to it or followed in it by the separator) or, for a symbolic
    link with [check_realpath], covers the path the link resolves to. *)
Theorem whitelisted_posix_covered (os : OS) (islink : string -> bool)
    (realpath : string -> string) (whitelist : list (string * string))
    (path : string) (check_realpath : bool) :
  whitelisted_posix os islink realpath whitelist path check_realpath = true
  <-> (exists pathname, pathname ∈ whitelist
                        /\ covers_posix os pathname path)
      \/ (check_realpath = true /\ islink path = true
          /\ exists pathname, pathname ∈ whitelist
                              /\ covers_posix os pathname (realpath path)).
Proof.
  unfold whitelisted_posix. rewrite <- !whitelisted_posix_loop_covered.
  destruct check_realpath, (islink path); simpl;
    destruct (whitelisted_posix_loop os whitelist path);
    destruct (whitelisted_posix_loop os whitelist (realpath path));
    split; auto; intros [H|(H1 & H2 & H3)]; congruence.
Qed.

Lemma whitelisted_windows_covered_entries (os : OS)
    (lower : string -> string) (whitelist : list (string * string))
    (path : string) :
  whitelisted_windows os lower whitelist path = true
  <-> exists pathname, pathname ∈ whitelist
                       /\ covers_windows os lower pathname path.
Proof.
  induction whitelist as [|[kind name] rest IH].
  - simpl. split; [discriminate|].
    intros (x & Hx & _). now apply elem_of_nil in Hx.
  - rewrite exists_cons, <- IH.
    transitivity
      ((bool_decide (kind = "file")
        && bool_decide (lower path = lower name))
       || (bool_decide (kind = "folder")
           && (bool_decide (lower path = lower name)
               || startswith (lower path)
                    (lower name +:+ String (os_sep os) "")
               || ((Z.of_nat (String.length name) =? 3)
                   && startswith (lower path) (lower name))))
       || whitelisted_windows os lower rest path = true).
    + simpl.
      destruct (bool_decide (kind = "file")),
        (bool_decide (lower path = lower name)),
        (bool_decide (kind = "folder")),
        (startswith (lower path) (lower name +:+ String (os_sep os) "")),
        (Z.of_nat (String.length name) =? 3),
        (startswith (lower path) (lower name));
        reflexivity.
    + unfold covers_windows. simpl.
      rewrite !orb_true_iff, !andb_true_iff, !orb_true_iff, andb_true_iff,
        !bool_decide_eq_true, startswith_sep_iff, startswith_iff,
        Z.eqb_eq.
      assert (Z.of_nat (String.length name) = 3
              <-> String.length name = 3%nat) as -> by lia.
      tauto.
Qed.

(** [whitelisted_windows] answers True exactly when an entry covers the
    path without regard to case; besides the rules of POSIX, a folder
    entry of three characters covers every path that starts with them,
    separator or not.  This holds whatever [str.lower] does to a
    string. *)
Theorem whitelisted_windows_covered (os : OS) (lower : string -> string)
    (whitelist : list (string * string)) (path : string) :
  whitelisted_windows os lower whitelist path = true
  <-> exists pathname, pathname ∈ whitelist
                       /\ covers_windows os lower pathname path.
Proof. apply whitelisted_windows_covered_entries. Qed.

Lemma whitelisted_windows_lower (os : OS) (lower : string -> string)
    (whitelist : list (string * string)) (path1 path2 : string) :
  lower path1 = lower path2 ->
  whitelisted_windows os lower whitelist path1
  = whitelisted_windows os lower whitelist path2.
Proof.
  intros H. induction whitelist as [|[kind name] rest IH]; [reflexivity|].
  simpl. now rewrite H, IH.
Qed.

(** [whitelisted_windows] looks at the path through [str.lower] only: two
    paths that [str.lower] maps to the same string get the same answer. *)
Theorem whitelisted_windows_ignores_case (os : OS)
    (lower : string -> string) (whitelist : list (string * string))
    (path1 path2 : string) :
  lower path1 = lower path2 ->
  whitelisted_windows os lower whitelist path1
  = whitelisted_windows os lower whitelist path2.
Proof. apply whitelisted_windows_lower. Qed.

Lemma whitelisted_windows_ignores_case_witness :
  whitelisted_windows direct_os str_lower [("folder", "C:\Users")]
    "C:\USERS\a.txt"
  = whitelisted_windows direct_os str_lower [("folder", "C:\Users")]
      "c:\users\A.TXT".
Proof.
  apply (whitelisted_windows_ignores_case direct_os str_lower
           [("folder", "C:\Users")] "C:\USERS\a.txt" "c:\users\A.TXT").
  reflexivity.
Defined.
